(** * Retrieval-augmented context engine: a shallow embedding

    The development follows the Python sources of the context engine:

    - [src/rag/retriever.py]                       (module [Retriever])
    - [src/data/processors/data_processor.py]      (modules [NewsDedup], [Fusion])
    - [agent_fin/core/data/scrapers/news_scraper.py] (same deduplicator)
    - [agent_fin/core/vector_db/faiss_manager.py]  (module [VectorDB])

    Python values are modelled as the code uses them: [str] as [string]
    (ASCII text), [int] as [Z] or [nat] for lengths and positions, [float]
    as IEEE binary64 ([PrimFloat.float]), [dict]/[set] keyed by strings as
    [gmap]/[gset], [Optional] and [dict.get] as [option], and a raised
    exception as the [Raise] branch of [result]. *)

From Stdlib Require Import ZArith Uint63 Floats.PrimFloat Floats.SpecFloat Floats.FloatOps.
From Stdlib Require Import Ascii String.
From stdpp Require Import gmap strings list pretty sorting.

Local Open Scope string_scope.

(** ** Exceptions *)

Inductive exn :=
| ZeroDivisionError
| ValueError
| AssertionError
| IndexError
| TypeError
| RuntimeError (msg : string).

Inductive result (A : Type) :=
| Ret (a : A)
| Raise (e : exn).
Arguments Ret {A} a.
Arguments Raise {A} e.

Definition rbind {A B} (m : result A) (f : A -> result B) : result B :=
  match m with
  | Ret a => f a
  | Raise e => Raise e
  end.

Definition returns {A} (m : result A) : Prop := exists a, m = Ret a.

(** ** Python strings (ASCII) *)

Module PyStr.

(** Strings are read as ASCII text, one character per code point.  On such
    text [str.upper], [str.lower], [str.isalpha], [str.isspace] and the
    classes [\w], [\s], [\b] and [[A-Z]] of [re] are the functions below.
    On other code points Python's versions differ (they know the letters
    of Unicode): a property that depends on it is stated for the texts that
    [isascii] accepts. *)

Definition in_range (lo hi : N) (c : ascii) : bool :=
  let n := N_of_ascii c in ((lo <=? n) && (n <=? hi))%N.

Definition is_upper (c : ascii) : bool := in_range 65 90 c.
Definition is_lower (c : ascii) : bool := in_range 97 122 c.
Definition is_digit (c : ascii) : bool := in_range 48 57 c.
Definition is_alpha (c : ascii) : bool := is_upper c || is_lower c.

(** [str.isspace] on one character: tab..carriage return, the four
    separators 0x1c..0x1f and the space. *)
Definition is_space (c : ascii) : bool :=
  in_range 9 13 c || in_range 28 32 c.

(** [\w] of the [re] module, for an ASCII character. *)
Definition is_word (c : ascii) : bool :=
  is_alpha c || is_digit c || (N_of_ascii c =? 95)%N.

Definition to_upper (c : ascii) : ascii :=
  if is_lower c then ascii_of_N (N_of_ascii c - 32) else c.
Definition to_lower (c : ascii) : ascii :=
  if is_upper c then ascii_of_N (N_of_ascii c + 32) else c.

Fixpoint map_chars (f : ascii -> ascii) (s : string) : string :=
  match s with
  | EmptyString => EmptyString
  | String c s' => String (f c) (map_chars f s')
  end.

(** [s.upper()] and [s.lower()], for ASCII text. *)
Definition upper : string -> string := map_chars to_upper.
Definition lower : string -> string := map_chars to_lower.

Definition chars : string -> list ascii := list_ascii_of_string.
Definition str : list ascii -> string := string_of_list_ascii.

(** [s.isascii()]: every code point is below 128. *)
Definition isascii (s : string) : bool :=
  forallb (fun c => (N_of_ascii c <? 128)%N) (chars s).

(** [s.isalpha()]: every character alphabetic and at least one character. *)
Definition isalpha (s : string) : bool :=
  match chars s with
  | [] => false
  | cs => forallb is_alpha cs
  end.

Fixpoint lstrip (cs : list ascii) : list ascii :=
  match cs with
  | c :: cs' => if is_space c then lstrip cs' else cs
  | [] => []
  end.

(** [s.strip()] *)
Definition strip (s : string) : string :=
  str (rev (lstrip (rev (lstrip (chars s))))).

(** [s.split()]: maximal runs of non-blank characters; [w] is the word
    being read, most recent character first. *)
Fixpoint split_from (w : list ascii) (cs : list ascii) : list string :=
  match cs with
  | [] => match w with [] => [] | _ => [str (rev w)] end
  | c :: cs' =>
      if is_space c
      then match w with
           | [] => split_from [] cs'
           | _ => str (rev w) :: split_from [] cs'
           end
      else split_from (c :: w) cs'
  end.

Definition split (s : string) : list string := split_from [] (chars s).

(** [sep.join(parts)] *)
Fixpoint join (sep : string) (parts : list string) : string :=
  match parts with
  | [] => ""
  | [p] => p
  | p :: ps => p ++ sep ++ join sep ps
  end.

End PyStr.

(** ** Python floats and their mixing with integers *)

Module PyFloat.

(** [float(n)]: the binary64 nearest to [n], ties to even.  Python raises
    [OverflowError] from 2^1024 on; lengths, counts and character budgets
    stay far below, and the conversion is taken as IEEE rounding. *)
Definition of_int (n : Z) : float :=
  SF2Prim (binary_normalize 53 1024 n 0 false).

(** [bool(x)], that is [x != 0.0]. *)
Definition truthy (x : float) : bool := negb (PrimFloat.eqb x 0).

(** [x / y] on floats: [ZeroDivisionError] exactly when [y == 0.0]. *)
Definition truediv (x y : float) : result float :=
  if PrimFloat.eqb y 0 then Raise ZeroDivisionError else Ret (x / y)%float.

(** [a / b] on integers. *)
Definition int_truediv (a b : Z) : result float :=
  if (b =? 0)%Z then Raise ZeroDivisionError
  else Ret (of_int a / of_int b)%float.

(** [n > x] for an integer [n] and a float [x]: Python compares the two
    exactly, without rounding [n]. *)
Definition int_gt (n : Z) (x : float) : bool :=
  match Prim2SF x with
  | S754_nan => false
  | S754_infinity neg => neg
  | S754_zero _ => (0 <? n)%Z
  | S754_finite neg m e =>
      let v := if neg then Z.neg m else Z.pos m in
      if (0 <=? e)%Z then (v * 2 ^ e <? n)%Z
      else (v <? n * 2 ^ (- e))%Z
  end.

End PyFloat.

(** ** The fragment of Python's [re] used by the retriever

    A backtracking matcher for the operators that occur in the three symbol
    patterns: literals, character classes, greedy bounded and unbounded
    repetition of a class, alternation, the greedy option, [\b] and one
    capturing group. *)

Module Re.

Inductive regex :=
| Lit (s : string)                                   (* literal text *)
| Class (p : ascii -> bool)                          (* [..], \s *)
| Repeat (p : ascii -> bool) (lo : nat) (hi : option nat)  (* [..]{lo,hi}, \s+ *)
| Boundary                                           (* \b *)
| Cat (r1 r2 : regex)
| Alt (r1 r2 : regex)                                (* r1|r2 *)
| Opt (r : regex)                                    (* r? *)
| Group (r : regex).                                 (* ( r ), group 1 *)

(** A position in the subject: the character before it (for [\b]), the
    text from it on, and its offset. *)
Record cursor := Cursor {
  before : option ascii;
  rest : list ascii;
  offset : nat
}.

Definition word_before (c : cursor) : bool :=
  match before c with Some a => PyStr.is_word a | None => false end.
Definition word_after (c : cursor) : bool :=
  match rest c with a :: _ => PyStr.is_word a | [] => false end.

Definition advance (c : cursor) : option cursor :=
  match rest c with
  | a :: cs => Some (Cursor (Some a) cs (S (offset c)))
  | [] => None
  end.

Fixpoint lit (s : list ascii) (c : cursor) : option cursor :=
  match s with
  | [] => Some c
  | a :: s' =>
      match rest c with
      | b :: cs => if Ascii.eqb a b then lit s' (Cursor (Some b) cs (S (offset c))) else None
      | [] => None
      end
  end.

Section Matcher.
Context {R : Type}.

(** Greedy repetition of a class: take one more character when allowed,
    and fall back to stopping here when the continuation fails. *)
Fixpoint repeat (p : ascii -> bool) (lo : nat) (hi : option nat) (n : nat)
    (prev : option ascii) (cs : list ascii) (off : nat)
    (k : cursor -> option R) : option R :=
  let stop := if (lo <=? n)%nat then k (Cursor prev cs off) else None in
  match cs with
  | a :: cs' =>
      if p a && match hi with Some h => (n <? h)%nat | None => true end
      then match repeat p lo hi (S n) (Some a) cs' (S off) k with
           | Some r => Some r
           | None => stop
           end
      else stop
  | [] => stop
  end.

(** [run r c g k]: match [r] at [c] with group 1 currently [g], then
    continue with [k]; the first success in backtracking order wins. *)
Fixpoint run (r : regex) (c : cursor) (g : option string)
    (k : cursor -> option string -> option R) : option R :=
  match r with
  | Lit s => match lit (PyStr.chars s) c with Some c' => k c' g | None => None end
  | Class p =>
      match rest c with
      | a :: _ => if p a then match advance c with Some c' => k c' g | None => None end else None
      | [] => None
      end
  | Repeat p lo hi => repeat p lo hi 0 (before c) (rest c) (offset c) (fun c' => k c' g)
  | Boundary => if xorb (word_before c) (word_after c) then k c g else None
  | Cat r1 r2 => run r1 c g (fun c' g' => run r2 c' g' k)
  | Alt r1 r2 => match run r1 c g k with Some x => Some x | None => run r2 c g k end
  | Opt r1 => match run r1 c g k with Some x => Some x | None => k c g end
  | Group r1 =>
      run r1 c g (fun c' _ => k c' (Some (PyStr.str (take (offset c' - offset c) (rest c)))))
  end.
End Matcher.

(** A match starting exactly at [c]: where it ends and what group 1 holds. *)
Definition match_at (r : regex) (c : cursor) : option (nat * option string) :=
  run r c None (fun c' g => Some (offset c', g)).

(** [re.findall] for a pattern with one group: scan left to right, take
    the match at the first position that has one, resume where it ended
    (one character further after an empty match).  [resume] is the offset
    from which the next match may start. *)
Fixpoint findall_from (r : regex) (prev : option ascii) (cs : list ascii)
    (off resume : nat) : list string :=
  let found := if (off <? resume)%nat then None else match_at r (Cursor prev cs off) in
  match found, cs with
  | Some (e, g), a :: cs' =>
      default "" g :: findall_from r (Some a) cs' (S off) (Nat.max e (S off))
  | Some (_, g), [] => [default "" g]
  | None, a :: cs' => findall_from r (Some a) cs' (S off) resume
  | None, [] => []
  end.

Definition findall (r : regex) (s : string) : list string :=
  findall_from r None (PyStr.chars s) 0 0.

(** Shorthands for the pattern text. *)
Definition A_Z (lo hi : nat) : regex := Repeat PyStr.is_upper lo (Some hi).
Definition spaces : regex := Repeat PyStr.is_space 1 None.
Fixpoint seq (rs : list regex) : regex :=
  match rs with
  | [] => Lit ""
  | [r] => r
  | r :: rs' => Cat r (seq rs')
  end.
Fixpoint alt (rs : list regex) : regex :=
  match rs with
  | [] => Class (fun _ => false)
  | [r] => r
  | r :: rs' => Alt r (alt rs')
  end.

End Re.

(** ** [src/rag/retriever.py]: symbol extraction and context selection *)

Module Retriever.
Import Re.

(** *** [StockRAGRetriever._extract_symbol_from_query] *)

(** [r'\b([A-Z]{1,5})\b(?:\s+stock|\s+shares?|\s+company)?'] *)
Definition pattern1 : regex :=
  seq [Boundary; Group (A_Z 1 5); Boundary;
       Opt (alt [Cat spaces (Lit "stock");
                 seq [spaces; Lit "share"; Opt (Lit "s")];
                 Cat spaces (Lit "company")])].

(** [r'\$([A-Z]{1,5})\b'] *)
Definition pattern2 : regex :=
  seq [Lit "$"; Group (A_Z 1 5); Boundary].

(** [r'\b([A-Z]{1,5})\s+(?:stock|shares?|company|corp|inc)\b'] *)
Definition pattern3 : regex :=
  seq [Boundary; Group (A_Z 1 5); spaces;
       alt [Lit "stock"; Cat (Lit "share") (Opt (Lit "s")); Lit "company";
            Lit "corp"; Lit "inc"];
       Boundary].

Definition patterns : list regex := [pattern1; pattern2; pattern3].

(** [1 <= len(match) <= 5 and match.isalpha()] *)
Definition looks_like_symbol (m : string) : bool :=
  (1 <=? String.length m)%nat && (String.length m <=? 5)%nat && PyStr.isalpha m.

(** The loop over [patterns]: the first pattern that yields a match which
    looks like a symbol decides. *)
Fixpoint first_symbol (ps : list regex) (text : string) : option string :=
  match ps with
  | [] => None
  | p :: ps' =>
      match List.find looks_like_symbol (findall p text) with
      | Some m => Some m
      | None => first_symbol ps' text
      end
  end.

(** The pattern-matching stage, on [query.upper()]. *)
Definition symbol_by_pattern (query : string) : option string :=
  first_symbol patterns (PyStr.upper query).

(** [StockRAGRetriever._extract_company_keywords] *)
Definition stop_words : list string :=
  ["stock"; "share"; "shares"; "company"; "corp"; "corporation"; "inc"; "ltd";
   "price"; "performance"; "analysis"; "recent"; "latest"; "current";
   "tell"; "me"; "about"; "what"; "how"; "is"; "the"; "a"; "an"; "and"; "or"].

Definition _extract_company_keywords (query : string) : string :=
  let words := PyStr.split (PyStr.lower query) in
  let keywords :=
    filter (fun word => ¬ (word ∈ stop_words) ∧ (2 < String.length word)%nat) words in
  PyStr.join " " (take 3 keywords).

(** One hit of [stock_data_processor.search_company]; only its symbol is read. *)
Record search_hit := { hit_symbol : option string }.

(** The company search is a collaborator of the retriever. *)
Definition company_search := string -> result (option (list search_hit)).

Definition _extract_symbol_from_query (search_company : company_search)
    (query : string) : result (option string) :=
  match symbol_by_pattern query with
  | Some m => Ret (Some m)
  | None =>
      let company_keywords := _extract_company_keywords query in
      if String.eqb company_keywords "" then Ret None
      else
        rbind (search_company company_keywords) (fun search_results =>
          match search_results with
          | Some (hit :: _) => Ret (hit_symbol hit)
          | _ => Ret None
          end)
  end.

(** *** [StockRAGRetriever._select_best_context] *)

(** A context chunk: the keys the selector reads, each possibly missing. *)
Record chunk := Chunk {
  text : option string;            (* chunk.get("text", "") *)
  metadata_type : option string;   (* chunk.get("metadata", {}).get("type", "unknown") *)
  score : option float;            (* chunk.get("score", 0) *)
  source : string
}.

Definition score_key (x : chunk) : float := default 0%float (score x).

(** [sorted(context_chunks, key=..., reverse=True)]: descending and
    stable, chunks of equal score keep their order. *)
Fixpoint insert_desc (x : chunk) (l : list chunk) : list chunk :=
  match l with
  | [] => [x]
  | y :: l' =>
      if PrimFloat.ltb (score_key x) (score_key y)
      then y :: insert_desc x l'
      else x :: y :: l'
  end.

Definition sorted_by_score (l : list chunk) : list chunk :=
  foldr insert_desc [] l.

Record selection := Selection {
  selected : list chunk;
  total_length : Z;
  seen_types : gset string
}.

Definition chunk_length (c : chunk) : Z :=
  Z.of_nat (String.length (default "" (text c))).

(** [chunk.get("metadata", {}).get("type", "unknown")] *)
Definition chunk_type (c : chunk) : string := default "unknown" (metadata_type c).

(** [chunk.get("score", 0) - type_penalty] *)
Definition adjusted_score (c : chunk) (st : selection) : float :=
  let type_penalty :=
    if bool_decide (chunk_type c ∈ seen_types st) then 0.1%float else 0%float in
  (score_key c - type_penalty)%float.

(** [selected.append(chunk); total_length += chunk_length; seen_types.add(chunk_type)] *)
Definition accept (c : chunk) (st : selection) : selection :=
  Selection (selected st ++ [c])
            (total_length st + chunk_length c)
            ({[chunk_type c]} ∪ seen_types st).

(** [len(selected) >= 8 or total_length > max_length * 0.8] *)
Definition enough (max_length : Z) (st : selection) : bool :=
  (8 <=? length (selected st))%nat
  || PyFloat.int_gt (total_length st) (PyFloat.of_int max_length * 0.8)%float.

(** The body of [for chunk in sorted_chunks]. *)
Fixpoint select_loop (sorted_chunks : list chunk) (max_length : Z)
    (st : selection) : list chunk :=
  match sorted_chunks with
  | [] => selected st
  | c :: later =>
      if (max_length <? total_length st + chunk_length c)%Z
      then select_loop later max_length st
      else if PrimFloat.ltb 0.6 (adjusted_score c st)
      then
        let st' := accept c st in
        if enough max_length st' then selected st'
        else select_loop later max_length st'
      else select_loop later max_length st
  end.

Definition _select_best_context (context_chunks : list chunk) (query : string)
    (max_length : Z) : list chunk :=
  match context_chunks with
  | [] => []
  | _ => select_loop (sorted_by_score context_chunks) max_length (Selection [] 0 ∅)
  end.

End Retriever.

(** ** [agent_fin/core/agents/master_agent.py]: the same extraction with a
    stop-list *)

Module MasterAgent.
Import Re.

(** [r'\b([A-Z]{1,5})\b(?:\s+(?:stock|shares?|company|corp))?'] *)
Definition pattern1 : regex :=
  seq [Boundary; Group (A_Z 1 5); Boundary;
       Opt (Cat spaces
                (alt [Lit "stock"; Cat (Lit "share") (Opt (Lit "s"));
                      Lit "company"; Lit "corp"]))].

(** [r'\$([A-Z]{1,5})\b'] *)
Definition pattern2 : regex :=
  seq [Lit "$"; Group (A_Z 1 5); Boundary].

(** [r'(?:ticker|symbol):\s*([A-Z]{1,5})'] *)
Definition pattern3 : regex :=
  seq [alt [Lit "ticker"; Lit "symbol"]; Lit ":";
       Repeat PyStr.is_space 0 None; Group (A_Z 1 5)].

Definition patterns : list regex := [pattern1; pattern2; pattern3].

Definition excluded_words : list string :=
  ["THE"; "AND"; "FOR"; "ARE"; "BUT"; "NOT"; "YOU"; "ALL"; "CAN"; "HAD";
   "HER"; "WAS"; "ONE"; "OUR"; "OUT"; "DAY"; "GET"; "HAS"; "HIM"; "HIS";
   "HOW"; "MAN"; "NEW"; "NOW"; "OLD"; "SEE"; "TWO"; "WHO"; "BOY"; "DID";
   "ITS"; "LET"; "PUT"; "SAY"; "SHE"; "TOO"; "USE"].

Definition accepted (m : string) : bool :=
  Retriever.looks_like_symbol m && bool_decide (m ∉ excluded_words).

Fixpoint first_symbol (ps : list regex) (text : string) : option string :=
  match ps with
  | [] => None
  | p :: ps' =>
      match List.find accepted (findall p text) with
      | Some m => Some m
      | None => first_symbol ps' text
      end
  end.

Definition _extract_symbol_from_query (query : string) : option string :=
  first_symbol patterns (PyStr.upper query).

End MasterAgent.

(** ** The records exchanged between the components

    A dictionary produced by a collector is a record whose fields are the
    keys the engine reads; a field is [None] when the key is missing.  A
    category value that is present ([Some]) stands for a non-empty
    dictionary, which Python treats as true. *)

Module Data.

Record article := Article {
  title : option string;
  link : option string;
  published : option string;
  published_date : option string;
  publisher : option string;
  summary : option string;
  article_source : option string
}.

Record quote := Quote {
  quote_symbol : option string;
  price : option float;
  quote_source : option string
}.

Record company_info := CompanyInfo {
  name : option string;
  description : option string;
  sector : option string;
  industry : option string;
  market_cap : option Z;
  employees : option Z;
  company_source : option string
}.

Record bar := Bar {
  date : option string;
  close : option float
}.

Record historical_info := HistoricalInfo {
  data : option (list bar);
  historical_source : option string
}.

Record key_metric := KeyMetric {
  pe_ratio : option float;
  debt_to_equity : option float;
  roe : option float
}.

(** What the key-metrics collector returns: [{"key_metrics": [...], ...}]. *)
Record metrics_report := MetricsReport {
  metrics_list : option (list key_metric)
}.

Record financial_info := FinancialInfo {
  key_metrics : option metrics_report;
  financial_ratios : option string;
  financial_statements : option string;
  earnings : option string;
  financial_source : option string
}.

Record recommendation := Recommendation {
  to_grade : option string
}.

Record recommendations_report := RecommendationsReport {
  recommendations_list : option (list recommendation)
}.

Record analyst_info := AnalystInfo {
  recommendations : option recommendations_report;
  estimates : option string;
  earnings_calendar : option string;
  analyst_source : option string
}.

(** The comprehensive stock record. *)
Record company_data := CompanyData {
  symbol : string;
  timestamp : string;
  quote_data : option quote;
  company : option company_info;
  historical : option historical_info;
  financial : option financial_info;
  news : option (list article);
  analyst : option analyst_info;
  sources_used : list string
}.

End Data.

(** ** [_deduplicate_news]

    The function is defined twice with the same text, in
    [StockDataProcessor] and in [NewsWebScraper]. *)

Module NewsDedup.
Import Data.

(** [article.get("title", "").lower().strip()] *)
Definition normalized_title (a : article) : string :=
  PyStr.strip (PyStr.lower (default "" (title a))).

(** [set(title.split())] *)
Definition word_set (t : string) : gset string := list_to_set (PyStr.split t).

(** [len(title_words & seen_words) / max(len(title_words), len(seen_words))] *)
Definition overlap (title_words seen_words : gset string) : result float :=
  PyFloat.int_truediv (Z.of_nat (size (title_words ∩ seen_words)))
                      (Z.of_nat (Nat.max (size title_words) (size seen_words))).

(** The inner loop [for seen_title in seen_titles]. *)
Fixpoint is_duplicate (title_words : gset string) (seen_titles : list string)
    : result bool :=
  match seen_titles with
  | [] => Ret false
  | seen_title :: later =>
      rbind (overlap title_words (word_set seen_title)) (fun ratio =>
        if PrimFloat.ltb 0.7 ratio then Ret true
        else is_duplicate title_words later)
  end.

(** The outer loop [for article in news_list]; [seen_titles] is a set,
    visited in the order of its elements. *)
Fixpoint dedup_loop (news_list : list article) (unique_news : list article)
    (seen_titles : gset string) : result (list article) :=
  match news_list with
  | [] => Ret unique_news
  | a :: later =>
      let t := normalized_title a in
      if String.eqb t "" then dedup_loop later unique_news seen_titles
      else
        rbind (is_duplicate (word_set t) (elements seen_titles)) (fun dup =>
          if dup then dedup_loop later unique_news seen_titles
          else dedup_loop later (unique_news ++ [a]) ({[t]} ∪ seen_titles))
  end.

Definition _deduplicate_news (news_list : list article) : result (list article) :=
  dedup_loop news_list [] ∅.

(** The test of the inner loop as a total function, for word sets that are
    not both empty. *)
Definition similar (t seen_title : string) : bool :=
  let a := word_set t in
  let b := word_set seen_title in
  PrimFloat.ltb 0.7
    (PyFloat.of_int (Z.of_nat (size (a ∩ b)))
     / PyFloat.of_int (Z.of_nat (Nat.max (size a) (size b))))%float.

(** Whether an article is kept after the articles [kept] were accepted. *)
Definition keeps (kept : list article) (a : article) : bool :=
  negb (String.eqb (normalized_title a) "")
  && negb (existsb (fun b => similar (normalized_title a) (normalized_title b)) kept).

End NewsDedup.

(** ** Format specifications of f-strings *)

Module PyFormat.

Definition two_digits (n : Z) : string :=
  (if (n <? 10)%Z then "0" else "") ++ pretty n.

(** [m * 2^e * 100] rounded to an integer, ties to even. *)
Definition hundredths (m : positive) (e : Z) : Z :=
  let n := (Z.pos m * 100)%Z in
  if (0 <=? e)%Z then (n * 2 ^ e)%Z
  else
    let d := (2 ^ (- e))%Z in
    let q := (n / d)%Z in
    let r := (n mod d)%Z in
    if (2 * r <? d)%Z then q
    else if (d <? 2 * r)%Z then (q + 1)%Z
    else if Z.even q then q else (q + 1)%Z.

(** [format(x, '.2f')], and [format(x, '+.2f')] when [plus] is set: the
    decimal expansion of the binary value, correctly rounded. *)
Definition fixed2 (plus : bool) (x : float) : string :=
  let sign (neg : bool) := if neg then "-" else if plus then "+" else "" in
  match Prim2SF x with
  | S754_nan => sign false ++ "nan"
  | S754_infinity neg => sign neg ++ "inf"
  | S754_zero neg => sign neg ++ "0.00"
  | S754_finite neg m e =>
      let n := hundredths m e in
      sign neg ++ pretty (n / 100)%Z ++ "." ++ two_digits (n mod 100)%Z
  end.

(** [format(x, '.2%')] *)
Definition percent2 (x : float) : string :=
  fixed2 false (x * 100)%float ++ "%".

(** Digits, least significant first, with a comma after every third. *)
Fixpoint group3 (rev_digits : list ascii) (count : nat) : list ascii :=
  match rev_digits with
  | [] => []
  | d :: ds =>
      if (count =? 3)%nat then ","%char :: d :: group3 ds 1
      else d :: group3 ds (S count)
  end.

(** [format(n, ',')] for an integer. *)
Definition comma (n : Z) : string :=
  (if (n <? 0)%Z then "-" else "")
  ++ PyStr.str (rev (group3 (rev (PyStr.chars (pretty (Z.abs n)))) 0)).

End PyFormat.

(** ** [agent_fin/core/vector_db/faiss_manager.py]: [FAISSVectorDB] *)

Module VectorDB.

(** An entry of [documents_to_add], stored as is in [self.metadata]. *)
Record document := Document {
  text : string;
  type : string;
  symbol : string;
  timestamp : string;
  article_date : option string;
  source : option string
}.

Definition vector := list float.

(** What the class takes from outside: the configuration, the embedding
    provider (its answer may depend on the calls made before), the clock,
    and the numerical routines of numpy and faiss. *)
Record env := Env {
  dimension : nat;
  get_embeddings : list (list string) -> list string -> option (list vector);
  now : nat -> string;
  normalize_L2 : vector -> vector;
  knn : list vector -> list vector -> nat -> result (list (float * Z));
  index_search : list vector -> list vector -> nat -> result (list (float * Z))
}.

(** The object's attributes ([index] holds the rows of the flat index, so
    that [index.ntotal] is its length), and the effects on the outside
    that the claims speak of: the texts sent to the embedding provider,
    the clock readings, the rebuild tasks handed to the event loop. *)
Record state := State {
  index : list vector;
  documents : list string;
  metadata : list document;
  company_index : gmap string (list nat);
  embedding_calls : list (list string);
  clock : nat;
  rebuild_tasks : nat
}.

Definition M (A : Type) : Type := state -> result A * state.

Definition ret {A} (a : A) : M A := fun s => (Ret a, s).
Definition raise {A} (e : exn) : M A := fun s => (Raise e, s).
Definition lift {A} (r : result A) : M A := fun s => (r, s).
Definition bind {A B} (m : M A) (f : A -> M B) : M B :=
  fun s => match m s with
           | (Ret a, s') => f a s'
           | (Raise e, s') => (Raise e, s')
           end.
Definition try_except {A} (body : M A) (handler : exn -> M A) : M A :=
  fun s => match body s with
           | (Ret a, s') => (Ret a, s')
           | (Raise e, s') => handler e s'
           end.
Definition get : M state := fun s => (Ret s, s).
Definition put (s : state) : M unit := fun _ => (Ret tt, s).

Notation "'do' x <- m ; k" := (bind m (fun x => k))
  (at level 10, x name, m at level 100, k at level 200).

(** [datetime.now().isoformat()] *)
Definition isoformat_now (e : env) : M string :=
  fun s => (Ret (now e (clock s)),
            State (index s) (documents s) (metadata s) (company_index s)
                  (embedding_calls s) (S (clock s)) (rebuild_tasks s)).

(** [await embedding_manager.get_embeddings(texts)] *)
Definition call_embeddings (e : env) (texts : list string) : M (option (list vector)) :=
  fun s => (Ret (get_embeddings e (embedding_calls s) texts),
            State (index s) (documents s) (metadata s) (company_index s)
                  (embedding_calls s ++ [texts])%list (clock s) (rebuild_tasks s)).

(** *** Formatters *)

Definition truthy_str (o : option string) : option string :=
  match o with
  | Some s => if String.eqb s "" then None else Some s
  | None => None
  end.
Definition truthy_int (o : option Z) : option Z :=
  match o with
  | Some n => if (n =? 0)%Z then None else Some n
  | None => None
  end.
Definition truthy_float (o : option float) : option float :=
  match o with
  | Some x => if PyFloat.truthy x then Some x else None
  | None => None
  end.

(** [parts.append(label + value)] when the value is present and true. *)
Definition part {A} (label : string) (show : A -> string) (o : option A) : list string :=
  match o with
  | Some v => [label ++ show v]
  | None => []
  end.

Definition _format_company_overview (symbol : string) (company_info : Data.company_info)
    : string :=
  let parts := concat
    [ ["Company: " ++ default symbol (Data.name company_info) ++ " (" ++ symbol ++ ")"];
      part "Description: " id (truthy_str (Data.description company_info));
      part "Sector: " id (truthy_str (Data.sector company_info));
      part "Industry: " id (truthy_str (Data.industry company_info));
      part "Market Cap: $" PyFormat.comma (truthy_int (Data.market_cap company_info));
      part "Employees: " PyFormat.comma (truthy_int (Data.employees company_info)) ] in
  PyStr.join " | " parts.

Definition _format_financial_data (symbol : string) (financial_info : Data.financial_info)
    : string :=
  let parts := concat
    [ ["Financial Data for " ++ symbol];
      match Data.key_metrics financial_info with
      | Some report =>
          match default [] (Data.metrics_list report) with
          | latest :: _ => concat
              [ part "P/E Ratio: " (PyFormat.fixed2 false)
                     (truthy_float (Data.pe_ratio latest));
                part "Debt-to-Equity: " (PyFormat.fixed2 false)
                     (truthy_float (Data.debt_to_equity latest));
                part "ROE: " PyFormat.percent2 (truthy_float (Data.roe latest)) ]
          | [] => []
          end
      | None => []
      end ] in
  PyStr.join " | " parts.

(** [[d["close"] for d in recent_data if d.get("close")]] *)
Definition closing_prices (recent_data : list Data.bar) : list float :=
  omap (fun d => truthy_float (Data.close d)) recent_data.

Definition _format_historical_data (symbol : string)
    (historical_info : Data.historical_info) : result string :=
  match default [] (Data.data historical_info) with
  | [] => Ret ("Historical data for " ++ symbol)
  | data =>
      let recent_data := take 30 data in
      let prices := closing_prices recent_data in
      match prices with
      | current_price :: _ :: _ =>
          let month_ago_price := List.last prices current_price in
          rbind (PyFloat.truediv (current_price - month_ago_price)%float month_ago_price)
            (fun quotient =>
               let change_percent := (quotient * 100)%float in
               Ret ("Historical Performance for " ++ symbol
                    ++ ": Current $" ++ PyFormat.fixed2 false current_price
                    ++ ", 30-day change: " ++ PyFormat.fixed2 true change_percent ++ "%"))
      | _ => Ret ("Historical data for " ++ symbol)
      end
  end.

Definition _format_news_article (symbol : string) (article : Data.article) : string :=
  let parts := concat
    [ ["News for " ++ symbol];
      part "Title: " id (truthy_str (Data.title article));
      part "Summary: " id (truthy_str (Data.summary article));
      part "Published: " id (truthy_str (Data.published article));
      part "Source: " id (truthy_str (Data.publisher article)) ] in
  PyStr.join " | " parts.

Definition _format_analyst_data (symbol : string) (analyst_info : Data.analyst_info)
    : string :=
  let parts := concat
    [ ["Analyst Data for " ++ symbol];
      match Data.recommendations analyst_info with
      | Some report =>
          let recent_recs := take 5 (default [] (Data.recommendations_list report)) in
          let rec_summary :=
            PyStr.join ", " (omap (fun r => truthy_str (Data.to_grade r)) recent_recs) in
          part "Recent Recommendations: " id (truthy_str (Some rec_summary))
      | None => []
      end ] in
  PyStr.join " | " parts.

(** *** Ingestion *)

(** A two-dimensional numpy array: its rows and the length they share. *)
Record array := Array {
  rows : list vector;
  width : nat
}.

Definition same_width (embeddings : list vector) : bool :=
  match embeddings with
  | [] => true
  | r :: rs => forallb (fun r' => (length r' =? length r)%nat) rs
  end.

(** [np.array(embeddings, dtype=np.float32)]: rows of unequal length are
    refused. *)
Definition np_array (embeddings : list vector) : result array :=
  if same_width embeddings
  then Ret (Array embeddings (length (hd [] embeddings)))
  else Raise ValueError.

(** [faiss.normalize_L2(a)]: each row is scaled, the shape stays. *)
Definition faiss_normalize_L2 (e : env) (a : array) : array :=
  Array (map (normalize_L2 e) (rows a)) (width a).

(** [np.array] followed by [faiss.normalize_L2]. *)
Definition normalized_array (e : env) (embeddings : list vector) : result array :=
  rbind (np_array embeddings) (fun a => Ret (faiss_normalize_L2 e a)).

(** [index.add(a)]: the rows must have the dimension of the index. *)
Definition index_add (e : env) (a : array) (idx : list vector) : result (list vector) :=
  if (width a =? dimension e)%nat then Ret (idx ++ rows a)%list
  else Raise AssertionError.

(** One turn of [for i, doc in enumerate(documents)]. *)
Definition store_document (start_idx i : nat) (doc : document) (s : state) : state :=
  let positions := default [] (company_index s !! symbol doc) in
  State (index s)
        (documents s ++ [text doc])
        (metadata s ++ [doc])
        (<[symbol doc := (positions ++ [start_idx + i])%list]> (company_index s))
        (embedding_calls s) (clock s) (rebuild_tasks s).

Fixpoint store_documents (start_idx i : nat) (docs : list document) (s : state) : state :=
  match docs with
  | [] => s
  | doc :: later => store_documents start_idx (S i) later (store_document start_idx i doc s)
  end.

Definition set_index (idx : list vector) (s : state) : state :=
  State idx (documents s) (metadata s) (company_index s)
        (embedding_calls s) (clock s) (rebuild_tasks s).

(** [FAISSVectorDB._add_documents].  [_save_index] only writes the four
    artifacts to disk and swallows its own errors; the disk is not part
    of the state. *)
Definition _add_documents (e : env) (docs : list document) : M unit :=
  let texts := map text docs in
  do embeddings <- call_embeddings e texts;
  match embeddings with
  | None | Some [] => ret tt
  | Some embeddings =>
      do embeddings_array <- lift (normalized_array e embeddings);
      do s <- get;
      let start_idx := length (documents s) in
      do idx <- lift (index_add e embeddings_array (index s));
      put (store_documents start_idx 0 docs (set_index idx s))
  end.

(** A document stamped with the current time. *)
Definition stamped (e : env) (txt type symbol : string)
    (article_date source : option string) : M document :=
  do ts <- isoformat_now e;
  ret (Document txt type symbol ts article_date source).

Fixpoint news_documents (e : env) (symbol : string) (articles : list Data.article)
    : M (list document) :=
  match articles with
  | [] => ret []
  | article :: later =>
      let news_text := _format_news_article symbol article in
      do d <- stamped e news_text "news_article" symbol
                (Some (default "" (Data.published article)))
                (Some (default "" (Data.article_source article)));
      do ds <- news_documents e symbol later;
      ret (d :: ds)
  end.

(** The five blocks [if company_data.get(...)] of [add_company_data]; each
    gives the documents it appends to [documents_to_add]. *)
Definition overview_documents (e : env) (symbol : string)
    (company_data : Data.company_data) : M (list document) :=
  match Data.company company_data with
  | Some company_info =>
      do d <- stamped e (_format_company_overview symbol company_info)
                "company_overview" symbol None None;
      ret [d]
  | None => ret []
  end.

Definition financial_documents (e : env) (symbol : string)
    (company_data : Data.company_data) : M (list document) :=
  match Data.financial company_data with
  | Some financial_info =>
      do d <- stamped e (_format_financial_data symbol financial_info)
                "financial_data" symbol None None;
      ret [d]
  | None => ret []
  end.

Definition historical_documents (e : env) (symbol : string)
    (company_data : Data.company_data) : M (list document) :=
  match Data.historical company_data with
  | Some historical_info =>
      do historical_text <- lift (_format_historical_data symbol historical_info);
      do d <- stamped e historical_text "historical_data" symbol None None;
      ret [d]
  | None => ret []
  end.

Definition article_documents (e : env) (symbol : string)
    (company_data : Data.company_data) : M (list document) :=
  match Data.news company_data with
  | Some articles => news_documents e symbol (take 10 articles)
  | None => ret []
  end.

Definition analyst_documents (e : env) (symbol : string)
    (company_data : Data.company_data) : M (list document) :=
  match Data.analyst company_data with
  | Some analyst_info =>
      do d <- stamped e (_format_analyst_data symbol analyst_info)
                "analyst_data" symbol None None;
      ret [d]
  | None => ret []
  end.

Definition documents_of (e : env) (symbol : string) (company_data : Data.company_data)
    : M (list document) :=
  do overview <- overview_documents e symbol company_data;
  do financial <- financial_documents e symbol company_data;
  do historical <- historical_documents e symbol company_data;
  do news <- article_documents e symbol company_data;
  do analyst <- analyst_documents e symbol company_data;
  ret (overview ++ financial ++ historical ++ news ++ analyst)%list.

(** [FAISSVectorDB.add_company_data] *)
Definition add_company_data (e : env) (symbol : string)
    (company_data : Data.company_data) : M bool :=
  try_except
    (do documents_to_add <- documents_of e symbol company_data;
     match documents_to_add with
     | [] => ret false
     | _ =>
         do _ <- _add_documents e documents_to_add;
         ret true
     end)
    (fun _ => ret false).

(** *** Search *)

Record hit := Hit {
  hit_text : string;
  hit_metadata : document;
  hit_score : float;
  hit_index : nat
}.

(** [l[i]] with Python's negative indices. *)
Definition py_index {A} (l : list A) (i : Z) : result A :=
  let j := if (i <? 0)%Z then (Z.of_nat (length l) + i)%Z else i in
  if (j <? 0)%Z then Raise IndexError
  else match l !! Z.to_nat j with
       | Some x => Ret x
       | None => Raise IndexError
       end.

(** [self.index.reconstruct(idx)] *)
Definition reconstruct (idx : list vector) (i : nat) : result vector :=
  match idx !! i with
  | Some v => Ret v
  | None => Raise (RuntimeError "reconstruct")
  end.

Fixpoint collect {A B} (f : A -> result B) (l : list A) : result (list B) :=
  match l with
  | [] => Ret []
  | a :: l' => rbind (f a) (fun b => rbind (collect f l') (fun bs => Ret (b :: bs)))
  end.

(** The loop over [zip(scores[0], indices[0])] of the filtered search. *)
Fixpoint filtered_results (s : state) (candidate_indices : list nat)
    (found : list (float * Z)) : result (list hit) :=
  match found with
  | [] => Ret []
  | (score, idx) :: later =>
      if (idx <? Z.of_nat (length candidate_indices))%Z
      then
        rbind (py_index candidate_indices idx) (fun original_idx =>
        rbind (py_index (documents s) (Z.of_nat original_idx)) (fun t =>
        rbind (py_index (metadata s) (Z.of_nat original_idx)) (fun m =>
        rbind (filtered_results s candidate_indices later) (fun hs =>
        Ret (Hit t m score original_idx :: hs)))))
      else filtered_results s candidate_indices later
  end.

(** The loop of the search over the whole index. *)
Fixpoint full_results (s : state) (found : list (float * Z)) : result (list hit) :=
  match found with
  | [] => Ret []
  | (score, idx) :: later =>
      if (0 <=? idx)%Z && (idx <? Z.of_nat (length (documents s)))%Z
      then
        rbind (py_index (documents s) idx) (fun t =>
        rbind (py_index (metadata s) idx) (fun m =>
        rbind (full_results s later) (fun hs =>
        Ret (Hit t m score (Z.to_nat idx) :: hs))))
      else full_results s later
  end.

(** [FAISSVectorDB.search] *)
Definition search (e : env) (query : string) (k : nat) (symbol_filter : option string)
    : M (list hit) :=
  try_except
    (do s <- get;
     if (length (index s) =? 0)%nat then ret []
     else
       do query_embeddings <- call_embeddings e [query];
       match query_embeddings with
       | None | Some [] => ret []
       | Some query_embeddings =>
           do query_vector <- lift (normalized_array e query_embeddings);
           match truthy_str symbol_filter with
           | Some symbol_filter =>
               match default [] (company_index s !! PyStr.upper symbol_filter) with
               | [] => ret []
               | candidate_indices =>
                   do candidate_vectors <- lift (collect (reconstruct (index s)) candidate_indices);
                   do found <- lift (knn e (rows query_vector) candidate_vectors
                                        (Nat.min k (length candidate_indices)));
                   lift (filtered_results s candidate_indices found)
               end
           | None =>
               do found <- lift (index_search e (index s) (rows query_vector) k);
               lift (full_results s found)
           end
       end)
    (fun _ => ret []).

(** *** Removal *)

(** [FAISSVectorDB._create_new_index] *)
Definition _create_new_index (s : state) : state :=
  State [] [] [] ∅ (embedding_calls s) (clock s) (rebuild_tasks s).

(** The loop [for i, (doc, meta) in enumerate(zip(self.documents, self.metadata))]. *)
Fixpoint remove_loop (indices : list nat) (i : nat) (pairs : list (string * document))
    (remaining_documents : list string) (remaining_metadata : list document)
    (new_company_index : gmap string (list nat))
    : list string * list document * gmap string (list nat) :=
  match pairs with
  | [] => (remaining_documents, remaining_metadata, new_company_index)
  | (doc, meta) :: later =>
      if bool_decide (i ∈ indices)
      then remove_loop indices (S i) later
             remaining_documents remaining_metadata new_company_index
      else
        let new_idx := length remaining_documents in
        let doc_symbol := PyStr.upper (symbol meta) in
        let positions := default [] (new_company_index !! doc_symbol) in
        remove_loop indices (S i) later
          (remaining_documents ++ [doc]) (remaining_metadata ++ [meta])
          (<[doc_symbol := (positions ++ [new_idx])%list]> new_company_index)
  end.

(** [FAISSVectorDB.remove_company_data].  The method is a plain [def];
    [loop] tells whether it is called from a thread with a running event
    loop.  With one, [asyncio.create_task] hands [_rebuild_index] over to
    the loop and returns; the task is counted in [rebuild_tasks].  Without
    one, [asyncio.create_task] raises [RuntimeError] after [documents],
    [metadata] and [company_index] have been replaced, and the handler
    returns [False]. *)
Definition remove_company_data (loop : bool) (symbol : string) : M bool :=
  try_except
    (do s <- get;
     match default [] (company_index s !! PyStr.upper symbol) with
     | [] => ret false
     | indices =>
         let '(remaining_documents, remaining_metadata, new_company_index) :=
           remove_loop indices 0 (zip (documents s) (metadata s)) [] [] ∅ in
         if (length remaining_documents <? length (documents s))%nat
         then
           let s' := State (index s) remaining_documents remaining_metadata
                           new_company_index (embedding_calls s) (clock s)
                           (rebuild_tasks s) in
           match remaining_documents with
           | [] => do _ <- put (_create_new_index s'); ret true
           | _ =>
               if loop
               then
                 do _ <- put (State (index s') (documents s') (metadata s')
                                    (company_index s') (embedding_calls s') (clock s')
                                    (S (rebuild_tasks s')));
                 ret true
               else
                 do _ <- put s';
                 raise (RuntimeError "no running event loop")
           end
         else ret false
     end)
    (fun _ => ret false).

(** [FAISSVectorDB._rebuild_index], run later by the event loop.  The
    fresh, empty index is assigned to [self.index] before the embeddings are
    converted and added: when that fails, the empty index stays. *)
Definition _rebuild_index (e : env) : M unit :=
  try_except
    (do s <- get;
     match documents s with
     | [] => put (_create_new_index s)
     | docs =>
         do embeddings <- call_embeddings e docs;
         match embeddings with
         | None | Some [] => ret tt
         | Some embeddings =>
             do s <- get;
             do _ <- put (set_index [] s);
             do embeddings_array <- lift (normalized_array e embeddings);
             do s <- get;
             do idx <- lift (index_add e embeddings_array (index s));
             put (set_index idx s)
         end
     end)
    (fun _ => ret tt).

(** *** Statistics *)

Record stats := Stats {
  total_documents : nat;
  total_companies : nat;
  index_size : nat;
  stats_dimension : nat;
  companies : list string
}.

(** [FAISSVectorDB.get_stats] *)
Definition get_stats (e : env) (s : state) : stats :=
  Stats (length (documents s)) (size (company_index s)) (length (index s))
        (dimension e) (map fst (map_to_list (company_index s))).

(** *** The store invariant *)

(** [len(documents) == len(metadata) == index.count], and every position
    of the symbol index is a document index. *)
Definition consistent (s : state) : Prop :=
  length (documents s) = length (metadata s)
  ∧ length (metadata s) = length (index s)
  ∧ ∀ (sym : string) (positions : list nat) (i : nat),
      company_index s !! sym = Some positions → i ∈ positions →
      i < length (documents s).

(** *** Documents of one company *)

(** An entry of the list [get_company_documents] returns. *)
Record stored := Stored {
  stored_text : string;
  stored_metadata : document;
  stored_index : nat
}.

(** The loop [for idx in indices] of [get_company_documents]: a position
    beyond [self.documents] is skipped, [self.metadata[idx]] is read without
    a check. *)
Fixpoint documents_at (s : state) (indices : list nat) : result (list stored) :=
  match indices with
  | [] => Ret []
  | idx :: later =>
      if (idx <? length (documents s))%nat
      then
        rbind (py_index (documents s) (Z.of_nat idx)) (fun t =>
        rbind (py_index (metadata s) (Z.of_nat idx)) (fun m =>
        rbind (documents_at s later) (fun ds =>
        Ret (Stored t m idx :: ds))))
      else documents_at s later
  end.

(** [FAISSVectorDB.get_company_documents] *)
Definition get_company_documents (symbol : string) (s : state) : result (list stored) :=
  documents_at s (default [] (company_index s !! PyStr.upper symbol)).

End VectorDB.

(** ** [src/data/processors/data_processor.py]: [StockDataProcessor] *)

Module Fusion.
Import Data.

(** The calls made on the three collectors.  A call raises, returns
    nothing ([None], or an empty answer), or returns a record. *)
Record clients := Clients {
  yf_get_quote : string -> result (option quote);
  av_get_quote : string -> result (option quote);
  fmp_get_quote : string -> result (option quote);
  av_get_company_overview : string -> result (option company_info);
  yf_get_company_info : string -> result (option company_info);
  fmp_get_company_profile : string -> result (option company_info);
  yf_get_daily_data : string -> result (option historical_info);
  av_get_daily_data : string -> result (option historical_info);
  fmp_get_daily_data : string -> result (option historical_info);
  fmp_get_key_metrics : string -> result (option metrics_report);
  fmp_get_financial_ratios : string -> result (option string);
  yf_get_financial_data : string -> result (option string);
  av_get_earnings : string -> result (option string);
  yf_get_news : string -> result (option (list article));
  fmp_get_stock_news : string -> result (option (list article));
  yf_get_analyst_recommendations : string -> result (option recommendations_report);
  fmp_get_analyst_estimates : string -> result (option string);
  yf_get_earnings_calendar : string -> result (option string);
  fmp_get_earnings_calendar : string -> result (option string)
}.

(** [try: body except Exception: handler] *)
Definition try_except {A} (body : result A) (handler : exn -> result A) : result A :=
  match body with
  | Ret a => Ret a
  | Raise e => handler e
  end.

(** The loop [for source_name in sources] of the first-wins categories:
    return the first answer that is true, skip a source that raises. *)
Fixpoint first_available {A} (calls : list (result (option A))) : result (option A) :=
  match calls with
  | [] => Ret None
  | call :: later =>
      rbind (try_except (rbind call (fun answer => Ret (Some answer)))
                        (fun _ => Ret None))
        (fun outcome =>
           match outcome with
           | Some (Some v) => Ret (Some v)
           | _ => first_available later
           end)
  end.

Definition _get_quote_data (c : clients) (symbol : string) : result (option quote) :=
  first_available [yf_get_quote c symbol; av_get_quote c symbol; fmp_get_quote c symbol].

Definition _get_company_data (c : clients) (symbol : string)
    : result (option company_info) :=
  first_available [av_get_company_overview c symbol; yf_get_company_info c symbol;
                   fmp_get_company_profile c symbol].

Definition _get_historical_data (c : clients) (symbol : string)
    : result (option historical_info) :=
  first_available [yf_get_daily_data c symbol; av_get_daily_data c symbol;
                   fmp_get_daily_data c symbol].

(** [try: x = await call; if x: d[key] = x except Exception: pass] *)
Definition contribution {A} (call : result (option A)) : result (option A) :=
  try_except call (fun _ => Ret None).

Definition _get_financial_data (c : clients) (symbol : string)
    : result (option financial_info) :=
  rbind (contribution (fmp_get_key_metrics c symbol)) (fun fmp_metrics =>
  rbind (contribution (fmp_get_financial_ratios c symbol)) (fun fmp_ratios =>
  rbind (contribution (yf_get_financial_data c symbol)) (fun yf_financials =>
  rbind (contribution (av_get_earnings c symbol)) (fun av_earnings =>
    match fmp_metrics, fmp_ratios, yf_financials, av_earnings with
    | None, None, None, None => Ret None
    | _, _, _, _ =>
        Ret (Some (FinancialInfo fmp_metrics fmp_ratios yf_financials av_earnings
                                 (Some "multiple")))
    end)))).

(** [x.get("published", x.get("published_date", ""))] *)
Definition published_key (x : article) : string :=
  match published x with
  | Some p => p
  | None => default "" (published_date x)
  end.

(** [unique_news.sort(key=..., reverse=True)] *)
Fixpoint insert_recent (x : article) (l : list article) : list article :=
  match l with
  | [] => [x]
  | y :: l' =>
      if String.ltb (published_key x) (published_key y)
      then y :: insert_recent x l'
      else x :: y :: l'
  end.

Definition sort_recent_first (l : list article) : list article :=
  foldr insert_recent [] l.

Definition _get_news_data (c : clients) (symbol : string)
    : result (option (list article)) :=
  rbind (contribution (yf_get_news c symbol)) (fun yf_news =>
  rbind (contribution (fmp_get_stock_news c symbol)) (fun fmp_news =>
    let all_news := (default [] yf_news ++ default [] fmp_news)%list in
    match all_news with
    | [] => Ret None
    | _ =>
        rbind (NewsDedup._deduplicate_news all_news) (fun unique_news =>
          Ret (Some (sort_recent_first unique_news)))
    end)).

Definition _get_analyst_data (c : clients) (symbol : string)
    : result (option analyst_info) :=
  rbind (contribution (yf_get_analyst_recommendations c symbol)) (fun yf_recommendations =>
  rbind (contribution (fmp_get_analyst_estimates c symbol)) (fun fmp_estimates =>
  rbind (try_except
           (rbind (yf_get_earnings_calendar c symbol) (fun yf_calendar =>
              match yf_calendar with
              | Some cal => Ret (Some cal)
              | None => fmp_get_earnings_calendar c symbol
              end))
           (fun _ => Ret None)) (fun calendar =>
    match yf_recommendations, fmp_estimates, calendar with
    | None, None, None => Ret None
    | _, _, _ =>
        Ret (Some (AnalystInfo yf_recommendations fmp_estimates calendar
                               (Some "multiple")))
    end))).

(** What [asyncio.gather(..., return_exceptions=True)] hands back for one
    task, read through [x if not isinstance(x, Exception) else None]. *)
Definition gathered {A} (task : result (option A)) : option A :=
  match task with
  | Ret v => v
  | Raise _ => None
  end.

(** [if value["source"] not in sources_used: sources_used.append(...)] *)
Definition record_source (src : option string) (used : list string) : list string :=
  match src with
  | Some s => if bool_decide (s ∈ used) then used else (used ++ [s])%list
  | None => used
  end.

(** The source named by a value of the record, if it is a dictionary with
    a ["source"] key, or a non-empty list whose first entry is one. *)
Definition first_article_source (news : option (list article)) : option string :=
  match news with
  | Some (a :: _) => article_source a
  | _ => None
  end.

(** [StockDataProcessor.get_comprehensive_stock_data]; [now] is
    [datetime.now().isoformat()]. *)
Definition get_comprehensive_stock_data (c : clients) (now symbol : string)
    : result company_data :=
  let quote_data := gathered (_get_quote_data c symbol) in
  let company_data := gathered (_get_company_data c symbol) in
  let historical_data := gathered (_get_historical_data c symbol) in
  let financial_data := gathered (_get_financial_data c symbol) in
  let news_data := gathered (_get_news_data c symbol) in
  let analyst_data := gathered (_get_analyst_data c symbol) in
  let sources :=
    [quote_data ≫= quote_source;
     company_data ≫= company_source;
     historical_data ≫= historical_source;
     financial_data ≫= financial_source;
     first_article_source news_data;
     analyst_data ≫= analyst_source] in
  Ret (CompanyData (PyStr.upper symbol) now quote_data company_data historical_data
                   financial_data news_data analyst_data
                   (foldl (fun used src => record_source src used) [] sources)).

End Fusion.

(** ** [agent_fin/core/data/scrapers/news_scraper.py]: [NewsWebScraper] *)

Module NewsScraper.
Import Data.

(** [x.get("published", "")] *)
Definition published_or_empty (x : article) : string := default "" (published x).

(** [unique_news.sort(key=lambda x: x.get("published", ""), reverse=True)]:
    descending and stable. *)
Fixpoint insert_published (x : article) (l : list article) : list article :=
  match l with
  | [] => [x]
  | y :: l' =>
      if String.ltb (published_or_empty x) (published_or_empty y)
      then y :: insert_published x l'
      else x :: y :: l'
  end.

Definition sort_published_first (l : list article) : list article :=
  foldr insert_published [] l.

(** The loop over the results of [asyncio.gather(..., return_exceptions=True)]:
    a list is appended, an exception is logged. *)
Fixpoint extend_all (results : list (result (list article))) : list article :=
  match results with
  | [] => []
  | Ret l :: later => (l ++ extend_all later)%list
  | Raise _ :: later => extend_all later
  end.

(** [NewsWebScraper.get_comprehensive_news], given what the three scrapers
    (MarketWatch, Seeking Alpha, Reuters) hand back.  The class has its own
    [_deduplicate_news], the same text as the one of the data processor. *)
Definition get_comprehensive_news (marketwatch seeking_alpha reuters : result (list article))
    : result (list article) :=
  let all_news := extend_all [marketwatch; seeking_alpha; reuters] in
  rbind (NewsDedup._deduplicate_news all_news) (fun unique_news =>
    Ret (sort_published_first unique_news)).

End NewsScraper.

(** ** [src/data/processors/data_processor.py]: [StockDataProcessor.search_company] *)

Module CompanySearch.

(** What [result.get("symbol", "")] finds: no entry, [None] (the collectors
    copy the symbol of the provider's answer with [match.get(...)]), or a
    string. *)
Inductive entry :=
| Missing
| NoneValue
| Text (s : string).

(** A search result: the keys the processor reads or writes. *)
Record found := Found {
  found_symbol : entry;
  found_name : option string;
  match_score : option float;
  found_source : option string
}.

(** The [search_symbol] call of each collector. *)
Record searchers := Searchers {
  av_search_symbol : string -> result (option (list found));
  yf_search_symbol : string -> result (option (list found));
  fmp_search_symbol : string -> result (option (list found))
}.

(** ['NoneType' object has no attribute 'upper'] *)
Definition AttributeError : exn := RuntimeError "AttributeError".

(** [result["source"] = source_name] *)
Definition tag (source_name : string) (r : found) : found :=
  Found (found_symbol r) (found_name r) (match_score r) (Some source_name).

(** The loop [for source_name, search_func in sources]: the results of a
    source are tagged and appended; a source that raises, or returns
    nothing, adds nothing. *)
Fixpoint gather (sources : list (string * result (option (list found)))) : list found :=
  match sources with
  | [] => []
  | (source_name, Ret (Some results)) :: later =>
      (map (tag source_name) results ++ gather later)%list
  | _ :: later => gather later
  end.

(** [result.get("symbol", "").upper()] *)
Definition upper_symbol (r : found) : result string :=
  match found_symbol r with
  | Missing => Ret ""
  | NoneValue => Raise AttributeError
  | Text s => Ret (PyStr.upper s)
  end.

(** The loop [for result in all_results] that fills the dictionary
    [unique_results], kept in insertion order. *)
Fixpoint unique_by_symbol (all_results : list found)
    (unique_results : list (string * found)) : result (list (string * found)) :=
  match all_results with
  | [] => Ret unique_results
  | r :: later =>
      rbind (upper_symbol r) (fun symbol =>
        if negb (String.eqb symbol "")
           && negb (bool_decide (symbol ∈ map fst unique_results))
        then unique_by_symbol later (unique_results ++ [(symbol, r)])
        else unique_by_symbol later unique_results)
  end.

(** [x.get("match_score", 0)] *)
Definition score_key (x : found) : float := default 0%float (match_score x).

(** [sorted_results.sort(key=..., reverse=True)]: descending and stable
    (for scores that are numbers, every stable sort gives this list). *)
Fixpoint insert_desc (x : found) (l : list found) : list found :=
  match l with
  | [] => [x]
  | y :: l' =>
      if PrimFloat.ltb (score_key x) (score_key y)
      then y :: insert_desc x l'
      else x :: y :: l'
  end.

Definition sorted_by_score (l : list found) : list found :=
  foldr insert_desc [] l.

Definition gathered_results (s : searchers) (query : string) : list found :=
  gather [("alpha_vantage", av_search_symbol s query);
          ("yahoo_finance", yf_search_symbol s query);
          ("financial_modeling_prep", fmp_search_symbol s query)].

(** [StockDataProcessor.search_company] *)
Definition search_company (s : searchers) (query : string)
    : result (option (list found)) :=
  match gathered_results s query with
  | [] => Ret None
  | all_results =>
      rbind (unique_by_symbol all_results []) (fun unique_results =>
        Ret (Some (sorted_by_score (map snd unique_results))))
  end.

End CompanySearch.

(** ** [src/utils/helpers.py]: [retry_on_failure], and
       [src/vector_db/embeddings.py]: [EmbeddingManager] *)

Module Embeddings.

Definition vector := VectorDB.vector.

(** The embeddings endpoint: whether a key is configured, and what
    [client.embeddings.create] hands back for an input, given the requests
    sent before (the embeddings of [response.data], or an exception). *)
Record provider := Provider {
  api_key_configured : bool;
  create : list (list string) -> list string -> result (list vector)
}.

(** What the manager does to the outside: the inputs sent to the endpoint
    and the pauses of [asyncio.sleep], in seconds.  The rate limiter only
    delays a request and is left out. *)
Record world := World {
  requests : list (list string);
  sleeps : list float
}.

Definition M (A : Type) : Type := world -> result A * world.

Definition ret {A} (a : A) : M A := fun w => (Ret a, w).
Definition lift {A} (r : result A) : M A := fun w => (r, w).
Definition bind {A B} (m : M A) (f : A -> M B) : M B :=
  fun w => match m w with
           | (Ret a, w') => f a w'
           | (Raise e, w') => (Raise e, w')
           end.
Definition try_except {A} (body : M A) (handler : exn -> M A) : M A :=
  fun w => match body w with
           | (Ret a, w') => (Ret a, w')
           | (Raise e, w') => handler e w'
           end.

(** [await asyncio.sleep(seconds)] *)
Definition sleep (seconds : float) : M unit :=
  fun w => (Ret tt, World (requests w) (sleeps w ++ [seconds])%list).

(** [await self.client.embeddings.create(model=..., input=cleaned_batch, ...)] *)
Definition create_embeddings (p : provider) (cleaned_batch : list string)
    : M (list vector) :=
  fun w => (create p (requests w) cleaned_batch,
            World (requests w ++ [cleaned_batch])%list (sleeps w)).

(** *** [retry_on_failure] *)

(** The loop [for attempt in range(max_retries)] of the wrapper, and the
    [raise last_exception] after it; with no attempt made,
    [last_exception] is [None] and [raise None] is a [TypeError]. *)
Fixpoint attempts {A} (func : M A) (delay : float) (max_retries : nat)
    (todo : list nat) (last_exception : option exn) : M A :=
  match todo with
  | [] => lift (Raise (default TypeError last_exception))
  | attempt :: later =>
      try_except func (fun e =>
        bind (if (attempt <? max_retries - 1)%nat
              then sleep (delay * PyFloat.of_int (2 ^ Z.of_nat attempt))%float
              else ret tt)
             (fun _ => attempts func delay max_retries later (Some e)))
  end.

Definition retry_on_failure {A} (max_retries : nat) (delay : float) (func : M A) : M A :=
  attempts func delay max_retries (seq 0 max_retries) None.

(** *** [EmbeddingManager] *)

Definition max_chars : Z := 8000 * 4.

(** [EmbeddingManager._clean_text] *)
Definition _clean_text (text : string) : string :=
  if String.eqb text "" then ""
  else
    let text := PyStr.join " " (PyStr.split text) in
    if (max_chars <? Z.of_nat (String.length text))%Z
    then PyStr.str (take (Z.to_nat max_chars) (PyStr.chars text)) ++ "..."
    else text.

(** [range(start, stop, step)] for a positive step, as the list of its
    values; [fuel] bounds their number. *)
Fixpoint range_from (fuel i stop step : nat) : list nat :=
  match fuel with
  | O => []
  | S fuel' => if (i <? stop)%nat then i :: range_from fuel' (i + step) stop step else []
  end.

(** [range(0, stop, step)]: a zero step is a [ValueError]. *)
Definition range (stop step : nat) : result (list nat) :=
  if (step =? 0)%nat then Raise ValueError else Ret (range_from stop 0 stop step).

(** The body of [for i in range(0, len(texts), batch_size)]. *)
Fixpoint batch_loop (p : provider) (texts : list string) (batch_size : nat)
    (starts : list nat) (all_embeddings : list vector) : M (list vector) :=
  match starts with
  | [] => ret all_embeddings
  | i :: later =>
      let batch := take batch_size (drop i texts) in
      let cleaned_batch := map _clean_text batch in
      bind (create_embeddings p cleaned_batch) (fun batch_embeddings =>
      let all_embeddings := (all_embeddings ++ batch_embeddings)%list in
      bind (if (i + batch_size <? length texts)%nat then sleep 0.1 else ret tt) (fun _ =>
      batch_loop p texts batch_size later all_embeddings))
  end.

(** The method under the decorator. *)
Definition get_embeddings_body (p : provider) (texts : list string) (batch_size : nat)
    : M (option (list vector)) :=
  if negb (api_key_configured p) then ret None
  else
    match texts with
    | [] => ret (Some [])
    | _ =>
        try_except
          (bind (lift (range (length texts) batch_size)) (fun starts =>
           bind (batch_loop p texts batch_size starts []) (fun all_embeddings =>
           ret (Some all_embeddings))))
          (fun _ => ret None)
    end.

(** [EmbeddingManager.get_embeddings], decorated with
    [@retry_on_failure(max_retries=3, delay=1.0)]. *)
Definition get_embeddings (p : provider) (texts : list string) (batch_size : nat)
    : M (option (list vector)) :=
  retry_on_failure 3 1 (get_embeddings_body p texts batch_size).

End Embeddings.

(** ** [src/rag/retriever.py]: the retriever's search of the vector store *)

Module RetrieverSearch.
Import VectorDB.

(** An entry of [enhanced_results]; of the metadata the selector reads
    the type. *)
Definition enhanced (h : hit) : Retriever.chunk :=
  Retriever.Chunk (Some (hit_text h)) (Some (type (hit_metadata h)))
                  (Some (hit_score h)) "vector_db".

(** [result["score"] > 0.7] *)
Definition high_confidence (h : hit) : bool := PrimFloat.ltb 0.7 (hit_score h).

(** [StockRAGRetriever._search_vector_db] *)
Definition _search_vector_db (e : env) (query : string) (symbol : option string)
    : M (list Retriever.chunk) :=
  try_except
    (do results <- search e query 10 symbol;
     do results <- match results, truthy_str symbol with
                   | [], Some _ => search e query 5 None
                   | _, _ => ret results
                   end;
     ret (map enhanced (filter (fun h => high_confidence h = true) results)))
    (fun _ => ret []).

End RetrieverSearch.

(** ** Keyword tests on the query: [retriever.py] and [master_agent.py] *)

Module Keywords.

(** [word in s] on strings. *)
Fixpoint contains (word s : string) : bool :=
  String.prefix word s
  || match s with
     | EmptyString => false
     | String _ s' => contains word s'
     end.

(** [any(word in s for word in words)] *)
Definition any_in (words : list string) (s : string) : bool :=
  existsb (fun word => contains word s) words.

(** [StockRAGRetriever._needs_recent_news] *)
Definition _needs_recent_news (query : string) : bool :=
  let news_keywords :=
    ["recent"; "latest"; "news"; "current"; "today"; "yesterday";
     "this week"; "this month"; "breaking"; "announcement";
     "earnings"; "report"; "update"; "development"] in
  let query_lower := PyStr.lower query in
  any_in news_keywords query_lower.

(** [if any(...): scope.append(name)] *)
Definition appended (words : list string) (query_lower name : string) : list string :=
  if any_in words query_lower then [name] else [].

(** [MasterAgent._determine_research_scope] *)
Definition _determine_research_scope (query : string) : list string :=
  let query_lower := PyStr.lower query in
  if any_in ["comprehensive"; "complete"; "full"; "detailed"] query_lower
  then ["comprehensive"]
  else
    let scope :=
      (appended ["company"; "business"; "overview"; "profile"] query_lower
                "company_overview"
       ++ appended ["financial"; "ratios"; "earnings"; "revenue"; "balance"] query_lower
                   "financial_data"
       ++ appended ["news"; "sentiment"; "recent"; "developments"] query_lower
                   "news_analysis"
       ++ appended ["analyst"; "recommendation"; "rating"; "target"] query_lower
                   "analyst_data")%list in
    match scope with
    | [] => ["comprehensive"]
    | _ => scope
    end.

(** [MasterAgent._determine_analysis_focus] *)
Definition _determine_analysis_focus (query : string) : list string :=
  let query_lower := PyStr.lower query in
  if any_in ["comprehensive"; "complete"; "full"; "detailed"] query_lower
  then ["comprehensive"]
  else
    let focus :=
      (appended ["technical"; "chart"; "price"; "trend"; "momentum"] query_lower
                "technical_analysis"
       ++ appended ["fundamental"; "valuation"; "ratios"; "financial"] query_lower
                   "fundamental_analysis"
       ++ appended ["sentiment"; "news"; "market perception"] query_lower
                   "sentiment_analysis"
       ++ appended ["risk"; "volatility"; "safety"] query_lower
                   "risk_assessment")%list in
    match focus with
    | [] => ["comprehensive"]
    | _ => focus
    end.

End Keywords.

(** * Properties *)

(** ** Symbol extraction *)

Section SymbolExtraction.

Local Open Scope nat_scope.

(** The matches of the first pattern on the two queries of the
    specification, as [re.findall] returns them. *)
Example findall_pattern1_aapl :
  Re.findall Retriever.pattern1 (PyStr.upper "What's $AAPL worth today?")
  = ["WHAT"; "S"; "AAPL"; "WORTH"; "TODAY"]%string.
Proof. vm_compute. reflexivity. Qed.

Example findall_pattern2_aapl :
  Re.findall Retriever.pattern2 (PyStr.upper "What's $AAPL worth today?")
  = ["AAPL"]%string.
Proof. vm_compute. reflexivity. Qed.

Example findall_pattern1_market :
  Re.findall Retriever.pattern1 (PyStr.upper "Tell me about the market")
  = ["TELL"; "ME"; "ABOUT"; "THE"]%string.
Proof. vm_compute. reflexivity. Qed.

(** C3 on the code.  The second pattern finds ["AAPL"] after the dollar
    sign, but it is not reached: on the uppercased query the first pattern
    matches every word of at most five letters, and the first of them is
    returned.  So "What's $AAPL worth today?" resolves to ["WHAT"], and
    "Tell me about the market" to ["TELL"], whatever the company search
    would say.  The master agent's copy of the function gives the same two
    answers; its stop-list holds neither word. *)
Theorem symbol_extraction_returns_first_short_word (search : Retriever.company_search) :
  Retriever._extract_symbol_from_query search "What's $AAPL worth today?"
  = Ret (Some "WHAT"%string)
  ∧ Retriever._extract_symbol_from_query search "Tell me about the market"
    = Ret (Some "TELL"%string)
  ∧ Re.findall Retriever.pattern1 (PyStr.upper "What's $AAPL worth today?")
    = ["WHAT"; "S"; "AAPL"; "WORTH"; "TODAY"]%string
  ∧ Re.findall Retriever.pattern2 (PyStr.upper "What's $AAPL worth today?")
    = ["AAPL"]%string
  ∧ Re.findall Retriever.pattern1 (PyStr.upper "Tell me about the market")
    = ["TELL"; "ME"; "ABOUT"; "THE"]%string
  ∧ MasterAgent._extract_symbol_from_query "What's $AAPL worth today?"
    = Some "WHAT"%string
  ∧ MasterAgent._extract_symbol_from_query "Tell me about the market"
    = Some "TELL"%string.
Proof.
  assert (H1 : Retriever.symbol_by_pattern "What's $AAPL worth today?"
               = Some "WHAT"%string) by (vm_compute; reflexivity).
  assert (H2 : Retriever.symbol_by_pattern "Tell me about the market"
               = Some "TELL"%string) by (vm_compute; reflexivity).
  split; [unfold Retriever._extract_symbol_from_query; by rewrite H1|].
  split; [unfold Retriever._extract_symbol_from_query; by rewrite H2|].
  split; [apply findall_pattern1_aapl|]. split; [apply findall_pattern2_aapl|].
  split; [apply findall_pattern1_market|].
  split; vm_compute; reflexivity.
Qed.

End SymbolExtraction.

(** ** Context selection under a budget *)

Section ContextSelection.

Import Retriever.
Local Open Scope Z_scope.

(** Cumulative text length of a list of chunks. *)
Definition cumulative_length (l : list chunk) : Z :=
  foldr (fun c n => chunk_length c + n) 0 l.

(** [total_length > max_length * 0.8] *)
Definition over_80_percent (total max_length : Z) : bool :=
  PyFloat.int_gt total (PyFloat.of_int max_length * 0.8)%float.

Lemma select_loop_cons (c : chunk) (later : list chunk) (max_length : Z) (st : selection) :
  select_loop (c :: later) max_length st =
  if max_length <? total_length st + chunk_length c
  then select_loop later max_length st
  else if PrimFloat.ltb 0.6 (adjusted_score c st)
  then if enough max_length (accept c st) then selected (accept c st)
       else select_loop later max_length (accept c st)
  else select_loop later max_length st.
Proof. reflexivity. Qed.

(** Every chunk but the first was accepted while fewer than 8 chunks were
    held and at most 80% of the budget was used. *)
Definition accepted_before_stop (max_length : Z) (l : list chunk) : Prop :=
  ∀ (p : list chunk) (x : chunk) (r : list chunk),
    l = (p ++ x :: r)%list → p ≠ [] →
    (length p < 8)%nat ∧ over_80_percent (cumulative_length p) max_length = false.

Example over_80_percent_of_2000 :
  map (fun total => over_80_percent total 2000) [1500; 1600; 1601; 2000]
  = [false; false; true; true].
Proof. vm_compute. reflexivity. Qed.

Lemma chunk_length_nonneg (c : chunk) : 0 ≤ chunk_length c.
Proof. unfold chunk_length. lia. Qed.

Lemma cumulative_length_app (l1 l2 : list chunk) :
  cumulative_length (l1 ++ l2) = cumulative_length l1 + cumulative_length l2.
Proof. induction l1 as [|c l1 IH]; simpl; [done|]. rewrite IH. lia. Qed.

Lemma cumulative_length_nonneg (l : list chunk) : 0 ≤ cumulative_length l.
Proof.
  induction l as [|c l IH]; simpl; [done|]. pose proof (chunk_length_nonneg c). lia.
Qed.

Lemma cumulative_length_constant (l : list chunk) (n : Z) :
  Forall (fun c => chunk_length c = n) l →
  cumulative_length l = n * Z.of_nat (length l).
Proof.
  induction 1 as [|c l Hc _ IH]; simpl; [lia|]. rewrite IH, Hc. lia.
Qed.

Lemma accepted_before_stop_snoc (max_length : Z) (l : list chunk) (c : chunk) :
  accepted_before_stop max_length l →
  (l ≠ [] → (length l < 8)%nat
            ∧ over_80_percent (cumulative_length l) max_length = false) →
  accepted_before_stop max_length (l ++ [c]).
Proof.
  intros Hl Hlast p x r Heq Hp.
  destruct r as [|y r' _] using rev_ind.
  - apply app_inj_tail in Heq as [-> _]. auto.
  - rewrite app_comm_cons, app_assoc in Heq.
    apply app_inj_tail in Heq as [-> _]. eapply Hl; eauto.
Qed.

(** State of the loop between two chunks. *)
Definition loop_invariant (max_length : Z) (st : selection) : Prop :=
  total_length st = cumulative_length (selected st)
  ∧ (selected st = [] ∨ cumulative_length (selected st) ≤ max_length)
  ∧ accepted_before_stop max_length (selected st)
  ∧ (selected st ≠ [] →
     (length (selected st) < 8)%nat
     ∧ over_80_percent (cumulative_length (selected st)) max_length = false).

Lemma select_loop_bounds (sorted_chunks : list chunk) (max_length : Z) (st : selection) :
  loop_invariant max_length st →
  let sel := select_loop sorted_chunks max_length st in
  (sel = [] ∨ cumulative_length sel ≤ max_length)
  ∧ (length sel ≤ 8)%nat
  ∧ accepted_before_stop max_length sel
  ∧ ∃ more, sel = (selected st ++ more)%list ∧ sublist more sorted_chunks.
Proof.
  revert st. induction sorted_chunks as [|c later IH]; intros st Hinv.
  - simpl. destruct Hinv as (Htot & Hmax & Hpre & Hlast).
    split; [exact Hmax|]. split; [|split; [exact Hpre|]].
    + destruct (selected st) as [|x l] eqn:E; [simpl; lia|].
      destruct Hlast as [Hlen _]; [done|]. lia.
    + exists []. by rewrite app_nil_r.
  - rewrite select_loop_cons.
    assert (Hskip :
      let sel := select_loop later max_length st in
      (sel = [] ∨ cumulative_length sel ≤ max_length)
      ∧ (length sel ≤ 8)%nat
      ∧ accepted_before_stop max_length sel
      ∧ ∃ more, sel = (selected st ++ more)%list ∧ sublist more (c :: later)).
    { destruct (IH st Hinv) as (H1 & H2 & H3 & more & H4 & H5).
      split; [exact H1|]. split; [exact H2|]. split; [exact H3|].
      exists more. split; [done|]. by apply sublist_cons. }
    destruct (max_length <? total_length st + chunk_length c) eqn:Hfit; [exact Hskip|].
    destruct (PrimFloat.ltb _ _); [|exact Hskip].
    apply Z.ltb_ge in Hfit.
    destruct Hinv as (Htot & Hmax & Hpre & Hlast).
    set (st' := accept c st).
    assert (Hsel' : selected st' = (selected st ++ [c])%list) by reflexivity.
    assert (Htot' : total_length st' = cumulative_length (selected st')).
    { rewrite Hsel'. simpl. rewrite cumulative_length_app, Htot. simpl. lia. }
    assert (Hmax' : cumulative_length (selected st') ≤ max_length).
    { rewrite <- Htot'. simpl. lia. }
    assert (Hpre' : accepted_before_stop max_length (selected st')).
    { rewrite Hsel'. by apply accepted_before_stop_snoc. }
    assert (Hlen' : (length (selected st') ≤ 8)%nat).
    { rewrite Hsel', length_app. simpl.
      destruct (selected st) as [|x l] eqn:E; [simpl; lia|].
      destruct Hlast as [Hlen _]; [done|]. simpl in *. lia. }
    destruct (enough max_length st') eqn:Hstop.
    + split; [by right|]. split; [exact Hlen'|]. split; [exact Hpre'|].
      exists [c]. split; [done|]. apply sublist_skip, sublist_nil_l.
    + apply orb_false_elim in Hstop as [Hcount Hover].
      apply Nat.leb_gt in Hcount.
      assert (Hinv' : loop_invariant max_length st').
      { split; [exact Htot'|]. split; [by right|]. split; [exact Hpre'|].
        intros _. split; [exact Hcount|]. rewrite <- Htot'. exact Hover. }
      destruct (IH st' Hinv') as (H1 & H2 & H3 & more & H4 & H5).
      split; [exact H1|]. split; [exact H2|]. split; [exact H3|].
      exists (c :: more). split.
      * rewrite H4, Hsel'. by rewrite <- app_assoc.
      * by apply sublist_skip.
Qed.

Lemma insert_desc_perm (x : chunk) (l : list chunk) : insert_desc x l ≡ₚ x :: l.
Proof.
  induction l as [|y l IH]; simpl; [done|].
  destruct (PrimFloat.ltb _ _); [|done].
  rewrite IH. apply Permutation_swap.
Qed.

Lemma sorted_by_score_perm (l : list chunk) : sorted_by_score l ≡ₚ l.
Proof.
  induction l as [|x l IH]; simpl; [done|].
  unfold sorted_by_score in *. simpl. rewrite insert_desc_perm. by rewrite IH.
Qed.

Lemma select_best_context_bounds (context_chunks : list chunk) (query : string)
    (max_length : Z) :
  let sel := _select_best_context context_chunks query max_length in
  (sel = [] ∨ cumulative_length sel ≤ max_length)
  ∧ (length sel ≤ 8)%nat
  ∧ accepted_before_stop max_length sel
  ∧ sublist sel (sorted_by_score context_chunks).
Proof.
  unfold _select_best_context.
  destruct context_chunks as [|c l] eqn:E.
  - simpl. split; [by left|]. split; [lia|]. split; [|done].
    intros p x r Heq. by destruct p.
  - rewrite <- E.
    assert (Hinv : loop_invariant max_length (Selection [] 0 ∅)).
    { split; [done|]. split; [by left|]. split; [|done].
      intros p x r Heq. by destruct p. }
    destruct (select_loop_bounds (sorted_by_score context_chunks) max_length _ Hinv)
      as (H1 & H2 & H3 & more & H4 & H5).
    simpl in H4. rewrite H4 in *. auto.
Qed.

(** Twenty chunks of 500 characters with scores above the threshold. *)
Definition twenty_chunks : list chunk :=
  replicate 20 (Chunk (Some (PyStr.str (replicate 500 "x"%char)))
                      (Some "news_article"%string) (Some 0.9%float) "vector_db").

Example twenty_chunks_selected :
  length (_select_best_context twenty_chunks "q" 2000) = 4%nat.
Proof. vm_compute. reflexivity. Qed.

(** C4: for every list of chunks and every budget, the selection has
    cumulative text length at most the budget (it is empty when nothing
    fits), holds at most 8 chunks, every chunk after the first was accepted
    while fewer than 8 chunks were held and no more than 80% of the budget
    was used, and the selection is taken in order from the chunks sorted by
    score; 20 chunks of length 500 under a budget of 2000 give at most 4. *)
Theorem select_best_context_budget :
  (∀ (context_chunks : list chunk) (query : string) (max_length : Z),
     let sel := _select_best_context context_chunks query max_length in
     cumulative_length sel ≤ Z.max 0 max_length
     ∧ (length sel ≤ 8)%nat
     ∧ accepted_before_stop max_length sel
     ∧ sublist sel (sorted_by_score context_chunks)
     ∧ sorted_by_score context_chunks ≡ₚ context_chunks)
  ∧ (∀ (context_chunks : list chunk) (query : string),
       length context_chunks = 20%nat →
       Forall (fun c => chunk_length c = 500) context_chunks →
       (length (_select_best_context context_chunks query 2000) ≤ 4)%nat).
Proof.
  split.
  - intros cs q m.
    destruct (select_best_context_bounds cs q m) as (H1 & H2 & H3 & H4).
    split; [destruct H1 as [-> | H1]; simpl; lia|].
    split; [exact H2|]. split; [exact H3|]. split; [exact H4|].
    apply sorted_by_score_perm.
  - intros cs q _ Hall.
    destruct (select_best_context_bounds cs q 2000) as (H1 & _ & _ & H4).
    assert (Hsel : Forall (fun c => chunk_length c = 500)
                          (_select_best_context cs q 2000)).
    { apply Forall_forall. intros c Hc.
      apply (sublist_subseteq _ _ H4) in Hc.
      rewrite sorted_by_score_perm in Hc.
      by apply (proj1 (Forall_forall _ _) Hall). }
    destruct H1 as [-> | H1]; [simpl; lia|].
    rewrite (cumulative_length_constant _ 500 Hsel) in H1. lia.
Qed.

(** The example of C4 on twenty concrete chunks. *)
Lemma select_best_context_budget_witness :
  (length (_select_best_context twenty_chunks "q" 2000) ≤ 4)%nat.
Proof.
  apply (proj2 select_best_context_budget twenty_chunks "q"%string).
  - reflexivity.
  - vm_compute. repeat constructor.
Defined.

End ContextSelection.

(** ** News deduplication *)

Section Deduplication.

Import Data NewsDedup.

(** *** The division of the overlap test never fails *)

Lemma chars_str (l : list ascii) : PyStr.chars (PyStr.str l) = l.
Proof. apply list_ascii_of_string_of_list_ascii. Qed.

Lemma str_chars (s : string) : PyStr.str (PyStr.chars s) = s.
Proof. apply string_of_list_ascii_of_string. Qed.

Lemma lstrip_head (cs : list ascii) :
  match PyStr.lstrip cs with
  | [] => True
  | c :: _ => PyStr.is_space c = false
  end.
Proof.
  induction cs as [|c cs IH]; simpl; [done|].
  destruct (PyStr.is_space c) eqn:E; [exact IH|exact E].
Qed.

Lemma split_from_last_word (w l : list ascii) (c : ascii) :
  PyStr.is_space c = false → PyStr.split_from w (l ++ [c]) ≠ [].
Proof.
  intros Hc. revert w. induction l as [|a l IH]; intros w; simpl.
  - rewrite Hc. simpl. done.
  - destruct (PyStr.is_space a); [destruct w; [apply IH|done]|apply IH].
Qed.

(** A stripped title that is not empty has at least one word. *)
Lemma split_strip_nonempty (s : string) :
  PyStr.strip s ≠ ""%string → PyStr.split (PyStr.strip s) ≠ [].
Proof.
  unfold PyStr.strip, PyStr.split. rewrite chars_str.
  pose proof (lstrip_head (rev (PyStr.lstrip (PyStr.chars s)))) as Hhead.
  destruct (PyStr.lstrip (rev (PyStr.lstrip (PyStr.chars s)))) as [|c l]; [done|].
  intros _. simpl. by apply split_from_last_word.
Qed.

Lemma word_set_nonempty (a : article) :
  normalized_title a ≠ ""%string → size (word_set (normalized_title a)) ≠ 0.
Proof.
  intros Ht. apply split_strip_nonempty in Ht.
  unfold word_set. fold (normalized_title a) in Ht.
  destruct (PyStr.split (normalized_title a)) as [|w ws]; [done|].
  apply size_non_empty_iff. intros Hempty.
  assert (w ∈ (list_to_set (w :: ws) : gset string)) as Hw by set_solver.
  rewrite Hempty in Hw. set_solver.
Qed.

Lemma overlap_returns (title_words seen_words : gset string) :
  size title_words ≠ 0 →
  overlap title_words seen_words
  = Ret (PyFloat.of_int (Z.of_nat (size (title_words ∩ seen_words)))
         / PyFloat.of_int (Z.of_nat (Nat.max (size title_words) (size seen_words))))%float.
Proof.
  intros H. unfold overlap, PyFloat.int_truediv.
  destruct (Z.eqb_spec (Z.of_nat (Nat.max (size title_words) (size seen_words))) 0); [lia|done].
Qed.

Lemma is_duplicate_returns (t : string) (seen_titles : list string) :
  size (word_set t) ≠ 0 →
  is_duplicate (word_set t) seen_titles = Ret (existsb (similar t) seen_titles).
Proof.
  intros H. induction seen_titles as [|s l IH]; simpl; [done|].
  rewrite overlap_returns by done. simpl. unfold similar at 1.
  destruct (PrimFloat.ltb _ _); [done|exact IH].
Qed.

(** *** The loop as a function of the titles seen so far *)

Fixpoint kept_from (seen_titles : gset string) (news_list : list article) : list article :=
  match news_list with
  | [] => []
  | a :: later =>
      let t := normalized_title a in
      if String.eqb t "" then kept_from seen_titles later
      else if existsb (similar t) (elements seen_titles) then kept_from seen_titles later
      else a :: kept_from ({[t]} ∪ seen_titles) later
  end.

Lemma dedup_loop_kept_from (news_list unique_news : list article) (seen_titles : gset string) :
  dedup_loop news_list unique_news seen_titles
  = Ret (unique_news ++ kept_from seen_titles news_list)%list.
Proof.
  revert unique_news seen_titles.
  induction news_list as [|a later IH]; intros acc seen; simpl.
  - by rewrite app_nil_r.
  - destruct (String.eqb_spec (normalized_title a) "") as [E|E]; [apply IH|].
    rewrite is_duplicate_returns by by apply word_set_nonempty.
    simpl. destruct (existsb _ _); [apply IH|].
    rewrite IH. by rewrite <- app_assoc.
Qed.

Lemma deduplicate_news_kept_from (news_list : list article) :
  _deduplicate_news news_list = Ret (kept_from ∅ news_list).
Proof. unfold _deduplicate_news. by rewrite dedup_loop_kept_from. Qed.

Lemma kept_from_sublist (seen_titles : gset string) (news_list : list article) :
  sublist (kept_from seen_titles news_list) news_list.
Proof.
  revert seen_titles. induction news_list as [|a later IH]; intros seen; simpl.
  - constructor.
  - destruct (String.eqb _ _); [by apply sublist_cons|].
    destruct (existsb _ _); [by apply sublist_cons|by apply sublist_skip].
Qed.

Lemma kept_from_idempotent (seen_titles : gset string) (news_list : list article) :
  kept_from seen_titles (kept_from seen_titles news_list)
  = kept_from seen_titles news_list.
Proof.
  revert seen_titles. induction news_list as [|a later IH]; intros seen; simpl; [done|].
  destruct (String.eqb (normalized_title a) "") eqn:Et; [apply IH|].
  destruct (existsb (similar (normalized_title a)) (elements seen)) eqn:Ed; [apply IH|].
  simpl. rewrite Et, Ed. by rewrite IH.
Qed.

(** The titles of the articles accepted so far. *)
Definition titles_of (kept : list article) : gset string :=
  list_to_set (map normalized_title kept).

Lemma existsb_ext_elem {A} (f : A → bool) (l1 l2 : list A) :
  (∀ x, x ∈ l1 ↔ x ∈ l2) → existsb f l1 = existsb f l2.
Proof.
  intros H. apply eq_true_iff_eq. rewrite !existsb_exists.
  split; intros (x & Hx & Hf); exists x; (split; [|done]);
    apply list_elem_of_In; apply list_elem_of_In in Hx; by apply H.
Qed.

Lemma existsb_titles_of (t : string) (kept : list article) :
  existsb (similar t) (elements (titles_of kept ∪ ∅))
  = existsb (fun b => similar t (normalized_title b)) kept.
Proof.
  transitivity (existsb (similar t) (map normalized_title kept)).
  - apply existsb_ext_elem. intros x. rewrite elem_of_elements. unfold titles_of.
    set_solver.
  - induction kept as [|b kept IH]; simpl; [done|]. by rewrite IH.
Qed.

Lemma kept_from_app (seen_titles : gset string) (l1 l2 : list article) :
  kept_from seen_titles (l1 ++ l2)
  = (kept_from seen_titles l1
     ++ kept_from (titles_of (kept_from seen_titles l1) ∪ seen_titles) l2)%list.
Proof.
  revert seen_titles. induction l1 as [|a l1 IH]; intros seen; simpl.
  - unfold titles_of. simpl. by rewrite (left_id_L ∅ (∪)).
  - destruct (String.eqb (normalized_title a) ""); [apply IH|].
    destruct (existsb _ _); [apply IH|].
    simpl. rewrite IH. do 3 f_equal. unfold titles_of. simpl. set_solver.
Qed.

Lemma kept_from_last (kept : list article) (a : article) :
  kept_from (titles_of kept ∪ ∅) [a] = if keeps kept a then [a] else [].
Proof.
  simpl. unfold keeps. rewrite existsb_titles_of.
  destruct (String.eqb _ _); [done|]. by destruct (existsb _ _).
Qed.

(** The articles of the two examples. *)
Definition titled (t : string) : article :=
  Article (Some t) None None None None None None.

Definition quarter : article := titled "Apple beats earnings estimates this quarter".
Definition qtr : article := titled "Apple beats earnings estimates this qtr".
Definition apple : article := titled "Apple beats earnings".
Definition tesla : article := titled "Tesla misses delivery targets".

Example overlap_quarter_qtr :
  overlap (word_set (normalized_title qtr)) (word_set (normalized_title quarter))
  = Ret (5 / 6)%float.
Proof. vm_compute. reflexivity. Qed.

Example overlap_apple_tesla :
  overlap (word_set (normalized_title tesla)) (word_set (normalized_title apple))
  = Ret 0%float.
Proof. vm_compute. reflexivity. Qed.

(** C5: deduplication never fails and keeps the order; an article coming
    after the articles [pre] is kept exactly when its normalized title is
    not empty and has an overlap of at most 0.7 with the title of every
    article kept from [pre] ([keeps]); of the two "Apple beats earnings
    estimates" articles the second is dropped, and "Apple beats earnings"
    and "Tesla misses delivery targets" are both kept. *)
Theorem deduplicate_news_drops_similar_titles :
  (∀ (pre : list article) (a : article),
     ∃ kept : list article,
       _deduplicate_news pre = Ret kept
       ∧ sublist kept pre
       ∧ _deduplicate_news (pre ++ [a])
         = Ret (kept ++ if keeps kept a then [a] else [])%list)
  ∧ (∀ (kept : list article) (a : article),
       keeps kept a = true ↔
       normalized_title a ≠ ""%string
       ∧ ∀ b, b ∈ kept →
           PrimFloat.ltb 0.7
             (PyFloat.of_int (Z.of_nat (size (word_set (normalized_title a)
                                              ∩ word_set (normalized_title b))))
              / PyFloat.of_int (Z.of_nat (Nat.max (size (word_set (normalized_title a)))
                                                  (size (word_set (normalized_title b))))))%float
           = false)
  ∧ _deduplicate_news [quarter; qtr] = Ret [quarter]
  ∧ _deduplicate_news [apple; tesla] = Ret [apple; tesla].
Proof.
  split; [|split; [|split; vm_compute; reflexivity]].
  - intros pre a. exists (kept_from ∅ pre).
    split; [apply deduplicate_news_kept_from|].
    split; [apply kept_from_sublist|].
    rewrite deduplicate_news_kept_from, kept_from_app. by rewrite kept_from_last.
  - intros kept a. unfold keeps.
    rewrite andb_true_iff, !negb_true_iff.
    split.
    + intros [Ht Hex]. split.
      * by destruct (String.eqb_spec (normalized_title a) "").
      * intros b Hb. destruct (PrimFloat.ltb _ _) eqn:E; [|done].
        assert (existsb (fun b => similar (normalized_title a) (normalized_title b)) kept
                = true) as Habs; [|congruence].
        apply existsb_exists. exists b. split; [by apply list_elem_of_In|exact E].
    + intros [Ht Hall]. split.
      * by destruct (String.eqb_spec (normalized_title a) "").
      * destruct (existsb _ kept) eqn:E; [|done].
        apply existsb_exists in E as (b & Hb & Hsim).
        apply list_elem_of_In in Hb. specialize (Hall b Hb).
        unfold similar in Hsim. congruence.
Qed.

(** C9: deduplication is idempotent, and its output is a subsequence of
    its input. *)
Theorem deduplicate_news_idempotent (news_list : list article) :
  ∃ unique_news : list article,
    _deduplicate_news news_list = Ret unique_news
    ∧ _deduplicate_news unique_news = Ret unique_news
    ∧ sublist unique_news news_list.
Proof.
  exists (kept_from ∅ news_list).
  rewrite !deduplicate_news_kept_from, kept_from_idempotent.
  auto using kept_from_sublist.
Qed.

End Deduplication.

(** ** The historical summary *)

Section HistoricalSummary.

Import VectorDB.

Lemma closing_prices_truthy (recent_data : list Data.bar) (x : float) :
  x ∈ closing_prices recent_data → PyFloat.truthy x = true.
Proof.
  unfold closing_prices. rewrite list_elem_of_omap.
  intros (d & _ & Hd). unfold truthy_float in Hd.
  destruct (Data.close d) as [y|]; [|done].
  destruct (PyFloat.truthy y) eqn:E; [|done]. by injection Hd as <-.
Qed.

Lemma last_elem_of {A} (l : list A) (d : A) : l ≠ [] → List.last l d ∈ l.
Proof.
  induction l as [|x l IH]; [done|]. intros _.
  destruct l as [|y l]; [simpl; set_solver|].
  right. by apply IH.
Qed.

(** The fallback text, and the performance text for a current price and the
    price at the end of the window. *)
Definition fallback_summary (symbol : string) : string :=
  "Historical data for " ++ symbol.

Definition performance_summary (symbol : string) (current_price month_ago_price : float)
    : string :=
  "Historical Performance for " ++ symbol
  ++ ": Current $" ++ PyFormat.fixed2 false current_price
  ++ ", 30-day change: "
  ++ PyFormat.fixed2 true ((current_price - month_ago_price) / month_ago_price * 100)%float
  ++ "%".

(** The close prices that count: the true ones among the first 30 points. *)
Definition window_prices (historical_info : Data.historical_info) : list float :=
  closing_prices (take 30 (default [] (Data.data historical_info))).

Lemma format_historical_cases (symbol : string) (historical_info : Data.historical_info) :
  match window_prices historical_info with
  | current_price :: later =>
      match later with
      | _ :: _ =>
          PrimFloat.eqb (List.last later current_price) 0 = false
          ∧ _format_historical_data symbol historical_info
            = Ret (performance_summary symbol current_price (List.last later current_price))
      | [] => _format_historical_data symbol historical_info = Ret (fallback_summary symbol)
      end
  | [] => _format_historical_data symbol historical_info = Ret (fallback_summary symbol)
  end.
Proof.
  unfold window_prices, _format_historical_data.
  destruct (default [] (Data.data historical_info)) as [|d data] eqn:Edata; [done|].
  rewrite <- Edata. clear Edata.
  destruct (closing_prices (take 30 (default [] (Data.data historical_info))))
    as [|current [|second later]] eqn:Eprices; [| |]; try done.
  assert (Hin : List.last (second :: later) current
                ∈ closing_prices (take 30 (default [] (Data.data historical_info)))).
  { rewrite Eprices. right. by apply last_elem_of. }
  apply closing_prices_truthy in Hin. unfold PyFloat.truthy in Hin.
  apply negb_true_iff in Hin.
  split; [exact Hin|].
  change (List.last (current :: second :: later) current)
    with (List.last (second :: later) current).
  unfold PyFloat.truediv. by rewrite Hin.
Qed.

Lemma fixed2_signed (x : float) :
  ∃ digits : string,
    PyFormat.fixed2 true x = String "+" digits ∨ PyFormat.fixed2 true x = String "-" digits.
Proof.
  unfold PyFormat.fixed2.
  destruct (Prim2SF x) as [[]|[]| |[] m e]; simpl; eauto.
Qed.

(** A year of prices that rose from 100 to 110 over the window. *)
Definition rising : Data.historical_info :=
  Data.HistoricalInfo
    (Some [Data.Bar (Some "2024-03-01") (Some 110%float);
           Data.Bar (Some "2024-02-29") None;
           Data.Bar (Some "2024-02-28") (Some 0%float);
           Data.Bar (Some "2024-02-27") (Some 100%float)]%string)
    (Some "yahoo_finance"%string).

Example format_rising :
  _format_historical_data "AAPL" rising
  = Ret "Historical Performance for AAPL: Current $110.00, 30-day change: +10.00%"%string.
Proof. vm_compute. reflexivity. Qed.

(** C8: the formatter always returns a text.  With fewer than two price
    points in the window it is the fallback text; otherwise it reports
    [(current - past) / past * 100], formatted with a sign, between the
    first price and the last price of the 30-point window, and the divisor
    of that division is not zero. *)
Theorem format_historical_data_safe (symbol : string) (historical_info : Data.historical_info) :
  (∃ summary : string, _format_historical_data symbol historical_info = Ret summary)
  ∧ ((length (window_prices historical_info) < 2)%nat →
     _format_historical_data symbol historical_info = Ret (fallback_summary symbol))
  ∧ (∀ (current_price second : float) (later : list float),
       window_prices historical_info = current_price :: second :: later →
       let month_ago_price := List.last (second :: later) current_price in
       PrimFloat.eqb month_ago_price 0 = false
       ∧ PyFloat.truediv (current_price - month_ago_price)%float month_ago_price
         = Ret ((current_price - month_ago_price) / month_ago_price)%float
       ∧ _format_historical_data symbol historical_info
         = Ret (performance_summary symbol current_price month_ago_price)
       ∧ ∃ digits : string,
           PyFormat.fixed2 true
             ((current_price - month_ago_price) / month_ago_price * 100)%float
           = String "+" digits
           ∨ PyFormat.fixed2 true
               ((current_price - month_ago_price) / month_ago_price * 100)%float
             = String "-" digits).
Proof.
  pose proof (format_historical_cases symbol historical_info) as H.
  split; [|split].
  - destruct (window_prices historical_info) as [|c [|x l]]; [eauto|eauto|].
    destruct H as [_ H]. eauto.
  - intros Hlen. destruct (window_prices historical_info) as [|c [|x l]]; [done|done|].
    simpl in Hlen. lia.
  - intros c x l E. rewrite E in H. destruct H as [Hz H].
    split; [exact Hz|]. split; [|split; [exact H|apply fixed2_signed]].
    unfold PyFloat.truediv. by rewrite Hz.
Qed.

(** C8 on the rising prices. *)
Lemma format_historical_data_safe_witness :
  _format_historical_data "AAPL" rising
  = Ret (performance_summary "AAPL" 110 100).
Proof.
  destruct (format_historical_data_safe "AAPL" rising) as (_ & _ & H).
  destruct (H 110%float 100%float [] eq_refl) as (_ & _ & Hfmt & _).
  exact Hfmt.
Defined.

End HistoricalSummary.

(** ** The vector store: ingestion *)

Section Ingestion.

Import VectorDB.

(** [n] clock readings later. *)
Definition tick (n : nat) (s : state) : state :=
  State (index s) (documents s) (metadata s) (company_index s)
        (embedding_calls s) (n + clock s) (rebuild_tasks s).

Lemma tick_0 (s : state) : tick 0 s = s.
Proof. by destruct s. Qed.

Lemma tick_tick (n k : nat) (s : state) : tick k (tick n s) = tick (n + k) s.
Proof. unfold tick. simpl. f_equal. lia. Qed.

(** A computation that returns documents and reads the clock once for each. *)
Definition stamps (m : M (list document)) : Prop :=
  ∀ s, ∃ docs, m s = (Ret docs, tick (length docs) s).

Lemma stamps_nil : stamps (ret []).
Proof. intros s. exists []. by rewrite tick_0. Qed.

Lemma stamps_one (e : env) (txt ty sym : string) (ad src : option string) :
  stamps (do d <- stamped e txt ty sym ad src; ret [d]).
Proof. intros s. eexists [_]. reflexivity. Qed.

Lemma stamps_news_documents (e : env) (sym : string) (articles : list Data.article) :
  stamps (news_documents e sym articles).
Proof.
  induction articles as [|a l IH]; [apply stamps_nil|].
  intros s. simpl. unfold bind at 1. unfold stamped at 1, bind at 1, isoformat_now, ret at 1.
  unfold bind at 1.
  destruct (IH (tick 1 s)) as (ds & Eds). unfold tick at 1 in Eds. simpl in Eds.
  rewrite Eds. eexists (_ :: ds). unfold ret. f_equal.
  rewrite tick_tick. reflexivity.
Qed.

Lemma format_historical_returns (sym : string) (h : Data.historical_info) :
  ∃ t, _format_historical_data sym h = Ret t.
Proof.
  pose proof (format_historical_cases sym h) as H.
  destruct (window_prices h) as [|c [|x l]]; [eauto|eauto|].
  destruct H as [_ H]. eauto.
Qed.

Lemma stamps_overview (e : env) (sym : string) (cd : Data.company_data) :
  stamps (overview_documents e sym cd).
Proof.
  unfold overview_documents. destruct (Data.company cd); [apply stamps_one|apply stamps_nil].
Qed.

Lemma stamps_financial (e : env) (sym : string) (cd : Data.company_data) :
  stamps (financial_documents e sym cd).
Proof.
  unfold financial_documents.
  destruct (Data.financial cd); [apply stamps_one|apply stamps_nil].
Qed.

Lemma stamps_historical (e : env) (sym : string) (cd : Data.company_data) :
  stamps (historical_documents e sym cd).
Proof.
  unfold historical_documents. destruct (Data.historical cd) as [h|]; [|apply stamps_nil].
  destruct (format_historical_returns sym h) as [t Et]. rewrite Et.
  intros s. destruct (stamps_one e t "historical_data" sym None None s) as (docs & E).
  exists docs. exact E.
Qed.

Lemma stamps_articles (e : env) (sym : string) (cd : Data.company_data) :
  stamps (article_documents e sym cd).
Proof.
  unfold article_documents.
  destruct (Data.news cd); [apply stamps_news_documents|apply stamps_nil].
Qed.

Lemma stamps_analyst (e : env) (sym : string) (cd : Data.company_data) :
  stamps (analyst_documents e sym cd).
Proof.
  unfold analyst_documents.
  destruct (Data.analyst cd); [apply stamps_one|apply stamps_nil].
Qed.

Lemma stamps_documents_of (e : env) (sym : string) (cd : Data.company_data) :
  stamps (documents_of e sym cd).
Proof.
  intros s. unfold documents_of, bind.
  destruct (stamps_overview e sym cd s) as (d1 & ->).
  destruct (stamps_financial e sym cd (tick (length d1) s)) as (d2 & ->).
  destruct (stamps_historical e sym cd (tick (length d2) (tick (length d1) s))) as (d3 & ->).
  destruct (stamps_articles e sym cd
              (tick (length d3) (tick (length d2) (tick (length d1) s)))) as (d4 & ->).
  destruct (stamps_analyst e sym cd
              (tick (length d4) (tick (length d3) (tick (length d2) (tick (length d1) s)))))
    as (d5 & ->).
  exists (d1 ++ d2 ++ d3 ++ d4 ++ d5)%list. unfold ret.
  rewrite !tick_tick, !length_app. do 2 f_equal; lia.
Qed.

(** *** The loop that stores a batch *)

Lemma store_documents_fields (start_idx i : nat) (docs : list document) (s : state) :
  let s' := store_documents start_idx i docs s in
  index s' = index s
  ∧ documents s' = (documents s ++ map text docs)%list
  ∧ metadata s' = (metadata s ++ docs)%list
  ∧ embedding_calls s' = embedding_calls s
  ∧ clock s' = clock s
  ∧ rebuild_tasks s' = rebuild_tasks s.
Proof.
  revert i s. induction docs as [|d docs IH]; intros i s; simpl.
  - by rewrite !app_nil_r.
  - destruct (IH (S i) (store_document start_idx i d s)) as (H1 & H2 & H3 & H4 & H5 & H6).
    rewrite H1, H2, H3, H4, H5, H6. simpl. by rewrite <- !app_assoc.
Qed.

Lemma store_documents_positions (start_idx i : nat) (docs : list document) (s : state)
    (sym : string) (positions : list nat) (p : nat) :
  company_index (store_documents start_idx i docs s) !! sym = Some positions →
  p ∈ positions →
  (∃ old, company_index s !! sym = Some old ∧ p ∈ old)
  ∨ start_idx + i ≤ p < start_idx + i + length docs.
Proof.
  revert i s positions. induction docs as [|d docs IH]; intros i s positions; simpl.
  - intros H Hp. left. eauto.
  - intros H Hp. destruct (IH _ _ _ H Hp) as [(old & Hold & Hin)|Hrange]; [|right; lia].
    simpl in Hold.
    destruct (decide (symbol d = sym)) as [<-|Hne].
    + rewrite lookup_insert_eq in Hold. injection Hold as <-.
      apply elem_of_app in Hin as [Hin|Hin].
      * left. destruct (company_index s !! symbol d) as [ps|]; [eauto|].
        simpl in Hin. by apply elem_of_nil in Hin.
      * apply list_elem_of_singleton in Hin as ->. right. lia.
    + rewrite lookup_insert_ne in Hold by done. left. eauto.
Qed.

(** The state after the embedding provider was called with [texts]. *)
Definition called (texts : list string) (s : state) : state :=
  State (index s) (documents s) (metadata s) (company_index s)
        (embedding_calls s ++ [texts]) (clock s) (rebuild_tasks s).

Lemma consistent_same_store (s s' : state) :
  index s' = index s → documents s' = documents s → metadata s' = metadata s →
  company_index s' = company_index s →
  consistent s → consistent s'.
Proof. unfold consistent. intros -> -> -> ->. done. Qed.

Lemma same_width_dimension (n : nat) (embeddings : list vector) :
  Forall (fun v => length v = n) embeddings → same_width embeddings = true.
Proof.
  destruct embeddings as [|v vs]; [done|]. intros H.
  apply Forall_cons in H as [Hv Hvs]. simpl.
  apply forallb_forall. intros r Hr. apply Nat.eqb_eq.
  apply list_elem_of_In in Hr. rewrite Hv.
  by apply (proj1 (Forall_forall _ _) Hvs).
Qed.

(** What [_add_documents] does when the provider answers with a non-empty
    list of embeddings. *)
Lemma add_documents_run (e : env) (docs : list document) (s : state)
    (v : vector) (vs : list vector) :
  get_embeddings e (embedding_calls s) (map text docs) = Some (v :: vs) →
  _add_documents e docs s =
  let s1 := called (map text docs) s in
  match np_array (v :: vs) with
  | Raise x => (Raise x, s1)
  | Ret a =>
      match index_add e (faiss_normalize_L2 e a) (index s1) with
      | Raise x => (Raise x, s1)
      | Ret idx =>
          (Ret tt, store_documents (length (documents s1)) 0 docs (set_index idx s1))
      end
  end.
Proof.
  intros H. unfold _add_documents, bind, call_embeddings. rewrite H.
  unfold lift, normalized_array. fold (called (map text docs) s).
  destruct (np_array (v :: vs)) as [a|x]; simpl; [|done].
  unfold get, put. by destruct (index_add e (faiss_normalize_L2 e a) (index s)).
Qed.

(** C1: when the provider returns one embedding per document of the batch,
    [_add_documents] leaves the store consistent:
    [len(documents) == len(metadata) == index.count] and every position of
    the symbol index is below [len(documents)], for every batch and every
    consistent prior state.  When moreover the embeddings have the dimension
    of the index, the call returns and the batch is appended. *)
Theorem add_documents_keeps_store_consistent (e : env) (docs : list document)
    (s : state) (embeddings : list vector) :
  consistent s →
  get_embeddings e (embedding_calls s) (map text docs) = Some embeddings →
  length embeddings = length docs →
  let s' := snd (_add_documents e docs s) in
  consistent s'
  ∧ (Forall (fun v => length v = dimension e) embeddings →
     fst (_add_documents e docs s) = Ret tt
     ∧ documents s' = (documents s ++ map text docs)%list
     ∧ metadata s' = (metadata s ++ docs)%list
     ∧ length (index s') = length (index s) + length docs).
Proof.
  intros Hs Hemb Hlen.
  destruct embeddings as [|v vs].
  - (* an empty batch: [if not embeddings: return] *)
    destruct docs; [|done].
    unfold _add_documents, bind, call_embeddings. rewrite Hemb. simpl.
    split; [by eapply consistent_same_store|].
    intros _. by rewrite !app_nil_r, Nat.add_0_r.
  - rewrite (add_documents_run e docs s v vs Hemb). cbv zeta.
    destruct (np_array (v :: vs)) as [a|x] eqn:Earr.
    2:{ simpl. split; [by eapply consistent_same_store|].
        intros Hdim. unfold np_array in Earr.
        by rewrite (same_width_dimension _ _ Hdim) in Earr. }
    unfold np_array in Earr. destruct (same_width (v :: vs)); [|done].
    injection Earr as <-.
    unfold index_add, faiss_normalize_L2. cbn [width rows hd].
    destruct (Nat.eqb_spec (length v) (dimension e)) as [Ew|Ew].
    2:{ simpl. split; [by eapply consistent_same_store|].
        intros Hdim. apply Forall_cons in Hdim as [Hv _]. done. }
    cbn [fst snd].
    set (s1 := set_index _ _).
    destruct (store_documents_fields (length (documents (called (map text docs) s))) 0 docs s1)
      as (Hidx & Hdocs & Hmeta & _).
    destruct Hs as (Hdm & Hmi & Hpos).
    assert (Hnew : length (index s1) = length (index s) + length docs).
    { subst s1. unfold set_index, called. cbn [index].
      rewrite length_app, length_map. lia. }
    split.
    + split; [|split].
      * rewrite Hdocs, Hmeta. subst s1. simpl. rewrite !length_app, length_map. lia.
      * rewrite Hmeta, Hidx, Hnew. subst s1. simpl. rewrite length_app. lia.
      * intros sym positions p Hlook Hp.
        rewrite Hdocs. subst s1. simpl. rewrite length_app, length_map.
        apply (store_documents_positions _ _ _ _ _ _ _ Hlook) in Hp
          as [(old & Hold & Hin)|Hrange]; simpl in *.
        -- specialize (Hpos _ _ _ Hold Hin). lia.
        -- lia.
    + intros _. split; [done|]. split; [exact Hdocs|]. split; [exact Hmeta|].
      by rewrite Hidx.
Qed.

(** *** Stores and providers used in the examples *)

Definition empty_store : state := State [] [] [] ∅ [] 0 0.

(** A provider that answers every text with the same unit vector of
    dimension 2, and one that is down. *)
Definition unit_provider (_ : list (list string)) (texts : list string)
    : option (list vector) :=
  Some (map (fun _ => [1; 0]%float) texts).

Definition provider_down (_ : list (list string)) (_ : list string)
    : option (list vector) := None.

Definition no_results (_ _ : list vector) (_ : nat) : result (list (float * Z)) := Ret [].

Definition working : env :=
  Env 2 unit_provider (fun n => pretty n) id no_results no_results.

Definition failing : env :=
  Env 2 provider_down (fun n => pretty n) id no_results no_results.

Definition overview (sym : string) : document :=
  Document ("Company: " ++ sym) "company_overview" sym "0" None None.

(** C1 on an empty store and a batch of two documents. *)
Lemma add_documents_keeps_store_consistent_witness :
  consistent (snd (_add_documents working [overview "AAPL"; overview "MSFT"] empty_store)).
Proof.
  refine (proj1 (add_documents_keeps_store_consistent working
                   [overview "AAPL"; overview "MSFT"] empty_store
                   [[1; 0]; [1; 0]]%float _ _ _)).
  - split; [done|]. split; [done|]. intros sym positions i H. simpl in H.
    by rewrite lookup_empty in H.
  - reflexivity.
  - reflexivity.
Defined.

(** *** Records without any category *)

(** None of the five category fields is true. *)
Definition no_category (cd : Data.company_data) : Prop :=
  Data.company cd = None ∧ Data.financial cd = None ∧ Data.historical cd = None
  ∧ (Data.news cd = None ∨ Data.news cd = Some [])
  ∧ Data.analyst cd = None.

(** C10: for a record in which none of the five categories is true,
    [add_company_data] returns [False] and leaves the whole state as it
    was: documents, metadata, symbol index, vector index, and the list of
    calls made to the embedding provider. *)
Theorem add_company_data_without_category (e : env) (symbol : string)
    (company_data : Data.company_data) (s : state) :
  no_category company_data →
  add_company_data e symbol company_data s = (Ret false, s).
Proof.
  intros (Hc & Hf & Hh & Hn & Ha).
  unfold add_company_data, try_except, documents_of, bind.
  unfold overview_documents, financial_documents, historical_documents,
    article_documents, analyst_documents.
  rewrite Hc, Hf, Hh, Ha.
  destruct Hn as [-> | ->]; reflexivity.
Qed.

Definition bare_record : Data.company_data :=
  Data.CompanyData "AAPL" "2024-03-01T00:00:00" None None None None (Some []) None [].

(** C10 on a record that carries only a quote-less header. *)
Lemma add_company_data_without_category_witness :
  add_company_data working "AAPL" bare_record empty_store = (Ret false, empty_store).
Proof.
  apply (add_company_data_without_category working "AAPL" bare_record empty_store).
  unfold no_category. simpl. repeat split; auto.
Defined.

(** *** The provider is down *)

Lemma add_documents_without_embeddings (e : env) (docs : list document) (s : state) :
  get_embeddings e (embedding_calls s) (map text docs) = None
  ∨ get_embeddings e (embedding_calls s) (map text docs) = Some [] →
  _add_documents e docs s = (Ret tt, called (map text docs) s).
Proof.
  intros H. unfold _add_documents, bind, call_embeddings.
  by destruct H as [-> | ->].
Qed.

(** When the provider gives no embeddings, nothing of the batch is stored:
    the state changes by the clock readings and the logged call only.  The
    answer is [True] all the same, as soon as the record has a category. *)
Lemma add_company_data_without_embeddings (e : env) (symbol : string)
    (company_data : Data.company_data) (s : state) :
  (∀ calls texts, get_embeddings e calls texts = None
                  ∨ get_embeddings e calls texts = Some []) →
  ∃ docs : list document,
    documents_of e symbol company_data s = (Ret docs, tick (length docs) s)
    ∧ add_company_data e symbol company_data s
      = match docs with
        | [] => (Ret false, s)
        | _ => (Ret true, called (map text docs) (tick (length docs) s))
        end.
Proof.
  intros Hdown.
  destruct (stamps_documents_of e symbol company_data s) as (docs & Edocs).
  exists docs. split; [exact Edocs|].
  unfold add_company_data, try_except, bind. rewrite Edocs.
  destruct docs as [|d docs]; [by rewrite tick_0|].
  by rewrite add_documents_without_embeddings.
Qed.

(** A record with a company profile only. *)
Definition apple_record : Data.company_data :=
  Data.CompanyData "AAPL" "2024-03-01T00:00:00" None
    (Some (Data.CompanyInfo (Some "Apple Inc.") None (Some "Technology") None
                            (Some 2500000000000%Z) None (Some "alpha_vantage")))
    None None None None ["alpha_vantage"].

(** C2 on the code: with the provider down, the record of a company is not
    ingested (no document, no metadata, no position, no vector), and
    [add_company_data] answers [True]. *)
Theorem add_company_data_answers_true_without_embeddings :
  add_company_data failing "AAPL" apple_record empty_store
  = (Ret true,
     State [] [] [] ∅
           [["Company: Apple Inc. (AAPL) | Sector: Technology | Market Cap: $2,500,000,000,000"]]
           1 0).
Proof. vm_compute. reflexivity. Qed.

End Ingestion.

(** ** The vector store: removal *)

Section Removal.

Import VectorDB.

(** The positions, counted from [i], of the documents filed under [sym]. *)
Fixpoint positions_from (key : document → string) (sym : string) (i : nat)
    (metas : list document) : list nat :=
  match metas with
  | [] => []
  | m :: later =>
      if String.eqb (key m) sym then i :: positions_from key sym (S i) later
      else positions_from key sym (S i) later
  end.

(** The symbol map obtained by filing documents one after the other. *)
Fixpoint index_docs (key : document → string) (i : nat) (metas : list document)
    (ci : gmap string (list nat)) : gmap string (list nat) :=
  match metas with
  | [] => ci
  | m :: later =>
      index_docs key (S i) later (<[key m := (default [] (ci !! key m) ++ [i])%list]> ci)
  end.

(** The symbol index lists, for each symbol, exactly the positions of its
    documents, in order. *)
Definition symbol_indexed (s : state) : Prop :=
  ∀ sym, company_index s !! sym
         = match positions_from symbol sym 0 (metadata s) with
           | [] => None
           | ps => Some ps
           end.

(** A stored symbol is canonical, as the data model requires of a document:
    uppercase and not empty.  The methods look symbols up through
    [symbol.upper()]. *)
Definition canonical (m : document) : Prop :=
  PyStr.upper (symbol m) = symbol m ∧ symbol m ≠ ""%string.

(** A store as ingestion builds it from canonical symbols. *)
Definition well_formed (s : state) : Prop :=
  documents s = map text (metadata s)
  ∧ symbol_indexed s
  ∧ Forall canonical (metadata s).

Lemma index_docs_lookup (key : document → string) (i : nat) (metas : list document)
    (ci : gmap string (list nat)) (sym : string) :
  index_docs key i metas ci !! sym
  = match positions_from key sym i metas with
    | [] => ci !! sym
    | ps => Some (default [] (ci !! sym) ++ ps)%list
    end.
Proof.
  revert i ci. induction metas as [|m later IH]; intros i ci; simpl; [done|].
  rewrite IH. destruct (String.eqb_spec (key m) sym) as [->|Hne].
  - rewrite lookup_insert_eq. simpl.
    destruct (positions_from key sym (S i) later); [done|].
    by rewrite <- app_assoc.
  - by rewrite lookup_insert_ne.
Qed.

Lemma elem_of_positions_from (key : document → string) (sym : string) (i : nat)
    (metas : list document) (p : nat) :
  p ∈ positions_from key sym i metas
  ↔ ∃ j m, metas !! j = Some m ∧ key m = sym ∧ p = i + j.
Proof.
  revert i. induction metas as [|m later IH]; intros i; simpl.
  - split; [by intros ?%elem_of_nil|]. by intros (j & m & ? & _).
  - assert (Hlater : p ∈ positions_from key sym (S i) later
                     ↔ ∃ j m', later !! j = Some m' ∧ key m' = sym ∧ p = i + S j).
    { rewrite IH. split; intros (j & m' & ? & ? & ?); exists j, m'; repeat split; auto; lia. }
    destruct (String.eqb_spec (key m) sym) as [Heq|Hne].
    + rewrite elem_of_cons, Hlater. split.
      * intros [->|(j & m' & ? & ? & ?)].
        -- exists 0, m. repeat split; auto; lia.
        -- exists (S j), m'. auto.
      * intros ([|j] & m' & Hj & Hk & Hp).
        -- left. lia.
        -- right. exists j, m'. auto.
    + rewrite Hlater. split.
      * intros (j & m' & ? & ? & ?). exists (S j), m'. auto.
      * intros ([|j] & m' & Hj & Hk & Hp).
        -- simpl in Hj. injection Hj as <-. done.
        -- exists j, m'. auto.
Qed.

Lemma positions_from_nil_iff (key : document → string) (sym : string) (i : nat)
    (metas : list document) :
  positions_from key sym i metas = [] ↔ ∀ m, m ∈ metas → key m ≠ sym.
Proof.
  split.
  - intros H m Hm Hk. apply list_elem_of_lookup in Hm as [j Hj].
    assert (i + j ∈ positions_from key sym i metas) as Hin.
    { apply elem_of_positions_from. eauto. }
    rewrite H in Hin. by apply elem_of_nil in Hin.
  - intros H. destruct (positions_from key sym i metas) as [|p ps] eqn:E; [done|].
    assert (p ∈ positions_from key sym i metas) as Hin by (rewrite E; left).
    apply elem_of_positions_from in Hin as (j & m & Hj & Hk & _).
    exfalso. eapply H; [|exact Hk]. apply list_elem_of_lookup. eauto.
Qed.

Lemma positions_from_ext (key1 key2 : document → string) (sym : string) (i : nat)
    (metas : list document) :
  Forall (fun m => key1 m = key2 m) metas →
  positions_from key1 sym i metas = positions_from key2 sym i metas.
Proof.
  intros H. revert i. induction H as [|m later Hm _ IH]; intros i; simpl; [done|].
  by rewrite Hm, IH.
Qed.

(** The documents that stay when [sym] is removed. *)
Definition others (sym : string) (metas : list document) : list document :=
  filter (fun m => symbol m ≠ sym) metas.

Lemma remove_loop_filter (indices : list nat) (sym : string) (i : nat)
    (metas : list document) (rd : list string) (rm : list document)
    (ci : gmap string (list nat)) :
  (∀ j m, metas !! j = Some m → (i + j ∈ indices ↔ symbol m = sym)) →
  remove_loop indices i (zip (map text metas) metas) rd rm ci
  = ((rd ++ map text (others sym metas))%list,
     (rm ++ others sym metas)%list,
     index_docs (fun m => PyStr.upper (symbol m)) (length rd) (others sym metas) ci).
Proof.
  revert i rd rm ci. induction metas as [|m later IH]; intros i rd rm ci H.
  - simpl. by rewrite !app_nil_r.
  - assert (Hlater : ∀ j m', later !! j = Some m' → (S i + j ∈ indices ↔ symbol m' = sym)).
    { intros j m' Hj. rewrite <- (H (S j) m' Hj). by rewrite Nat.add_succ_r. }
    assert (Hhere : i ∈ indices ↔ symbol m = sym).
    { rewrite <- (H 0 m eq_refl). by rewrite Nat.add_0_r. }
    cbn [map zip zip_with remove_loop]. unfold others.
    destruct (decide (symbol m = sym)) as [Hs|Hs].
    + rewrite bool_decide_eq_true_2 by by apply Hhere.
      rewrite filter_cons_False by (intros Hne; by apply Hne).
      by apply IH.
    + rewrite bool_decide_eq_false_2 by (intros Hin; by apply Hs, Hhere).
      rewrite filter_cons_True by done.
      rewrite (IH (S i)) by done.
      rewrite length_app, Nat.add_1_r. cbn [map index_docs].
      by rewrite <- !app_assoc.
Qed.

Lemma others_shorter (sym : string) (metas : list document) :
  positions_from symbol sym 0 metas ≠ [] →
  length (others sym metas) < length metas.
Proof.
  intros H. destruct (positions_from symbol sym 0 metas) as [|p ps] eqn:E; [done|].
  assert (p ∈ positions_from symbol sym 0 metas) as Hin by (rewrite E; left).
  apply elem_of_positions_from in Hin as (j & m & Hj & Hk & _).
  apply (length_filter_lt _ _ m); [apply list_elem_of_lookup; eauto|].
  intros Hne. by apply Hne.
Qed.

Lemma others_canonical (sym : string) (metas : list document) :
  Forall canonical metas → Forall canonical (others sym metas).
Proof.
  rewrite !Forall_forall. intros H m Hm. unfold others in Hm.
  apply list_elem_of_filter in Hm as [_ Hm]. by apply H.
Qed.

Lemma positions_from_others (sym : string) (i : nat) (metas : list document) :
  positions_from symbol sym i (others sym metas) = [].
Proof.
  apply positions_from_nil_iff. intros m Hm. unfold others in Hm.
  by apply list_elem_of_filter in Hm as [Hm _].
Qed.

(** The fresh map computed by the removal loop is the symbol index of the
    remaining documents. *)
Lemma fresh_index_lookup (sym0 sym : string) (metas : list document) :
  Forall canonical metas →
  index_docs (fun m => PyStr.upper (symbol m)) 0 (others sym0 metas) ∅ !! sym
  = match positions_from symbol sym 0 (others sym0 metas) with
    | [] => None
    | ps => Some ps
    end.
Proof.
  intros Hcan. rewrite index_docs_lookup, lookup_empty.
  rewrite (positions_from_ext (fun m => PyStr.upper (symbol m)) symbol).
  - by destruct (positions_from symbol sym 0 (others sym0 metas)).
  - eapply Forall_impl; [by apply others_canonical|]. by intros m [Hm _].
Qed.

Lemma search_unknown_symbol (e : env) (query : string) (k : nat) (sym : string) (s : state) :
  sym ≠ ""%string →
  default [] (company_index s !! PyStr.upper sym) = [] →
  fst (search e query k (Some sym) s) = Ret [].
Proof.
  intros Hsym Hnone. unfold search, try_except, bind, get.
  destruct (length (index s) =? 0)%nat; [done|].
  unfold call_embeddings.
  destruct (get_embeddings e (embedding_calls s) [query]) as [[|v vs]|]; [done| |done].
  unfold lift. destruct (normalized_array e (v :: vs)) as [a|x]; [|done].
  unfold truthy_str. destruct (String.eqb_spec sym ""); [done|].
  by rewrite Hnone.
Qed.

Lemma upper_empty (sym : string) : PyStr.upper sym = ""%string → sym = ""%string.
Proof. by destruct sym. Qed.

Lemma symbol_indexed_dom (s : state) (sym : string) :
  symbol_indexed s →
  sym ∈ dom (company_index s) ↔ ∃ m, m ∈ metadata s ∧ symbol m = sym.
Proof.
  intros H. rewrite elem_of_dom, H. split.
  - intros Hsome.
    destruct (positions_from symbol sym 0 (metadata s)) as [|p ps] eqn:E;
      [by destruct Hsome|].
    assert (p ∈ positions_from symbol sym 0 (metadata s)) as Hin by (rewrite E; left).
    apply elem_of_positions_from in Hin as (j & m & Hj & Hk & _).
    exists m. split; [|done]. apply list_elem_of_lookup. eauto.
  - intros (m & Hm & Hk).
    destruct (positions_from symbol sym 0 (metadata s)) as [|p ps] eqn:E; [|eauto].
    exfalso. eapply positions_from_nil_iff in E; eauto.
Qed.

(** Ingestion builds such an index: the loop of [_add_documents] files the
    batch after the documents already there. *)
Lemma store_documents_index (start_idx i : nat) (docs : list document) (s : state) :
  company_index (store_documents start_idx i docs s)
  = index_docs symbol (start_idx + i) docs (company_index s).
Proof.
  revert i s. induction docs as [|d docs IH]; intros i s; [done|].
  cbn [store_documents index_docs]. rewrite IH. cbn [store_document company_index].
  by rewrite Nat.add_succ_r.
Qed.

Lemma positions_from_app (key : document → string) (sym : string) (i : nat)
    (l1 l2 : list document) :
  positions_from key sym i (l1 ++ l2)
  = (positions_from key sym i l1 ++ positions_from key sym (i + length l1) l2)%list.
Proof.
  revert i. induction l1 as [|m l1 IH]; intros i; simpl.
  - by rewrite Nat.add_0_r.
  - rewrite IH, Nat.add_succ_r. by destruct (String.eqb (key m) sym).
Qed.

Lemma store_documents_symbol_indexed (docs : list document) (s : state) :
  symbol_indexed s →
  symbol_indexed (store_documents (length (metadata s)) 0 docs s).
Proof.
  intros H sym.
  destruct (store_documents_fields (length (metadata s)) 0 docs s) as (_ & _ & -> & _).
  rewrite store_documents_index, index_docs_lookup, positions_from_app, H.
  rewrite Nat.add_0_r. simpl.
  destruct (positions_from symbol sym 0 (metadata s)) as [|p ps];
    destruct (positions_from symbol sym (length (metadata s)) docs); simpl;
    by rewrite ?app_nil_r.
Qed.

(** What [remove_company_data] does to a well-formed store that knows the
    symbol: the answer is [True] when nothing stays or an event loop is
    running. *)
Lemma remove_company_data_run (loop : bool) (sym : string) (s : state) :
  documents s = map text (metadata s) → symbol_indexed s →
  default [] (company_index s !! PyStr.upper sym) ≠ [] →
  let remaining := others (PyStr.upper sym) (metadata s) in
  let fresh := index_docs (fun m => PyStr.upper (symbol m)) 0 remaining ∅ in
  remove_company_data loop sym s
  = match remaining with
    | [] => (Ret true,
             State [] [] [] ∅ (embedding_calls s) (clock s) (rebuild_tasks s))
    | _ => (Ret loop,
            State (index s) (map text remaining) remaining fresh
                  (embedding_calls s) (clock s)
                  (if loop then S (rebuild_tasks s) else rebuild_tasks s))
    end.
Proof.
  intros Hdocs Hidx Hknown. cbv zeta.
  unfold remove_company_data, try_except, bind, get.
  pose proof (Hidx (PyStr.upper sym)) as Hlook. rewrite Hlook in Hknown |- *.
  destruct (positions_from symbol (PyStr.upper sym) 0 (metadata s)) as [|p ps] eqn:E;
    [done|]. cbn [from_option id].
  rewrite Hdocs, (remove_loop_filter (p :: ps) (PyStr.upper sym) 0).
  2:{ intros j m Hj. rewrite <- E, elem_of_positions_from. split.
      - intros (j' & m' & Hj' & Hk & Hp). simpl in Hp. subst j'. congruence.
      - intros Hk. exists j, m. auto. }
  cbn [app length].
  assert (Hshort : (length (map text (others (PyStr.upper sym) (metadata s)))
                    <? length (map text (metadata s)))%nat = true).
  { apply Nat.ltb_lt. rewrite !length_map. apply others_shorter. by rewrite E. }
  rewrite Hshort.
  destruct (others (PyStr.upper sym) (metadata s)) as [|m ms]; [reflexivity|].
  destruct loop; reflexivity.
Qed.

(** A store with the documents of two companies. *)
Definition two_companies : state :=
  State [[1; 0]; [1; 0]; [0; 1]]%float
        ["Company: Apple (AAPL)"; "News for AAPL"; "Company: Microsoft (MSFT)"]
        [Document "Company: Apple (AAPL)" "company_overview" "AAPL" "0" None None;
         Document "News for AAPL" "news_article" "AAPL" "1" (Some "") (Some "");
         Document "Company: Microsoft (MSFT)" "company_overview" "MSFT" "2" None None]
        {["AAPL" := [0; 1]; "MSFT" := [2]]}
        [] 3 0.

Example remove_from_two_companies :
  remove_company_data true "aapl" two_companies
  = (Ret true,
     State [[1; 0]; [1; 0]; [0; 1]]%float
           ["Company: Microsoft (MSFT)"]
           [Document "Company: Microsoft (MSFT)" "company_overview" "MSFT" "2" None None]
           {["MSFT" := [0]]}
           [] 3 1).
Proof. vm_compute. reflexivity. Qed.

(** What the removal gives when it is called from a running event loop, on
    a store of canonical symbols: it returns [False] and changes nothing
    when the symbol index knows no document of the symbol (with or without
    a loop); otherwise it returns [True], what stays is the documents and
    metadata of the other symbols, in order, and the symbol index is the
    index of what stays, with no entry for the removed symbol. *)
Lemma remove_company_data_in_event_loop (sym : string) (s : state) :
  (default [] (company_index s !! PyStr.upper sym) = [] →
   ∀ loop, remove_company_data loop sym s = (Ret false, s))
  ∧ (well_formed s →
     default [] (company_index s !! PyStr.upper sym) ≠ [] →
     ∃ s' : state,
       remove_company_data true sym s = (Ret true, s')
       ∧ metadata s' = others (PyStr.upper sym) (metadata s)
       ∧ well_formed s'
       ∧ company_index s' !! PyStr.upper sym = None
       ∧ (∀ e query k, fst (search e query k (Some sym) s') = Ret [])).
Proof.
  split.
  - intros H loop. unfold remove_company_data, try_except, bind, get. by rewrite H.
  - intros Hwf Hknown.
    destruct Hwf as (Hdocs & Hidx & Hcan).
    pose proof (remove_company_data_run true sym s Hdocs Hidx Hknown) as Hrun.
    cbv zeta in Hrun.
    set (remaining := others (PyStr.upper sym) (metadata s)) in *.
    set (fresh := index_docs (fun m => PyStr.upper (symbol m)) 0 remaining ∅) in *.
    assert (Hfresh : ∀ k, fresh !! k
                          = match positions_from symbol k 0 remaining with
                            | [] => None
                            | ps => Some ps
                            end).
    { intros k. by apply fresh_index_lookup. }
    assert (Hgone : fresh !! PyStr.upper sym = None).
    { rewrite Hfresh. subst remaining. by rewrite positions_from_others. }
    assert (Hsym : sym ≠ ""%string).
    { intros ->. rewrite (Hidx (PyStr.upper "")) in Hknown.
      destruct (positions_from symbol (PyStr.upper "") 0 (metadata s)) as [|p ps] eqn:E;
        [done|].
      assert (p ∈ positions_from symbol (PyStr.upper "") 0 (metadata s)) as Hin
        by (rewrite E; left).
      apply elem_of_positions_from in Hin as (j & m & Hj & Hk & _).
      assert (canonical m) as [_ Hne].
      { apply (proj1 (Forall_forall _ _) Hcan). apply list_elem_of_lookup. eauto. }
      by apply Hne. }
    assert (Hcan' : Forall canonical remaining) by (by apply others_canonical).
    clearbody fresh remaining. destruct remaining as [|m ms].
    + eexists. split; [exact Hrun|]. split; [done|]. split.
      { split; [done|]. split; [|done]. intros k. simpl. apply lookup_empty. }
      split; [apply lookup_empty|].
      intros e query k. apply search_unknown_symbol; [exact Hsym|done].
    + eexists. split; [exact Hrun|]. cbn [metadata documents company_index].
      split; [done|]. split; [by split|]. split; [exact Hgone|].
      intros e query k. apply search_unknown_symbol; [exact Hsym|].
      cbn [company_index]. by rewrite Hgone.
Qed.

(** The same company filed under two spellings, as
    [add_company_data("aapl", ...)] followed by
    [add_company_data("AAPL", ...)] leave it. *)
Definition two_spellings : state :=
  snd (add_company_data working "AAPL" apple_record
         (snd (add_company_data working "aapl" apple_record empty_store))).

(** A similarity search that ranks the first candidate first. *)
Definition first_candidate (_ _ : list vector) (_ : nat) : result (list (float * Z)) :=
  Ret [(1%float, 0%Z)].

Definition finding : env :=
  Env 2 unit_provider (fun n => pretty n) id first_candidate first_candidate.

(** C6 on the code.  Called where no event loop is running, on the store
    of two companies, [remove_company_data] filters the documents, the
    metadata and the symbol index, and then answers [False]: no rebuild is
    scheduled and the index keeps its three rows for the one document left.
    Inside a running loop the same call answers [True] and schedules the
    rebuild.  On the store of two spellings the call answers [True] for
    ["AAPL"], but the document filed under ["aapl"] is filed anew under
    ["AAPL"]: the lookup and a search filtered to the removed symbol still
    return it. *)
Theorem remove_company_data_answers_false_without_event_loop :
  remove_company_data false "AAPL" two_companies
  = (Ret false,
     State [[1; 0]; [1; 0]; [0; 1]]%float
           ["Company: Microsoft (MSFT)"]
           [Document "Company: Microsoft (MSFT)" "company_overview" "MSFT" "2" None None]
           {["MSFT" := [0]]}
           [] 3 0)
  ∧ remove_company_data true "AAPL" two_companies
    = (Ret true,
       State [[1; 0]; [1; 0]; [0; 1]]%float
             ["Company: Microsoft (MSFT)"]
             [Document "Company: Microsoft (MSFT)" "company_overview" "MSFT" "2" None None]
             {["MSFT" := [0]]}
             [] 3 1)
  ∧ map symbol (metadata two_spellings) = ["aapl"; "AAPL"]%string
  ∧ company_index two_spellings = {["aapl" := [0]; "AAPL" := [1]]}
  ∧ ∃ (s' : state) (kept : document),
      remove_company_data true "AAPL" two_spellings = (Ret true, s')
      ∧ metadata s' = [kept]
      ∧ symbol kept = "aapl"%string
      ∧ company_index s' = {["AAPL" := [0]]}
      ∧ get_company_documents "AAPL" s' = Ret [Stored (text kept) kept 0]
      ∧ fst (search finding "apple" 5 (Some "AAPL"%string) s')
        = Ret [Hit (text kept) kept 1 0].
Proof.
  split; [vm_compute; reflexivity|]. split; [vm_compute; reflexivity|].
  split; [vm_compute; reflexivity|]. split; [vm_compute; reflexivity|].
  eexists _, _. split; [vm_compute; reflexivity|].
  split; [reflexivity|]. split; [reflexivity|]. split; [vm_compute; reflexivity|].
  split; vm_compute; reflexivity.
Qed.

End Removal.

(** ** Data fusion *)

Section DataFusion.

Import Data Fusion.

(** A call that raised, and a call that gave nothing usable. *)
Definition raised {A} (call : result A) : Prop := ∃ e, call = Raise e.

Definition failed {A} (call : result (option A)) : Prop :=
  raised call ∨ call = Ret None.

Lemma first_available_returns {A} (calls : list (result (option A))) :
  ∃ v, first_available calls = Ret v.
Proof.
  induction calls as [|call later IH]; simpl; [eauto|].
  destruct call as [[v|]|e]; simpl; eauto.
Qed.

Lemma first_available_failed {A} (call : result (option A))
    (later : list (result (option A))) :
  failed call → first_available (call :: later) = first_available later.
Proof. intros [[e ->]| ->]; reflexivity. Qed.

Lemma first_available_found {A} (v : A) (later : list (result (option A))) :
  first_available (Ret (Some v) :: later) = Ret (Some v).
Proof. reflexivity. Qed.

Lemma contribution_returns {A} (call : result (option A)) :
  ∃ v, contribution call = Ret v.
Proof. destruct call as [v|e]; simpl; eauto. Qed.

Lemma contribution_raised {A} (call : result (option A)) :
  raised call → contribution call = Ret None.
Proof. by intros [e ->]. Qed.

(** None of the six tasks raises. *)
Lemma tasks_return (c : clients) (symbol : string) :
  returns (_get_quote_data c symbol)
  ∧ returns (_get_company_data c symbol)
  ∧ returns (_get_historical_data c symbol)
  ∧ returns (_get_financial_data c symbol)
  ∧ returns (_get_news_data c symbol)
  ∧ returns (_get_analyst_data c symbol).
Proof.
  unfold returns. repeat split; try apply first_available_returns.
  - unfold _get_financial_data.
    destruct (contribution_returns (fmp_get_key_metrics c symbol)) as [v1 ->].
    destruct (contribution_returns (fmp_get_financial_ratios c symbol)) as [v2 ->].
    destruct (contribution_returns (yf_get_financial_data c symbol)) as [v3 ->].
    destruct (contribution_returns (av_get_earnings c symbol)) as [v4 ->].
    simpl. destruct v1, v2, v3, v4; eauto.
  - unfold _get_news_data.
    destruct (contribution_returns (yf_get_news c symbol)) as [v1 ->].
    destruct (contribution_returns (fmp_get_stock_news c symbol)) as [v2 ->].
    simpl. destruct (default [] v1 ++ default [] v2)%list as [|a l] eqn:E; [eauto|].
    rewrite deduplicate_news_kept_from. simpl. eauto.
  - unfold _get_analyst_data.
    destruct (contribution_returns (yf_get_analyst_recommendations c symbol)) as [v1 ->].
    destruct (contribution_returns (fmp_get_analyst_estimates c symbol)) as [v2 ->].
    simpl.
    destruct (yf_get_earnings_calendar c symbol) as [[cal|]|e]; simpl.
    + destruct v1, v2; eauto.
    + destruct (fmp_get_earnings_calendar c symbol) as [[cal|]|e]; simpl;
        destruct v1, v2; eauto.
    + destruct v1, v2; eauto.
Qed.

Lemma record_source_keeps (src : option string) (used : list string) (name : string) :
  name ∈ used → name ∈ record_source src used.
Proof.
  intros H. unfold record_source. destruct src as [s|]; [|done].
  case_bool_decide; [done|]. apply elem_of_app. by left.
Qed.

Lemma record_sources_keep (sources : list (option string)) (used : list string)
    (name : string) :
  name ∈ used → name ∈ foldl (fun used src => record_source src used) used sources.
Proof.
  revert used. induction sources as [|src sources IH]; intros used H; simpl; [done|].
  by apply IH, record_source_keeps.
Qed.

Lemma record_sources_first (name : string) (sources : list (option string)) :
  name ∈ foldl (fun used src => record_source src used) [] (Some name :: sources).
Proof. simpl. apply record_sources_keep. set_solver. Qed.

(** Collectors for the example: Yahoo Finance raises on every call, Alpha
    Vantage answers the quote, the others have nothing. *)
Definition alpha_quote : quote :=
  Quote (Some "AAPL") (Some 189.5%float) (Some "alpha_vantage").

Definition down {A} (_ : string) : result (option A) :=
  Raise (RuntimeError "connection refused").

Definition nothing {A} (_ : string) : result (option A) := Ret None.

Definition yahoo_down : clients :=
  Clients down (fun _ => Ret (Some alpha_quote)) nothing
          nothing down nothing
          down nothing nothing
          nothing nothing down nothing
          down nothing
          down nothing down nothing.

Example fetch_with_yahoo_down :
  get_comprehensive_stock_data yahoo_down "2024-03-01T00:00:00" "aapl"
  = Ret (CompanyData "AAPL" "2024-03-01T00:00:00" (Some alpha_quote)
                     None None None None None ["alpha_vantage"]).
Proof. vm_compute. reflexivity. Qed.

(** C7: whatever the collectors do, the comprehensive fetch returns a
    record.  A category all of whose collector calls raised is absent from
    it.  When the preferred quote collector raises or has nothing and the
    second one returns a quote, the record holds that quote and
    [sources_used] holds the source it names. *)
Theorem comprehensive_fetch_isolates_failures (c : clients) (now symbol : string) :
  ∃ r : company_data,
    get_comprehensive_stock_data c now symbol = Ret r
    ∧ (raised (yf_get_quote c symbol) → raised (av_get_quote c symbol) →
       raised (fmp_get_quote c symbol) → quote_data r = None)
    ∧ (raised (av_get_company_overview c symbol) → raised (yf_get_company_info c symbol) →
       raised (fmp_get_company_profile c symbol) → company r = None)
    ∧ (raised (yf_get_daily_data c symbol) → raised (av_get_daily_data c symbol) →
       raised (fmp_get_daily_data c symbol) → historical r = None)
    ∧ (raised (fmp_get_key_metrics c symbol) → raised (fmp_get_financial_ratios c symbol) →
       raised (yf_get_financial_data c symbol) → raised (av_get_earnings c symbol) →
       financial r = None)
    ∧ (raised (yf_get_news c symbol) → raised (fmp_get_stock_news c symbol) →
       news r = None)
    ∧ (raised (yf_get_analyst_recommendations c symbol) →
       raised (fmp_get_analyst_estimates c symbol) →
       raised (yf_get_earnings_calendar c symbol) → analyst r = None)
    ∧ (∀ q : quote,
         failed (yf_get_quote c symbol) → av_get_quote c symbol = Ret (Some q) →
         quote_data r = Some q
         ∧ ∀ name, quote_source q = Some name → name ∈ sources_used r).
Proof.
  eexists. split; [reflexivity|]. cbn [quote_data company historical financial news analyst
                                       sources_used].
  repeat split.
  - intros H1 H2 H3. unfold _get_quote_data.
    rewrite !first_available_failed by by left. done.
  - intros H1 H2 H3. unfold _get_company_data.
    rewrite !first_available_failed by by left. done.
  - intros H1 H2 H3. unfold _get_historical_data.
    rewrite !first_available_failed by by left. done.
  - intros H1 H2 H3 H4. unfold _get_financial_data.
    by rewrite !contribution_raised.
  - intros H1 H2. unfold _get_news_data. by rewrite !contribution_raised.
  - intros H1 H2 [e H3]. unfold _get_analyst_data.
    rewrite !contribution_raised by done. by rewrite H3.
  - unfold _get_quote_data. rewrite first_available_failed by done. by rewrite H0.
  - intros name Hname. unfold _get_quote_data.
    rewrite first_available_failed by done. rewrite H0, first_available_found.
    cbn [gathered mbind option_bind]. rewrite Hname. apply record_sources_first.
Qed.

(** C7 with Yahoo Finance down and Alpha Vantage answering the quote. *)
Lemma comprehensive_fetch_isolates_failures_witness :
  ∃ r : company_data,
    get_comprehensive_stock_data yahoo_down "2024-03-01T00:00:00" "aapl" = Ret r
    ∧ quote_data r = Some alpha_quote
    ∧ "alpha_vantage"%string ∈ sources_used r.
Proof.
  destruct (comprehensive_fetch_isolates_failures yahoo_down "2024-03-01T00:00:00" "aapl")
    as (r & Hr & _ & _ & _ & _ & _ & _ & Hquote).
  exists r. split; [exact Hr|].
  destruct (Hquote alpha_quote) as [Hq Hsrc].
  - left. by eexists.
  - reflexivity.
  - split; [exact Hq|]. by apply Hsrc.
Defined.

End DataFusion.

(** ** The vector store: search and lookup *)

Section StoreQueries.

Import VectorDB.

Lemma py_index_nat {A} (l : list A) (i : nat) :
  py_index l (Z.of_nat i)
  = match l !! i with Some x => Ret x | None => Raise IndexError end.
Proof.
  unfold py_index. destruct (Z.ltb_spec (Z.of_nat i) 0) as [H|H]; [lia|].
  destruct (Z.ltb_spec (Z.of_nat i) 0) as [H'|H']; [lia|]. by rewrite Nat2Z.id.
Qed.

Lemma py_index_elem_of {A} (l : list A) (i : Z) (x : A) :
  py_index l i = Ret x → x ∈ l.
Proof.
  unfold py_index. destruct (_ <? 0)%Z; [done|].
  destruct (l !! _) as [y|] eqn:E; [|done]. intros [= <-].
  eapply list_elem_of_lookup_2. exact E.
Qed.

Lemma py_index_nonneg {A} (l : list A) (i : Z) (x : A) :
  (0 ≤ i)%Z → py_index l i = Ret x → l !! Z.to_nat i = Some x.
Proof.
  intros Hi. unfold py_index.
  destruct (Z.ltb_spec i 0) as [H|H]; [lia|].
  destruct (Z.ltb_spec i 0) as [H'|H']; [lia|].
  by destruct (l !! Z.to_nat i) as [y|]; intros [= <-].
Qed.

(** A hit shows the text and the metadata stored at its index. *)
Definition shows_stored (s : state) (h : hit) : Prop :=
  documents s !! hit_index h = Some (hit_text h)
  ∧ metadata s !! hit_index h = Some (hit_metadata h).

Lemma filtered_results_stored (s : state) (candidate_indices : list nat)
    (found : list (float * Z)) (hits : list hit) :
  filtered_results s candidate_indices found = Ret hits →
  Forall (fun h => shows_stored s h ∧ hit_index h ∈ candidate_indices) hits.
Proof.
  revert hits. induction found as [|[score idx] later IH]; intros hits; simpl.
  - intros [= <-]. constructor.
  - destruct (idx <? Z.of_nat (length candidate_indices))%Z; [|apply IH].
    destruct (py_index candidate_indices idx) as [original_idx|] eqn:Eidx; [|done].
    simpl. rewrite !py_index_nat.
    destruct (documents s !! original_idx) as [t|] eqn:Et; [|done]. simpl.
    destruct (metadata s !! original_idx) as [m|] eqn:Em; [|done]. simpl.
    destruct (filtered_results s candidate_indices later) as [hs|]; [|done]. simpl.
    intros [= <-]. constructor; [|by apply IH].
    split; [by split|]. by eapply py_index_elem_of.
Qed.

Lemma full_results_stored (s : state) (found : list (float * Z)) (hits : list hit) :
  full_results s found = Ret hits → Forall (shows_stored s) hits.
Proof.
  revert hits. induction found as [|[score idx] later IH]; intros hits; simpl.
  - intros [= <-]. constructor.
  - destruct (Z.leb_spec 0 idx) as [Hpos|]; simpl; [|apply IH].
    destruct (idx <? Z.of_nat (length (documents s)))%Z; [|apply IH].
    destruct (py_index (documents s) idx) as [t|] eqn:Et; [|done]. simpl.
    destruct (py_index (metadata s) idx) as [m|] eqn:Em; [|done]. simpl.
    destruct (full_results s later) as [hs|]; [|done]. simpl.
    intros [= <-]. constructor; [|by apply IH].
    split; simpl; by apply py_index_nonneg.
Qed.

(** X1: [search] never raises and never alters the store: the state it leaves
    is the one it found, but for the query sent to the embedding provider,
    once at most, and not at all when the index is empty. *)
Theorem search_leaves_store (e : env) (query : string) (k : nat)
    (symbol_filter : option string) (s : state) :
  (∃ hits : list hit,
     search e query k symbol_filter s = (Ret hits, s)
     ∨ search e query k symbol_filter s = (Ret hits, called [query] s))
  ∧ (index s = [] → search e query k symbol_filter s = (Ret [], s)).
Proof.
  split.
  - unfold search, try_except, bind, get.
    destruct (length (index s) =? 0)%nat; [eexists; left; reflexivity|].
    unfold call_embeddings. fold (called [query] s).
    destruct (get_embeddings e (embedding_calls s) [query]) as [[|v vs]|];
      [eexists; right; reflexivity| |eexists; right; reflexivity].
    unfold lift. destruct (normalized_array e (v :: vs)) as [a|x];
      [|eexists; right; reflexivity].
    destruct (truthy_str symbol_filter) as [sym|].
    + destruct (default [] (company_index s !! PyStr.upper sym)) as [|c cs];
        [eexists; right; reflexivity|].
      destruct (collect (reconstruct (index s)) (c :: cs));
        [|eexists; right; reflexivity].
      destruct (knn e (rows a) a0 (Nat.min k (length (c :: cs))));
        [|eexists; right; reflexivity].
      destruct (filtered_results s (c :: cs) a1); eexists; right; reflexivity.
    + destruct (index_search e (index s) (rows a) k); [|eexists; right; reflexivity].
      destruct (full_results s a0); eexists; right; reflexivity.
  - intros H. unfold search, try_except, bind, get. by rewrite H.
Qed.

(** X2: Every hit of [search] shows the text and metadata stored at its index;
    with a symbol filter, the index is one the symbol index lists under the
    uppercased filter. *)
Theorem search_hits_are_stored (e : env) (query : string) (k : nat)
    (symbol_filter : option string) (s : state) :
  match fst (search e query k symbol_filter s) with
  | Ret hits =>
      Forall (fun h =>
                shows_stored s h
                ∧ ∀ sym, truthy_str symbol_filter = Some sym →
                    hit_index h ∈ default [] (company_index s !! PyStr.upper sym))
             hits
  | Raise _ => False
  end.
Proof.
  unfold search, try_except, bind, get.
  destruct (length (index s) =? 0)%nat; [simpl; constructor|].
  unfold call_embeddings.
  destruct (get_embeddings e (embedding_calls s) [query]) as [[|v vs]|];
    [simpl; constructor| |simpl; constructor].
  unfold lift. destruct (normalized_array e (v :: vs)) as [a|x]; [|simpl; constructor].
  destruct (truthy_str symbol_filter) as [sym|].
  - destruct (default [] (company_index s !! PyStr.upper sym)) as [|c cs] eqn:Ecand;
      [simpl; constructor|].
    destruct (collect (reconstruct (index s)) (c :: cs)); [|simpl; constructor].
    destruct (knn e (rows a) a0 (Nat.min k (length (c :: cs)))); [|simpl; constructor].
    destruct (filtered_results s (c :: cs) a1) as [hits|] eqn:Ehits; [|simpl; constructor].
    simpl. apply filtered_results_stored in Ehits.
    eapply Forall_impl; [exact Ehits|]. intros h [Hs Hin]. split; [exact Hs|].
    intros sym' [= <-]. by rewrite Ecand.
  - destruct (index_search e (index s) (rows a) k); [|simpl; constructor].
    destruct (full_results s a0) as [hits|] eqn:Ehits; [|simpl; constructor].
    simpl. apply full_results_stored in Ehits.
    eapply Forall_impl; [exact Ehits|]. intros h Hs. split; [exact Hs|]. done.
Qed.

End StoreQueries.

(** ** The vector store: ingestion and lookup together *)

Section StoreUpdates.

Import VectorDB.
Local Open Scope nat_scope.

(** An embedding provider that answers every request with one vector per
    text, of the dimension of the index. *)
Definition reliable (e : env) : Prop :=
  ∀ calls texts, ∃ embeddings,
    get_embeddings e calls texts = Some embeddings
    ∧ length embeddings = length texts
    ∧ Forall (fun v => length v = dimension e) embeddings.

Lemma working_reliable : reliable working.
Proof.
  intros calls texts. eexists. split; [reflexivity|].
  split; [by rewrite length_map|]. apply Forall_forall. intros v Hv.
  apply list_elem_of_fmap in Hv as (t & -> & _). reflexivity.
Qed.

(** The state after a batch was stored with the rows [vectors]. *)
Definition stored_batch (docs : list document) (vectors : list vector) (s : state) : state :=
  store_documents (length (documents s)) 0 docs
    (set_index (index s ++ vectors) (called (map text docs) s)).

Lemma add_documents_stores_batch (e : env) (docs : list document) (s : state)
    (embeddings : list vector) :
  get_embeddings e (embedding_calls s) (map text docs) = Some embeddings →
  docs ≠ [] →
  length embeddings = length docs →
  Forall (fun v => length v = dimension e) embeddings →
  _add_documents e docs s = (Ret tt, stored_batch docs (map (normalize_L2 e) embeddings) s).
Proof.
  intros Hemb Hdocs Hlen Hdim.
  destruct embeddings as [|v vs]; [by destruct docs|].
  rewrite (add_documents_run e docs s v vs Hemb). cbv zeta.
  unfold np_array. rewrite (same_width_dimension _ _ Hdim).
  unfold index_add, faiss_normalize_L2. cbn [width rows hd].
  apply Forall_cons in Hdim as [Hv _]. rewrite Hv, Nat.eqb_refl. reflexivity.
Qed.

Lemma stored_batch_fields (docs : list document) (vectors : list vector) (s : state) :
  let s' := stored_batch docs vectors s in
  index s' = (index s ++ vectors)%list
  ∧ documents s' = (documents s ++ map text docs)%list
  ∧ metadata s' = (metadata s ++ docs)%list
  ∧ company_index s'
    = index_docs symbol (length (documents s)) docs (company_index s).
Proof.
  unfold stored_batch.
  destruct (store_documents_fields (length (documents s)) 0 docs
              (set_index (index s ++ vectors) (called (map text docs) s)))
    as (H1 & H2 & H3 & _).
  cbv zeta. rewrite H1, H2, H3, store_documents_index, Nat.add_0_r. done.
Qed.

Lemma stored_batch_consistent (docs : list document) (vectors : list vector) (s : state) :
  consistent s → length vectors = length docs →
  consistent (stored_batch docs vectors s).
Proof.
  intros (Hdm & Hmi & Hpos) Hlen.
  destruct (stored_batch_fields docs vectors s) as (H1 & H2 & H3 & _).
  split; [|split].
  - rewrite H2, H3, !length_app, length_map. lia.
  - rewrite H1, H3, !length_app. lia.
  - intros sym positions p Hlook Hp. rewrite H2, length_app, length_map.
    unfold stored_batch in Hlook.
    apply (store_documents_positions _ _ _ _ _ _ _ Hlook) in Hp
      as [(old & Hold & Hin)|Hrange]; simpl in *.
    + specialize (Hpos _ _ _ Hold Hin). lia.
    + lia.
Qed.

(** *** The documents built from a record *)

(** A block of [add_company_data] gives at most [bound] documents, all
    under the symbol of the call, and reads the clock once for each. *)
Definition builds (sym : string) (bound : nat) (m : M (list document)) : Prop :=
  ∀ s, ∃ docs, m s = (Ret docs, tick (length docs) s)
               ∧ Forall (fun d => symbol d = sym) docs
               ∧ length docs ≤ bound.

Lemma builds_nil (sym : string) (bound : nat) : builds sym bound (ret []).
Proof. intros s. exists []. rewrite tick_0. repeat split; [constructor|simpl; lia]. Qed.

Lemma builds_one (e : env) (txt ty sym : string) (ad src : option string) :
  builds sym 1 (do d <- stamped e txt ty sym ad src; ret [d]).
Proof.
  intros s. eexists [_]. split; [reflexivity|]. split; [|done].
  by repeat constructor.
Qed.

Lemma builds_news (e : env) (sym : string) (articles : list Data.article) :
  builds sym (length articles) (news_documents e sym articles).
Proof.
  induction articles as [|a l IH]; [apply builds_nil|].
  intros s. simpl. unfold bind at 1. unfold stamped at 1, bind at 1, isoformat_now, ret at 1.
  unfold bind at 1.
  destruct (IH (tick 1 s)) as (ds & Eds & Hsym & Hlen). unfold tick at 1 in Eds.
  simpl in Eds. rewrite Eds. eexists (_ :: ds). unfold ret.
  split; [f_equal; by rewrite tick_tick|].
  split; [by constructor|simpl; lia].
Qed.

Lemma builds_documents_of (e : env) (sym : string) (cd : Data.company_data) :
  builds sym 14 (documents_of e sym cd).
Proof.
  assert (H1 : builds sym 1 (overview_documents e sym cd)).
  { unfold overview_documents. destruct (Data.company cd);
      [apply builds_one|apply builds_nil]. }
  assert (H2 : builds sym 1 (financial_documents e sym cd)).
  { unfold financial_documents. destruct (Data.financial cd);
      [apply builds_one|apply builds_nil]. }
  assert (H3 : builds sym 1 (historical_documents e sym cd)).
  { unfold historical_documents. destruct (Data.historical cd) as [h|];
      [|apply builds_nil].
    destruct (format_historical_returns sym h) as [t Et]. rewrite Et.
    intros s. destruct (builds_one e t "historical_data" sym None None s) as (docs & E).
    exists docs. exact E. }
  assert (H4 : builds sym 10 (article_documents e sym cd)).
  { unfold article_documents. destruct (Data.news cd) as [articles|];
      [|apply builds_nil].
    intros s. destruct (builds_news e sym (take 10 articles) s) as (docs & E & Hs & Hl).
    exists docs. split; [exact E|]. split; [exact Hs|].
    rewrite length_take in Hl. lia. }
  assert (H5 : builds sym 1 (analyst_documents e sym cd)).
  { unfold analyst_documents. destruct (Data.analyst cd);
      [apply builds_one|apply builds_nil]. }
  intros s. unfold documents_of, bind.
  destruct (H1 s) as (d1 & -> & S1 & L1).
  destruct (H2 (tick (length d1) s)) as (d2 & -> & S2 & L2).
  destruct (H3 (tick (length d2) (tick (length d1) s))) as (d3 & -> & S3 & L3).
  destruct (H4 (tick (length d3) (tick (length d2) (tick (length d1) s))))
    as (d4 & -> & S4 & L4).
  destruct (H5 (tick (length d4) (tick (length d3) (tick (length d2)
                 (tick (length d1) s))))) as (d5 & -> & S5 & L5).
  exists (d1 ++ d2 ++ d3 ++ d4 ++ d5)%list. unfold ret.
  split; [rewrite !tick_tick, !length_app; do 2 f_equal; lia|].
  split; [by repeat apply Forall_app_2|]. rewrite !length_app. lia.
Qed.

(** What [add_company_data] does with a reliable provider. *)
Lemma add_company_data_reliable (e : env) (sym : string) (cd : Data.company_data)
    (s : state) :
  reliable e →
  ∃ (docs : list document) (vectors : list vector),
    Forall (fun d => symbol d = sym) docs
    ∧ length docs ≤ 14
    ∧ length vectors = length docs
    ∧ add_company_data e sym cd s
      = match docs with
        | [] => (Ret false, s)
        | _ => (Ret true, stored_batch docs vectors (tick (length docs) s))
        end.
Proof.
  intros Hrel. destruct (builds_documents_of e sym cd s) as (docs & Edocs & Hsym & Hlen).
  destruct (Hrel (embedding_calls (tick (length docs) s)) (map text docs))
    as (embeddings & Hemb & Hl & Hdim).
  rewrite length_map in Hl.
  exists docs, (map (normalize_L2 e) embeddings).
  split; [exact Hsym|]. split; [exact Hlen|]. split; [by rewrite length_map|].
  unfold add_company_data, try_except, bind. rewrite Edocs.
  destruct docs as [|d docs]; [by rewrite tick_0|].
  by rewrite (add_documents_stores_batch e (d :: docs) _ embeddings Hemb).
Qed.

(** X4: With a reliable embedding provider, [add_company_data] returns and keeps
    the store consistent.  It appends at most 14 documents (one per
    category, ten for the news), all under the symbol of the call, and
    answers [True] exactly when it appended some. *)
Theorem add_company_data_keeps_store_consistent (e : env) (sym : string)
    (cd : Data.company_data) (s : state) :
  reliable e → consistent s →
  ∃ (answer : bool) (s' : state) (docs : list document),
    add_company_data e sym cd s = (Ret answer, s')
    ∧ consistent s'
    ∧ documents s' = (documents s ++ map text docs)%list
    ∧ metadata s' = (metadata s ++ docs)%list
    ∧ length (index s') = length (index s) + length docs
    ∧ Forall (fun d => symbol d = sym) docs
    ∧ length docs ≤ 14
    ∧ (answer = true ↔ docs ≠ []).
Proof.
  intros Hrel Hs.
  destruct (add_company_data_reliable e sym cd s Hrel)
    as (docs & vectors & Hsym & Hlen & Hvec & Hrun).
  destruct docs as [|d docs].
  - exists false, s, []. rewrite !app_nil_r.
    split; [exact Hrun|]. split; [exact Hs|]. split; [done|]. split; [done|].
    split; [simpl; lia|]. split; [exact Hsym|]. split; [exact Hlen|]. done.
  - exists true, (stored_batch (d :: docs) vectors (tick (length (d :: docs)) s)), (d :: docs).
    destruct (stored_batch_fields (d :: docs) vectors (tick (length (d :: docs)) s))
      as (H1 & H2 & H3 & _).
    split; [exact Hrun|]. split.
    { apply stored_batch_consistent; [|exact Hvec].
      by eapply consistent_same_store; [..|exact Hs]. }
    split; [exact H2|]. split; [exact H3|].
    split; [rewrite H1, length_app; simpl in *; lia|].
    split; [exact Hsym|]. split; [exact Hlen|]. done.
Qed.

(** The record of a company with a profile and twelve news articles. *)
Definition busy_record : Data.company_data :=
  Data.CompanyData "AAPL" "2024-03-01T00:00:00" None
    (Some (Data.CompanyInfo (Some "Apple Inc.") None None None None None None))
    None None
    (Some (replicate 12 (Data.Article (Some "Apple news") None (Some "2024-03-01")
                                      None None None (Some "yahoo_finance"))))
    None [].

Example add_busy_record :
  let '(answer, s') := add_company_data working "AAPL" busy_record empty_store in
  (answer, length (documents s'), length (index s'), company_index s' !! "AAPL"%string)
  = (Ret true, 11, 11, Some [0; 1; 2; 3; 4; 5; 6; 7; 8; 9; 10]).
Proof. vm_compute. reflexivity. Qed.

Lemma add_company_data_keeps_store_consistent_witness :
  ∃ (answer : bool) (s' : state) (docs : list document),
    add_company_data working "AAPL" busy_record empty_store = (Ret answer, s')
    ∧ consistent s'
    ∧ documents s' = (documents empty_store ++ map text docs)%list
    ∧ metadata s' = (metadata empty_store ++ docs)%list
    ∧ length (index s') = length (index empty_store) + length docs
    ∧ Forall (fun d => symbol d = "AAPL"%string) docs
    ∧ length docs ≤ 14
    ∧ (answer = true ↔ docs ≠ []).
Proof.
  apply (add_company_data_keeps_store_consistent working "AAPL" busy_record empty_store).
  - exact working_reliable.
  - split; [done|]. split; [done|]. intros sym positions i H. simpl in H.
    by rewrite lookup_empty in H.
Defined.

(** *** Lookup by symbol *)

Lemma to_upper_idempotent (c : ascii) : PyStr.to_upper (PyStr.to_upper c) = PyStr.to_upper c.
Proof. destruct c as [[] [] [] [] [] [] [] []]; reflexivity. Qed.

Lemma upper_idempotent (t : string) : PyStr.upper (PyStr.upper t) = PyStr.upper t.
Proof.
  induction t as [|c t IH]; [done|].
  unfold PyStr.upper in *. simpl. by rewrite to_upper_idempotent, IH.
Qed.

(** An entry shows what the store holds at its position. *)
Definition entry_stored (s : state) (d : stored) : Prop :=
  documents s !! stored_index d = Some (stored_text d)
  ∧ metadata s !! stored_index d = Some (stored_metadata d).

Lemma documents_at_raises (s : state) (indices : list nat) (x : exn) :
  documents_at s indices = Raise x → x = IndexError.
Proof.
  induction indices as [|idx later IH]; simpl; [done|].
  destruct (idx <? length (documents s)); [|exact IH].
  rewrite !py_index_nat.
  destruct (documents s !! idx); simpl; [|by intros [= <-]].
  destruct (metadata s !! idx); simpl; [|by intros [= <-]].
  destruct (documents_at s later); simpl; [done|]. intros [= <-]. by apply IH.
Qed.

Lemma documents_at_returns (s : state) (indices : list nat) (ds : list stored) :
  documents_at s indices = Ret ds →
  Forall (entry_stored s) ds
  ∧ map stored_index ds = filter (fun idx => idx < length (documents s)) indices
  ∧ ∀ idx, idx ∈ indices → idx < length (documents s) → idx < length (metadata s).
Proof.
  revert ds. induction indices as [|idx later IH]; intros ds; simpl.
  - intros [= <-]. split; [constructor|]. split; [done|]. by intros idx ?%elem_of_nil.
  - destruct (Nat.ltb_spec idx (length (documents s))) as [Hlt|Hge].
    + rewrite !py_index_nat.
      destruct (documents s !! idx) as [t|] eqn:Et; simpl; [|done].
      destruct (metadata s !! idx) as [m|] eqn:Em; simpl; [|done].
      destruct (documents_at s later) as [ds'|]; simpl; [|done].
      intros [= <-]. destruct (IH ds' eq_refl) as (H1 & H2 & H3).
      split; [constructor; [by split|exact H1]|]. split.
      * rewrite filter_cons_True by done. simpl. by rewrite H2.
      * intros i [->|Hi]%elem_of_cons; [|by apply H3].
        intros _. by eapply lookup_lt_Some.
    + intros Hds. destruct (IH ds Hds) as (H1 & H2 & H3).
      split; [exact H1|]. split.
      * rewrite filter_cons_False by lia. exact H2.
      * intros i [->|Hi]%elem_of_cons; [lia|by apply H3].
Qed.

Lemma documents_at_consistent (s : state) (indices : list nat) :
  length (documents s) = length (metadata s) →
  ∃ ds, documents_at s indices = Ret ds.
Proof.
  intros Hlen. induction indices as [|idx later [ds IH]]; simpl; [eauto|].
  destruct (Nat.ltb_spec idx (length (documents s))) as [Hlt|Hge]; [|eauto].
  rewrite !py_index_nat.
  destruct (lookup_lt_is_Some_2 (documents s) idx Hlt) as [t ->].
  destruct (lookup_lt_is_Some_2 (metadata s) idx) as [m ->]; [lia|].
  simpl. rewrite IH. simpl. eauto.
Qed.

Lemma filter_all {A} (P : A → Prop) `{∀ x, Decision (P x)} (l : list A) :
  (∀ x, x ∈ l → P x) → filter P l = l.
Proof.
  induction l as [|x l IH]; intros Hall; [done|].
  rewrite filter_cons_True by (apply Hall; left). rewrite IH; [done|].
  intros y Hy. apply Hall. by right.
Qed.

(** X3: On a consistent store [get_company_documents] returns one entry for
    each position the symbol index lists under the uppercased symbol, in
    order, each with the text and metadata stored there; the case of the
    argument does not matter.  On a store whose metadata list is too short
    for a listed document, it raises [IndexError]. *)
Theorem get_company_documents_lists_positions (sym : string) (s : state) :
  (consistent s →
   ∃ ds, get_company_documents sym s = Ret ds
         ∧ map stored_index ds = default [] (company_index s !! PyStr.upper sym)
         ∧ Forall (entry_stored s) ds)
  ∧ get_company_documents (PyStr.upper sym) s = get_company_documents sym s
  ∧ (∀ idx, idx ∈ default [] (company_index s !! PyStr.upper sym) →
       idx < length (documents s) → length (metadata s) ≤ idx →
       get_company_documents sym s = Raise IndexError).
Proof.
  split; [|split].
  - intros (Hdm & Hmi & Hpos). unfold get_company_documents.
    destruct (documents_at_consistent s (default [] (company_index s !! PyStr.upper sym)) Hdm)
      as [ds Hds].
    exists ds. split; [exact Hds|].
    destruct (documents_at_returns _ _ _ Hds) as (H1 & H2 & _).
    split; [|exact H1]. rewrite H2. apply filter_all.
    intros p Hp. destruct (company_index s !! PyStr.upper sym) as [positions|] eqn:E.
    + by eapply Hpos.
    + by apply elem_of_nil in Hp.
  - unfold get_company_documents. by rewrite upper_idempotent.
  - intros idx Hin Hlt Hge. unfold get_company_documents.
    destruct (documents_at s (default [] (company_index s !! PyStr.upper sym)))
      as [ds|x] eqn:E.
    + apply documents_at_returns in E as (_ & _ & H). specialize (H idx Hin Hlt). lia.
    + f_equal. by eapply documents_at_raises.
Qed.

Lemma two_companies_consistent : consistent two_companies.
Proof.
  split; [done|]. split; [done|]. intros sym positions i H Hi.
  unfold two_companies in *. cbn [company_index documents length] in *.
  destruct (decide (sym = "AAPL"%string)) as [->|H1].
  { rewrite lookup_insert_eq in H. injection H as <-. set_solver by lia. }
  rewrite lookup_insert_ne in H by done.
  destruct (decide (sym = "MSFT"%string)) as [->|H2].
  { rewrite lookup_singleton_eq in H. injection H as <-. set_solver by lia. }
  by rewrite lookup_singleton_ne in H.
Qed.

Lemma get_company_documents_lists_positions_witness :
  ∃ ds, get_company_documents "aapl" two_companies = Ret ds
        ∧ map stored_index ds = default [] (company_index two_companies !! "AAPL"%string)
        ∧ Forall (entry_stored two_companies) ds.
Proof.
  apply (proj1 (get_company_documents_lists_positions "aapl" two_companies)).
  exact two_companies_consistent.
Defined.

(** *** Ingestion followed by lookup *)

(** The text list mirrors the metadata and the symbol index is exact. *)
Definition indexed (s : state) : Prop :=
  documents s = map text (metadata s) ∧ symbol_indexed s.

(** The entries of the documents filed under [sym], counted from [i]. *)
Fixpoint entries_from (sym : string) (i : nat) (metas : list document) : list stored :=
  match metas with
  | [] => []
  | m :: later =>
      if String.eqb (symbol m) sym then Stored (text m) m i :: entries_from sym (S i) later
      else entries_from sym (S i) later
  end.

Lemma documents_at_positions (s : state) (sym : string) (i : nat) (suffix : list document) :
  documents s = map text (metadata s) →
  drop i (metadata s) = suffix →
  documents_at s (positions_from symbol sym i suffix) = Ret (entries_from sym i suffix).
Proof.
  intros Hdocs. revert i. induction suffix as [|m later IH]; intros i Hdrop; [done|].
  assert (Hm : metadata s !! i = Some m).
  { rewrite <- (Nat.add_0_r i), <- lookup_drop, Hdrop. done. }
  assert (Hlater : drop (S i) (metadata s) = later).
  { rewrite (drop_S _ _ _ Hm) in Hdrop. by injection Hdrop. }
  simpl. destruct (String.eqb (symbol m) sym); [|by apply IH].
  simpl. assert (Hlt : i < length (documents s)).
  { rewrite Hdocs, length_map. by eapply lookup_lt_Some. }
  apply Nat.ltb_lt in Hlt. rewrite Hlt, !py_index_nat, Hm, Hdocs, list_lookup_fmap, Hm.
  simpl. rewrite (IH (S i) Hlater). done.
Qed.

Lemma get_company_documents_indexed (sym : string) (s : state) :
  indexed s →
  get_company_documents sym s = Ret (entries_from (PyStr.upper sym) 0 (metadata s)).
Proof.
  intros [Hdocs Hidx]. unfold get_company_documents. rewrite Hidx.
  rewrite <- (documents_at_positions s (PyStr.upper sym) 0 (metadata s) Hdocs eq_refl).
  by destruct (positions_from symbol (PyStr.upper sym) 0 (metadata s)).
Qed.

Lemma entries_from_app (sym : string) (i : nat) (l1 l2 : list document) :
  entries_from sym i (l1 ++ l2)
  = (entries_from sym i l1 ++ entries_from sym (i + length l1) l2)%list.
Proof.
  revert i. induction l1 as [|m l1 IH]; intros i; simpl.
  - by rewrite Nat.add_0_r.
  - rewrite IH, Nat.add_succ_r. by destruct (String.eqb (symbol m) sym).
Qed.

Lemma entries_from_all (sym : string) (i : nat) (docs : list document) :
  Forall (fun d => symbol d = sym) docs →
  map stored_metadata (entries_from sym i docs) = docs
  ∧ map stored_text (entries_from sym i docs) = map text docs
  ∧ map stored_index (entries_from sym i docs) = seq i (length docs).
Proof.
  intros H. revert i. induction H as [|d docs Hd _ IH]; intros i; [done|].
  simpl. rewrite Hd, String.eqb_refl. simpl.
  destruct (IH (S i)) as (-> & -> & ->). done.
Qed.

Lemma entries_from_none (sym : string) (i : nat) (docs : list document) :
  Forall (fun d => symbol d ≠ sym) docs → entries_from sym i docs = [].
Proof.
  intros H. revert i. induction H as [|d docs Hd _ IH]; intros i; [done|].
  simpl. destruct (String.eqb_spec (symbol d) sym); [done|apply IH].
Qed.

Lemma stored_batch_indexed (docs : list document) (vectors : list vector) (s : state) :
  indexed s → indexed (stored_batch docs vectors s).
Proof.
  intros [Hdocs Hidx].
  destruct (stored_batch_fields docs vectors s) as (_ & H2 & H3 & H4).
  split; [by rewrite H2, H3, map_app, Hdocs|].
  intros sym. rewrite H4, H3, index_docs_lookup, positions_from_app, Hidx.
  rewrite Hdocs, length_map. simpl.
  destruct (positions_from symbol sym 0 (metadata s)) as [|p ps];
    destruct (positions_from symbol sym (length (metadata s)) docs); simpl;
    by rewrite ?app_nil_r.
Qed.

Lemma tick_indexed (n : nat) (s : state) : indexed s → indexed (tick n s).
Proof. done. Qed.

(** X5: Round trip: with a reliable provider and an uppercase symbol, the
    documents [add_company_data] stores are what [get_company_documents]
    returns for that symbol after the entries it returned before, in the
    order of ingestion and at consecutive positions. *)
Theorem add_then_get_company_documents (e : env) (sym : string)
    (cd : Data.company_data) (s : state) :
  reliable e → indexed s → PyStr.upper sym = sym →
  ∃ (answer : bool) (s' : state) (before added : list stored),
    add_company_data e sym cd s = (Ret answer, s')
    ∧ get_company_documents sym s = Ret before
    ∧ get_company_documents sym s' = Ret (before ++ added)%list
    ∧ (metadata s ++ map stored_metadata added)%list = metadata s'
    ∧ map stored_index added = seq (length (metadata s)) (length added)
    ∧ Forall (fun d => stored_text d = text (stored_metadata d)) added
    ∧ (answer = true ↔ added ≠ []).
Proof.
  intros Hrel Hidx Hup.
  destruct (add_company_data_reliable e sym cd s Hrel)
    as (docs & vectors & Hsym & Hlen & Hvec & Hrun).
  assert (Hs' : ∃ s', add_company_data e sym cd s = (Ret (bool_decide (docs ≠ [])), s')
                      ∧ indexed s' ∧ metadata s' = (metadata s ++ docs)%list).
  { destruct docs as [|d docs].
    - exists s. rewrite app_nil_r. by rewrite Hrun.
    - eexists. split; [exact Hrun|]. split.
      + by apply stored_batch_indexed, tick_indexed.
      + by destruct (stored_batch_fields (d :: docs) vectors
                       (tick (length (d :: docs)) s)) as (_ & _ & -> & _). }
  destruct Hs' as (s' & Hadd & Hidx' & Hmeta).
  destruct (entries_from_all sym (length (metadata s)) docs Hsym) as (Hm & Ht & Hi).
  exists (bool_decide (docs ≠ [])), s', (entries_from sym 0 (metadata s)),
    (entries_from sym (length (metadata s)) docs).
  split; [exact Hadd|].
  split; [by rewrite (get_company_documents_indexed sym s Hidx), Hup|].
  split; [by rewrite (get_company_documents_indexed sym s' Hidx'), Hup, Hmeta,
             entries_from_app|].
  split; [by rewrite Hm|].
  split; [by rewrite Hi, <- (length_map stored_metadata (entries_from _ _ _)), Hm|].
  split.
  - apply Forall_forall. intros d Hd.
    clear -Hd. revert Hd. generalize (length (metadata s)).
    induction docs as [|m docs IH]; intros i Hd; simpl in Hd; [by apply elem_of_nil in Hd|].
    destruct (String.eqb (symbol m) sym); [|by eapply IH].
    apply elem_of_cons in Hd as [->|Hd]; [done|by eapply IH].
  - rewrite bool_decide_eq_true.
    split; intros H Hnil; apply H; [by rewrite <- Hm, Hnil|].
    by rewrite Hnil.
Qed.

Lemma empty_store_indexed : indexed empty_store.
Proof. split; [done|]. intros sym. apply lookup_empty. Qed.

Lemma add_then_get_company_documents_witness :
  ∃ (answer : bool) (s' : state) (before added : list stored),
    add_company_data working "AAPL" busy_record empty_store = (Ret answer, s')
    ∧ get_company_documents "AAPL" empty_store = Ret before
    ∧ get_company_documents "AAPL" s' = Ret (before ++ added)%list
    ∧ (metadata empty_store ++ map stored_metadata added)%list = metadata s'
    ∧ map stored_index added = seq (length (metadata empty_store)) (length added)
    ∧ Forall (fun d => stored_text d = text (stored_metadata d)) added
    ∧ (answer = true ↔ added ≠ []).
Proof.
  apply (add_then_get_company_documents working "AAPL" busy_record empty_store).
  - exact working_reliable.
  - exact empty_store_indexed.
  - reflexivity.
Defined.

(** *** Symbols that are not uppercase *)

Lemma remove_unknown_symbol (loop : bool) (sym : string) (s : state) :
  default [] (company_index s !! PyStr.upper sym) = [] →
  remove_company_data loop sym s = (Ret false, s).
Proof. intros H. unfold remove_company_data, try_except, bind, get. by rewrite H. Qed.

Lemma positions_from_other_symbol (sym sym' : string) (i : nat) (docs : list document) :
  sym' ≠ sym → Forall (fun d => symbol d = sym) docs →
  positions_from symbol sym' i docs = [].
Proof.
  intros Hne Hdocs. apply positions_from_nil_iff. intros m Hm.
  rewrite Forall_forall in Hdocs. by rewrite (Hdocs m Hm).
Qed.

(** X6: [add_company_data] files the documents under the symbol as it is given,
    the other methods look a symbol up through [symbol.upper()].  So, when
    the symbol of the call is not uppercase (and the store holds nothing
    under its uppercase form), what a reliable run adds is in the store but
    cannot be reached through that symbol: [get_company_documents] returns
    the empty list, a search filtered to the symbol returns the empty list,
    and [remove_company_data] returns [False] and removes nothing. *)
Theorem add_company_data_symbol_case (e : env) (sym : string)
    (cd : Data.company_data) (s : state) :
  reliable e → PyStr.upper sym ≠ sym →
  default [] (company_index s !! PyStr.upper sym) = [] →
  ∃ (answer : bool) (s' : state),
    add_company_data e sym cd s = (Ret answer, s')
    ∧ (answer = true →
       length (documents s) < length (documents s')
       ∧ ∃ positions, company_index s' !! sym = Some positions ∧ positions ≠ [])
    ∧ get_company_documents sym s' = Ret []
    ∧ (∀ e' query k, fst (search e' query k (Some sym) s') = Ret [])
    ∧ (∀ loop, remove_company_data loop sym s' = (Ret false, s')).
Proof.
  intros Hrel Hcase Hnone.
  destruct (add_company_data_reliable e sym cd s Hrel)
    as (docs & vectors & Hsym & _ & _ & Hrun).
  assert (Hsym0 : sym ≠ ""%string) by (by intros ->).
  destruct docs as [|d docs].
  - exists false, s. split; [exact Hrun|]. split; [done|].
    split; [by unfold get_company_documents; rewrite Hnone|].
    split; [intros; by apply search_unknown_symbol|].
    intros loop. by apply remove_unknown_symbol.
  - set (s' := stored_batch (d :: docs) vectors (tick (length (d :: docs)) s)) in *.
    destruct (stored_batch_fields (d :: docs) vectors (tick (length (d :: docs)) s))
      as (_ & H2 & _ & H4). fold s' in H2, H4.
    assert (Hnone' : default [] (company_index s' !! PyStr.upper sym) = []).
    { rewrite H4, index_docs_lookup,
        (positions_from_other_symbol sym (PyStr.upper sym)); done. }
    exists true, s'. split; [exact Hrun|]. split.
    { intros _. split; [rewrite H2, length_app; simpl; lia|].
      rewrite H4, index_docs_lookup. cbn [positions_from].
      apply Forall_cons in Hsym as [-> _]. rewrite String.eqb_refl.
      eexists. split; [reflexivity|]. intros H.
      apply (f_equal (@length _)) in H. rewrite length_app in H. simpl in H. lia. }
    split; [by unfold get_company_documents; rewrite Hnone'|].
    split; [intros; by apply search_unknown_symbol|].
    intros loop. by apply remove_unknown_symbol.
Qed.

Lemma add_company_data_symbol_case_witness :
  ∃ (answer : bool) (s' : state),
    add_company_data working "aapl" busy_record empty_store = (Ret answer, s')
    ∧ (answer = true →
       length (documents empty_store) < length (documents s')
       ∧ ∃ positions, company_index s' !! "aapl"%string = Some positions ∧ positions ≠ [])
    ∧ get_company_documents "aapl" s' = Ret []
    ∧ (∀ e' query k, fst (search e' query k (Some "aapl"%string) s') = Ret [])
    ∧ (∀ loop, remove_company_data loop "aapl" s' = (Ret false, s')).
Proof.
  apply (add_company_data_symbol_case working "aapl" busy_record empty_store).
  - exact working_reliable.
  - vm_compute. discriminate.
  - reflexivity.
Defined.

(** *** Rebuilding the index *)

Lemma rebuild_index_run (e : env) (s : state) :
  documents s ≠ [] →
  ∃ idx, _rebuild_index e s = (Ret tt, set_index idx (called (documents s) s))
         ∧ (get_embeddings e (embedding_calls s) (documents s) = None → idx = index s).
Proof.
  intros Hdocs. unfold _rebuild_index, try_except, bind, get, call_embeddings.
  destruct (documents s) as [|d ds] eqn:Ed; [done|].
  destruct (get_embeddings e (embedding_calls s) (d :: ds)) as [[|v vs]|] eqn:Eemb;
    [by exists (index s); unfold set_index, called, ret; simpl; rewrite Ed
    |
    |by exists (index s); unfold set_index, called, ret; simpl; rewrite Ed].
  unfold put, lift, normalized_array, np_array.
  destruct (same_width (v :: vs));
    [|by exists []; unfold set_index, called, ret; simpl; rewrite Ed].
  unfold index_add, faiss_normalize_L2. cbn [rbind width rows hd].
  destruct (length v =? dimension e);
    [|by exists []; unfold set_index, called, ret; simpl; rewrite Ed].
  eexists. split; [unfold set_index, called; simpl; rewrite Ed; reflexivity|done].
Qed.

Lemma rebuild_index_reliable (e : env) (s : state) :
  reliable e → documents s ≠ [] →
  ∃ embeddings,
    length embeddings = length (documents s)
    ∧ _rebuild_index e s
      = (Ret tt, set_index (map (normalize_L2 e) embeddings) (called (documents s) s)).
Proof.
  intros Hrel Hdocs.
  destruct (Hrel (embedding_calls s) (documents s)) as (embeddings & Hemb & Hlen & Hdim).
  exists embeddings. split; [exact Hlen|].
  unfold _rebuild_index, try_except, bind, get, call_embeddings.
  destruct (documents s) as [|d ds] eqn:Ed; [done|]. rewrite Hemb.
  destruct embeddings as [|v vs]; [done|].
  unfold put, lift, normalized_array, np_array.
  rewrite (same_width_dimension _ _ Hdim). unfold index_add, faiss_normalize_L2.
  cbn [rbind width rows hd]. apply Forall_cons in Hdim as [Hv _].
  rewrite Hv, Nat.eqb_refl. unfold set_index, called. simpl. rewrite Ed. reflexivity.
Qed.

(** X7: [_rebuild_index] never raises and never changes the documents.  On a
    store without documents it resets the index, the metadata and the symbol
    index without asking for embeddings; otherwise it asks once, for all the
    documents, and keeps the metadata and the symbol index, and it keeps the
    index it found when the provider gives no embeddings.  With a reliable
    provider the index it leaves has one row per document. *)
Theorem rebuild_index_keeps_documents (e : env) (s : state) :
  ∃ s' : state,
    _rebuild_index e s = (Ret tt, s')
    ∧ documents s' = documents s
    ∧ (documents s = [] →
       index s' = [] ∧ metadata s' = [] ∧ company_index s' = ∅
       ∧ embedding_calls s' = embedding_calls s)
    ∧ (documents s ≠ [] →
       metadata s' = metadata s ∧ company_index s' = company_index s
       ∧ embedding_calls s' = (embedding_calls s ++ [documents s])%list
       ∧ (get_embeddings e (embedding_calls s) (documents s) = None →
          index s' = index s))
    ∧ (reliable e → length (index s') = length (documents s')).
Proof.
  destruct (documents s) as [|d ds] eqn:Ed.
  - exists (_create_new_index s).
    split; [by unfold _rebuild_index, try_except, bind, get; rewrite Ed|].
    split; [done|]. split; [done|]. split; [done|]. done.
  - destruct (rebuild_index_run e s) as (idx & Hrun & Hidx); [by rewrite Ed|].
    exists (set_index idx (called (documents s) s)).
    split; [exact Hrun|]. split; [exact Ed|]. split; [done|]. split.
    + intros _. split; [done|]. split; [done|]. split; [by simpl; rewrite Ed|].
      rewrite <- Ed. exact Hidx.
    + intros Hrel.
      destruct (rebuild_index_reliable e s Hrel) as (embeddings & Hlen & Hrun');
        [by rewrite Ed|].
      rewrite Hrun' in Hrun. injection Hrun as Hrun.
      simpl. by rewrite <- Hrun, length_map.
Qed.

(** X8: On a consistent store whose texts mirror the metadata and whose
    symbol index is exact, [remove_company_data] filters the documents of a
    known symbol, with or without a running event loop.  When nothing stays
    it returns [True], leaves a fresh, consistent store and schedules
    nothing.  When documents stay, it returns [True] and schedules one
    rebuild inside a running loop, and returns [False] and schedules nothing
    without one; either way the index keeps its old rows, more than there
    are documents, so the store is not consistent.  [_rebuild_index], run
    with a reliable provider, makes it consistent again without changing the
    documents, the metadata or the symbol index. *)
Theorem remove_then_rebuild_index (e : env) (loop : bool) (sym : string) (s : state) :
  reliable e → indexed s → consistent s →
  default [] (company_index s !! PyStr.upper sym) ≠ [] →
  ∃ (answer : bool) (s1 : state),
    remove_company_data loop sym s = (Ret answer, s1)
    ∧ metadata s1 = others (PyStr.upper sym) (metadata s)
    ∧ (metadata s1 = [] →
       answer = true ∧ consistent s1 ∧ rebuild_tasks s1 = rebuild_tasks s)
    ∧ (metadata s1 ≠ [] →
       answer = loop
       ∧ rebuild_tasks s1 = (if loop then S (rebuild_tasks s) else rebuild_tasks s)
       ∧ index s1 = index s
       ∧ length (documents s1) < length (index s1)
       ∧ ¬ consistent s1
       ∧ ∃ s2 : state,
           _rebuild_index e s1 = (Ret tt, s2)
           ∧ consistent s2
           ∧ documents s2 = documents s1
           ∧ metadata s2 = metadata s1
           ∧ company_index s2 = company_index s1).
Proof.
  intros Hrel [Hdocs Hidx] Hcons Hknown.
  pose proof (remove_company_data_run loop sym s Hdocs Hidx Hknown) as Hrun.
  cbv zeta in Hrun. destruct Hcons as (Hdm & Hmi & _).
  assert (Hshort : length (others (PyStr.upper sym) (metadata s)) < length (metadata s)).
  { apply others_shorter. rewrite Hidx in Hknown.
    by destruct (positions_from symbol (PyStr.upper sym) 0 (metadata s)). }
  destruct (others (PyStr.upper sym) (metadata s)) as [|m ms] eqn:Eo.
  - eexists _, _. split; [exact Hrun|]. split; [done|]. split; [|done].
    intros _. split; [done|]. split; [|done]. split; [done|]. split; [done|].
    intros k positions i Hlook. simpl in Hlook. by rewrite lookup_empty in Hlook.
  - set (remaining := m :: ms) in *.
    set (fresh := index_docs (fun m => PyStr.upper (symbol m)) 0 remaining ∅) in *.
    set (s1 := State (index s) (map text remaining) remaining fresh
                     (embedding_calls s) (clock s)
                     (if loop then S (rebuild_tasks s) else rebuild_tasks s)) in *.
    exists loop, s1. split; [exact Hrun|]. split; [done|]. split; [done|]. intros _.
    split; [done|]. split; [done|]. split; [done|].
    assert (Hstale : length (documents s1) < length (index s1)).
    { unfold s1. cbn [documents index]. rewrite length_map. lia. }
    split; [exact Hstale|].
    split. { intros (H1 & H2 & _). lia. }
    destruct (rebuild_index_reliable e s1 Hrel) as (embeddings & Hlen & Hrun2); [done|].
    eexists. split; [exact Hrun2|]. split; [|done].
    unfold s1, consistent, set_index, called in Hlen |- *.
    cbn [index documents metadata company_index] in Hlen |- *.
    split; [by rewrite length_map|].
    split; [by rewrite length_map, Hlen, length_map|].
    intros k positions i Hlook Hi.
    unfold fresh in Hlook. rewrite index_docs_lookup, lookup_empty in Hlook.
    destruct (positions_from (fun m => PyStr.upper (symbol m)) k 0 remaining)
      as [|p ps] eqn:Ep; [done|]. injection Hlook as <-.
    rewrite <- Ep in Hi. apply elem_of_positions_from in Hi as (j & m' & Hj & _ & ->).
    apply lookup_lt_Some in Hj. rewrite length_map. exact Hj.
Qed.

Lemma two_companies_indexed : indexed two_companies.
Proof.
  split; [reflexivity|].
  intros k. unfold two_companies. cbn [company_index metadata positions_from symbol].
  destruct (String.eqb_spec "AAPL" k) as [<-|H1]; [vm_compute; reflexivity|].
  destruct (String.eqb_spec "MSFT" k) as [<-|H2]; [vm_compute; reflexivity|].
  rewrite lookup_insert_ne by done. by rewrite lookup_singleton_ne.
Qed.

(** X8 on the store of two companies, called where no event loop runs. *)
Lemma remove_then_rebuild_index_witness :
  ∃ (answer : bool) (s1 : state),
    remove_company_data false "aapl" two_companies = (Ret answer, s1)
    ∧ metadata s1 = others (PyStr.upper "aapl") (metadata two_companies)
    ∧ (metadata s1 = [] →
       answer = true ∧ consistent s1 ∧ rebuild_tasks s1 = rebuild_tasks two_companies)
    ∧ (metadata s1 ≠ [] →
       answer = false
       ∧ rebuild_tasks s1 = rebuild_tasks two_companies
       ∧ index s1 = index two_companies
       ∧ length (documents s1) < length (index s1)
       ∧ ¬ consistent s1
       ∧ ∃ s2 : state,
           _rebuild_index working s1 = (Ret tt, s2)
           ∧ consistent s2
           ∧ documents s2 = documents s1
           ∧ metadata s2 = metadata s1
           ∧ company_index s2 = company_index s1).
Proof.
  apply (remove_then_rebuild_index working false "aapl" two_companies).
  - exact working_reliable.
  - exact two_companies_indexed.
  - exact two_companies_consistent.
  - vm_compute. discriminate.
Defined.

End StoreUpdates.

(** ** The data processor: sources and news *)

Section FusionSources.

Import Data Fusion NewsDedup.
Local Open Scope nat_scope.

(** *** The order of preference of the collectors *)

Lemma first_of_three {A} (a b c : result (option A)) :
  (∀ v, first_available [a; b; c] = Ret (Some v)
        ↔ a = Ret (Some v)
          ∨ (failed a ∧ b = Ret (Some v))
          ∨ (failed a ∧ failed b ∧ c = Ret (Some v)))
  ∧ (first_available [a; b; c] = Ret None ↔ failed a ∧ failed b ∧ failed c).
Proof.
  unfold failed, raised.
  destruct a as [[x|]|ea], b as [[y|]|eb], c as [[z|]|ec]; simpl; naive_solver.
Qed.

(** X9: The three first-wins categories take the answer of the first collector,
    in their order of preference, that returns something; a collector that
    raises or returns nothing passes the turn to the next one, and the
    category is absent exactly when all three did so.  Quotes and prices
    prefer Yahoo Finance, then Alpha Vantage, then Financial Modeling Prep;
    the company profile prefers Alpha Vantage, then Yahoo Finance. *)
Theorem first_wins_order_of_preference (c : clients) (symbol : string) :
  (∀ q, _get_quote_data c symbol = Ret (Some q)
        ↔ yf_get_quote c symbol = Ret (Some q)
          ∨ (failed (yf_get_quote c symbol) ∧ av_get_quote c symbol = Ret (Some q))
          ∨ (failed (yf_get_quote c symbol) ∧ failed (av_get_quote c symbol)
             ∧ fmp_get_quote c symbol = Ret (Some q)))
  ∧ (_get_quote_data c symbol = Ret None
     ↔ failed (yf_get_quote c symbol) ∧ failed (av_get_quote c symbol)
       ∧ failed (fmp_get_quote c symbol))
  ∧ (∀ i, _get_company_data c symbol = Ret (Some i)
          ↔ av_get_company_overview c symbol = Ret (Some i)
            ∨ (failed (av_get_company_overview c symbol)
               ∧ yf_get_company_info c symbol = Ret (Some i))
            ∨ (failed (av_get_company_overview c symbol)
               ∧ failed (yf_get_company_info c symbol)
               ∧ fmp_get_company_profile c symbol = Ret (Some i)))
  ∧ (_get_company_data c symbol = Ret None
     ↔ failed (av_get_company_overview c symbol) ∧ failed (yf_get_company_info c symbol)
       ∧ failed (fmp_get_company_profile c symbol))
  ∧ (∀ h, _get_historical_data c symbol = Ret (Some h)
          ↔ yf_get_daily_data c symbol = Ret (Some h)
            ∨ (failed (yf_get_daily_data c symbol)
               ∧ av_get_daily_data c symbol = Ret (Some h))
            ∨ (failed (yf_get_daily_data c symbol) ∧ failed (av_get_daily_data c symbol)
               ∧ fmp_get_daily_data c symbol = Ret (Some h)))
  ∧ (_get_historical_data c symbol = Ret None
     ↔ failed (yf_get_daily_data c symbol) ∧ failed (av_get_daily_data c symbol)
       ∧ failed (fmp_get_daily_data c symbol)).
Proof.
  unfold _get_quote_data, _get_company_data, _get_historical_data.
  split; [apply first_of_three|]. split; [apply first_of_three|].
  split; [apply first_of_three|]. split; [apply first_of_three|].
  split; apply first_of_three.
Qed.

(** *** The sources of a record *)

(** The source each category of a record names: the ["source"] entry of a
    dictionary, and for the news the one of the first article. *)
Definition category_sources (r : company_data) : list (option string) :=
  [quote_data r ≫= quote_source;
   company r ≫= company_source;
   historical r ≫= historical_source;
   financial r ≫= financial_source;
   first_article_source (news r);
   analyst r ≫= analyst_source].

Lemma record_source_spec (src : option string) (used : list string) :
  NoDup used →
  NoDup (record_source src used)
  ∧ length (record_source src used) ≤ S (length used)
  ∧ ∀ name, name ∈ record_source src used ↔ name ∈ used ∨ src = Some name.
Proof.
  intros Hnd. unfold record_source. destruct src as [s|].
  - case_bool_decide as Hin.
    + split; [done|]. split; [lia|]. intros name. naive_solver.
    + split; [|split].
      * apply NoDup_app. split; [done|]. split; [|apply NoDup_singleton].
        intros x Hx ->%list_elem_of_singleton. done.
      * rewrite length_app. simpl. lia.
      * intros name. rewrite elem_of_app, list_elem_of_singleton. naive_solver.
  - split; [done|]. split; [lia|]. naive_solver.
Qed.

Lemma record_sources_spec (sources : list (option string)) (used : list string) :
  NoDup used →
  let out := foldl (fun used src => record_source src used) used sources in
  NoDup out
  ∧ length out ≤ length used + length sources
  ∧ ∀ name, name ∈ out ↔ name ∈ used ∨ Some name ∈ sources.
Proof.
  revert used. induction sources as [|src sources IH]; intros used Hnd; cbn zeta; simpl.
  - split; [done|]. split; [lia|]. intros name. rewrite elem_of_nil. naive_solver.
  - destruct (record_source_spec src used Hnd) as (H1 & H2 & H3).
    destruct (IH _ H1) as (H4 & H5 & H6). cbn zeta in *.
    split; [done|]. split; [lia|].
    intros name. rewrite H6, H3, elem_of_cons. naive_solver.
Qed.

(** X10: The record names the symbol in uppercase and carries the time of the
    call.  [sources_used] has no duplicates and at most six entries, and
    holds exactly the sources named by the categories present in the record;
    for the news this is the source of the first article only. *)
Theorem sources_used_are_category_sources (c : clients) (now symbol : string) :
  ∃ r : company_data,
    get_comprehensive_stock_data c now symbol = Ret r
    ∧ Data.symbol r = PyStr.upper symbol
    ∧ timestamp r = now
    ∧ NoDup (sources_used r)
    ∧ length (sources_used r) ≤ 6
    ∧ ∀ name, name ∈ sources_used r ↔ Some name ∈ category_sources r.
Proof.
  eexists. split; [reflexivity|]. split; [reflexivity|]. split; [reflexivity|].
  cbn [sources_used category_sources quote_data company historical financial news analyst].
  match goal with
  | |- context [foldl _ [] ?l] =>
      destruct (record_sources_spec l [] (NoDup_nil_2 (A:=string))) as (H1 & H2 & H3)
  end.
  cbn zeta in *. split; [exact H1|]. split; [exact H2|].
  intros name. rewrite H3, elem_of_nil. naive_solver.
Qed.

(** *** Most recent first *)

Lemma ltb_false_trans (x y z : string) :
  String.ltb x y = false → String.ltb y z = false → String.ltb x z = false.
Proof.
  unfold String.ltb. revert y z.
  induction x as [|a x IH]; intros [|b y] [|d z]; simpl; try done.
  specialize (IH y z). unfold Ascii.compare.
  destruct (N.compare_spec (N_of_ascii a) (N_of_ascii b)) as [Hab|Hab|Hab];
    destruct (N.compare_spec (N_of_ascii b) (N_of_ascii d)) as [Hbd|Hbd|Hbd];
    destruct (N.compare_spec (N_of_ascii a) (N_of_ascii d)) as [Had|Had|Had];
    try done; try lia.
Qed.

Lemma ltb_true_false (x y : string) : String.ltb x y = true → String.ltb y x = false.
Proof.
  unfold String.ltb. rewrite (String.compare_antisym x y).
  by destruct (String.compare y x).
Qed.

(** The sort of a list of articles by a key, greatest key first. *)
Fixpoint insert_by (key : article → string) (x : article) (l : list article)
    : list article :=
  match l with
  | [] => [x]
  | y :: l' =>
      if String.ltb (key x) (key y) then y :: insert_by key x l' else x :: y :: l'
  end.

(** No later article has a greater key. *)
Definition not_before (key : article → string) (a b : article) : Prop :=
  String.ltb (key a) (key b) = false.

Lemma insert_by_perm (key : article → string) (x : article) (l : list article) :
  insert_by key x l ≡ₚ x :: l.
Proof.
  induction l as [|y l IH]; simpl; [done|].
  destruct (String.ltb _ _); [|done]. rewrite IH. apply Permutation_swap.
Qed.

Lemma insert_by_sorted (key : article → string) (x : article) (l : list article) :
  StronglySorted (not_before key) l → StronglySorted (not_before key) (insert_by key x l).
Proof.
  induction 1 as [|y l Hl IH Hy]; simpl.
  - repeat constructor.
  - destruct (String.ltb (key x) (key y)) eqn:E.
    + constructor; [exact IH|]. rewrite insert_by_perm.
      constructor; [by apply ltb_true_false|exact Hy].
    + constructor; [by constructor|]. constructor; [exact E|].
      eapply Forall_impl; [exact Hy|]. intros b Hb. unfold not_before in *.
      by eapply ltb_false_trans.
Qed.

Lemma sort_by_spec (key : article → string) (l : list article) :
  foldr (insert_by key) [] l ≡ₚ l
  ∧ StronglySorted (not_before key) (foldr (insert_by key) [] l).
Proof.
  induction l as [|x l [IHp IHs]]; simpl; [split; [done|constructor]|].
  split; [by rewrite insert_by_perm, IHp|by apply insert_by_sorted].
Qed.

Lemma sort_recent_first_by (l : list article) :
  sort_recent_first l = foldr (insert_by published_key) [] l.
Proof.
  unfold sort_recent_first. induction l as [|x l IH]; simpl; [done|]. rewrite IH.
  generalize (foldr (insert_by published_key) [] l). intros k.
  induction k as [|y k IHk]; simpl; [done|]. by rewrite IHk.
Qed.

Lemma sort_published_first_by (l : list article) :
  NewsScraper.sort_published_first l
  = foldr (insert_by NewsScraper.published_or_empty) [] l.
Proof.
  unfold NewsScraper.sort_published_first. induction l as [|x l IH]; simpl; [done|].
  rewrite IH. generalize (foldr (insert_by NewsScraper.published_or_empty) [] l).
  intros k. induction k as [|y k IHk]; simpl; [done|]. by rewrite IHk.
Qed.

Lemma sorted_lookup_lt {A} (R : relation A) (l : list A) (i j : nat) (a b : A) :
  StronglySorted R l → l !! i = Some a → l !! j = Some b → i < j → R a b.
Proof.
  intros Hs. revert i j. induction Hs as [|x l Hs IH Hx]; intros i j Hi Hj Hlt.
  - by rewrite lookup_nil in Hi.
  - destruct j as [|j]; [lia|]. simpl in Hj. destruct i as [|i].
    + injection Hi as <-. rewrite Forall_forall in Hx. apply Hx.
      apply list_elem_of_lookup. eauto.
    + simpl in Hi. apply (IH i j); [done|done|lia].
Qed.

Lemma kept_from_titled (seen_titles : gset string) (news_list : list article) :
  Forall (fun a => normalized_title a ≠ ""%string) (kept_from seen_titles news_list).
Proof.
  revert seen_titles. induction news_list as [|a later IH]; intros seen; simpl; [done|].
  destruct (String.eqb_spec (normalized_title a) "") as [E|E]; [apply IH|].
  destruct (existsb _ _); [apply IH|]. constructor; [exact E|apply IH].
Qed.

(** The answer of a news collector, read as a list. *)
Definition collected (call : result (option (list article))) : list article :=
  default [] (gathered call).

(** X11: [_get_news_data] never raises.  It returns [None] exactly when neither
    collector gave an article (a collector that raises counts as giving
    none).  Otherwise it returns the deduplicated articles of Yahoo Finance
    followed by those of Financial Modeling Prep, rearranged so that no
    article comes after one with a smaller publication key; the list may be
    empty, when no article has a title. *)
Theorem get_news_data_most_recent_first (c : clients) (symbol : string) :
  let all_news := (collected (yf_get_news c symbol)
                   ++ collected (fmp_get_stock_news c symbol))%list in
  ∃ (answer : option (list article)) (unique_news : list article),
    _get_news_data c symbol = Ret answer
    ∧ _deduplicate_news all_news = Ret unique_news
    ∧ (answer = None ↔ all_news = [])
    ∧ ∀ sorted_news, answer = Some sorted_news →
        sorted_news ≡ₚ unique_news
        ∧ StronglySorted (not_before published_key) sorted_news
        ∧ Forall (fun a => normalized_title a ≠ ""%string) sorted_news.
Proof.
  cbv zeta. unfold collected, _get_news_data.
  destruct (yf_get_news c symbol) as [v1|e1], (fmp_get_stock_news c symbol) as [v2|e2];
    cbn [contribution try_except rbind gathered];
    match goal with
    | |- context [_deduplicate_news ?l] => generalize l
    end; intros all_news;
    (exists (match all_news with [] => None
                            | _ => Some (sort_recent_first (kept_from ∅ all_news)) end),
       (kept_from ∅ all_news);
     rewrite deduplicate_news_kept_from; cbn [rbind];
     split; [by destruct all_news|]; split; [done|];
     split; [by destruct all_news|];
     intros sorted_news Hsorted;
     assert (sorted_news = sort_recent_first (kept_from ∅ all_news)) as ->
       by (destruct all_news; [done|by injection Hsorted]);
     rewrite sort_recent_first_by;
     destruct (sort_by_spec published_key (kept_from ∅ all_news)) as [Hp Hs];
     split; [exact Hp|]; split; [exact Hs|];
     rewrite Hp; apply kept_from_titled).
Qed.

(** X12: [get_comprehensive_news] never raises: a scraper that failed is left
    out.  It returns the deduplicated articles of the scrapers that
    answered, rearranged so that no article comes after one with a smaller
    ["published"] entry; an article without one counts as the empty string
    and so comes after every dated article. *)
Theorem get_comprehensive_news_most_recent_first
    (marketwatch seeking_alpha reuters : result (list article)) :
  ∃ unique_news sorted_news : list article,
    NewsScraper.get_comprehensive_news marketwatch seeking_alpha reuters = Ret sorted_news
    ∧ _deduplicate_news (NewsScraper.extend_all [marketwatch; seeking_alpha; reuters])
      = Ret unique_news
    ∧ sorted_news ≡ₚ unique_news
    ∧ StronglySorted (not_before NewsScraper.published_or_empty) sorted_news
    ∧ (∀ a b, a ∈ sorted_news → b ∈ sorted_news →
         published a = None → published b ≠ None → published b ≠ Some ""%string →
         ∃ i j, sorted_news !! i = Some b ∧ sorted_news !! j = Some a ∧ i < j)
    ∧ (raised marketwatch → raised seeking_alpha → raised reuters → sorted_news = []).
Proof.
  unfold NewsScraper.get_comprehensive_news.
  set (all_news := NewsScraper.extend_all [marketwatch; seeking_alpha; reuters]).
  exists (kept_from ∅ all_news), (NewsScraper.sort_published_first (kept_from ∅ all_news)).
  rewrite deduplicate_news_kept_from. cbn [rbind].
  split; [done|]. split; [done|].
  rewrite sort_published_first_by.
  destruct (sort_by_spec NewsScraper.published_or_empty (kept_from ∅ all_news)) as [Hp Hs].
  split; [exact Hp|]. split; [exact Hs|]. split.
  - intros a b Ha Hb Hna Hnb Hnb'.
    apply list_elem_of_lookup in Ha as [j Hj]. apply list_elem_of_lookup in Hb as [i Hi].
    exists i, j. split; [exact Hi|]. split; [exact Hj|].
    destruct (Nat.lt_trichotomy i j) as [Hlt|[->|Hgt]]; [exact Hlt| |].
    + rewrite Hi in Hj. injection Hj as ->. congruence.
    + exfalso.
      pose proof (sorted_lookup_lt _ _ _ _ _ _ Hs Hj Hi Hgt) as Hord.
      unfold not_before, NewsScraper.published_or_empty in Hord. rewrite Hna in Hord.
      destruct (published b) as [[|ch t]|]; done.
  - intros [e1 H1] [e2 H2] [e3 H3]. unfold all_news. by rewrite H1, H2, H3.
Qed.

(** *** The combined categories *)

(** X23: The financial and the analyst category collect what each collector
    gives, whatever the others do, and are absent exactly when nothing was
    given; when present they name ["multiple"] as their source.  The
    earnings calendar is Yahoo Finance's when it gives one, and Financial
    Modeling Prep's when Yahoo Finance returns nothing; when Yahoo Finance
    raises, the record has no calendar, whatever Financial Modeling Prep
    would have given. *)
Theorem combined_categories_collect_answers (c : clients) (symbol : string) :
  let metrics := gathered (fmp_get_key_metrics c symbol) in
  let ratios := gathered (fmp_get_financial_ratios c symbol) in
  let statements := gathered (yf_get_financial_data c symbol) in
  let earned := gathered (av_get_earnings c symbol) in
  let recommended := gathered (yf_get_analyst_recommendations c symbol) in
  let estimated := gathered (fmp_get_analyst_estimates c symbol) in
  let calendar :=
    match yf_get_earnings_calendar c symbol with
    | Ret (Some cal) => Some cal
    | Ret None => gathered (fmp_get_earnings_calendar c symbol)
    | Raise _ => None
    end in
  (∃ answer,
     _get_financial_data c symbol = Ret answer
     ∧ (answer = None
        ↔ metrics = None ∧ ratios = None ∧ statements = None ∧ earned = None)
     ∧ ∀ f, answer = Some f →
         f = FinancialInfo metrics ratios statements earned (Some "multiple"%string))
  ∧ (∃ answer,
       _get_analyst_data c symbol = Ret answer
       ∧ (answer = None ↔ recommended = None ∧ estimated = None ∧ calendar = None)
       ∧ ∀ a, answer = Some a →
           a = AnalystInfo recommended estimated calendar (Some "multiple"%string)).
Proof.
  cbv zeta. split.
  - unfold _get_financial_data.
    destruct (fmp_get_key_metrics c symbol) as [[m|]|e1],
             (fmp_get_financial_ratios c symbol) as [[r|]|e2],
             (yf_get_financial_data c symbol) as [[y|]|e3],
             (av_get_earnings c symbol) as [[a|]|e4];
      cbn [contribution try_except rbind gathered];
      (eexists; split; [reflexivity|]; split; [naive_solver|]; by intros f [= <-]).
  - unfold _get_analyst_data.
    destruct (yf_get_analyst_recommendations c symbol) as [[r|]|e1],
             (fmp_get_analyst_estimates c symbol) as [[m|]|e2],
             (yf_get_earnings_calendar c symbol) as [[y|]|e3];
      cbn [contribution try_except rbind gathered];
      try (eexists; split; [reflexivity|]; split; [naive_solver|]; by intros f [= <-]);
      destruct (fmp_get_earnings_calendar c symbol) as [[k|]|e4];
      cbn [contribution try_except rbind gathered];
      (eexists; split; [reflexivity|]; split; [naive_solver|]; by intros f [= <-]).
Qed.

End FusionSources.

(** ** Deduplication: what the output looks like *)

Section DeduplicatedNews.

Import Data NewsDedup.
Local Open Scope nat_scope.

(** [b] is kept although [a] was kept before it. *)
Definition dissimilar_to_earlier (a b : article) : Prop :=
  similar (normalized_title b) (normalized_title a) = false.

Lemma kept_from_dissimilar (seen_titles : gset string) (news_list : list article) :
  Forall (fun b => ∀ t, t ∈ seen_titles → similar (normalized_title b) t = false)
         (kept_from seen_titles news_list)
  ∧ StronglySorted dissimilar_to_earlier (kept_from seen_titles news_list).
Proof.
  revert seen_titles. induction news_list as [|a later IH]; intros seen; simpl.
  - split; constructor.
  - destruct (String.eqb (normalized_title a) ""); [apply IH|].
    destruct (existsb (similar (normalized_title a)) (elements seen)) eqn:E; [apply IH|].
    destruct (IH ({[normalized_title a]} ∪ seen)) as [Hseen Hsorted]. split.
    + constructor.
      * intros t Ht. destruct (similar (normalized_title a) t) eqn:Es; [|done].
        assert (existsb (similar (normalized_title a)) (elements seen) = true) as Habs;
          [|congruence].
        apply existsb_exists. exists t. split; [|exact Es].
        apply list_elem_of_In, elem_of_elements, Ht.
      * eapply Forall_impl; [exact Hseen|]. intros b Hb t Ht. apply Hb. set_solver.
    + constructor; [exact Hsorted|].
      eapply Forall_impl; [exact Hseen|]. intros b Hb. apply Hb. set_solver.
Qed.

(** X13: Deduplication returns a list in which every article has a title (once
    lowercased and stripped) and no article is similar to one kept before
    it: the overlap of their title words is at most 0.7.  The first article
    of the input is kept whenever it has a title. *)
Theorem deduplicate_news_pairwise_dissimilar (news_list : list article) :
  ∃ unique_news : list article,
    _deduplicate_news news_list = Ret unique_news
    ∧ Forall (fun a => normalized_title a ≠ ""%string) unique_news
    ∧ (∀ i j a b, unique_news !! i = Some a → unique_news !! j = Some b → i < j →
         similar (normalized_title b) (normalized_title a) = false)
    ∧ (∀ a, head news_list = Some a → normalized_title a ≠ ""%string →
         head unique_news = Some a).
Proof.
  exists (kept_from ∅ news_list). split; [apply deduplicate_news_kept_from|].
  split; [apply kept_from_titled|]. split.
  - intros i j a b Hi Hj Hlt.
    destruct (kept_from_dissimilar ∅ news_list) as [_ Hs].
    exact (sorted_lookup_lt _ _ _ _ _ _ Hs Hi Hj Hlt).
  - intros a Ha Ht. destruct news_list as [|a' later]; [done|]. injection Ha as ->.
    simpl. destruct (String.eqb_spec (normalized_title a) ""); [done|].
    rewrite elements_empty. done.
Qed.

End DeduplicatedNews.

(** ** The company search *)

Section CompanySearchResults.

Import CompanySearch.
Local Open Scope nat_scope.

(** The key under which a result is filed: its symbol in uppercase, the
    empty string when it has none. *)
Definition symbol_key (r : found) : string :=
  match found_symbol r with
  | Text s => PyStr.upper s
  | _ => ""%string
  end.

(** [r] is the first of [all_results] with its key. *)
Definition first_with_key (all_results : list found) (r : found) : Prop :=
  ∃ before after,
    all_results = (before ++ r :: after)%list
    ∧ Forall (fun r' => symbol_key r' ≠ symbol_key r) before.

Lemma upper_symbol_key (r : found) :
  found_symbol r ≠ NoneValue → upper_symbol r = Ret (symbol_key r).
Proof. unfold upper_symbol, symbol_key. by destruct (found_symbol r). Qed.

Lemma unique_by_symbol_raises (all_results : list found)
    (unique_results : list (string * found)) :
  Exists (fun r => found_symbol r = NoneValue) all_results →
  unique_by_symbol all_results unique_results = Raise AttributeError.
Proof.
  intros H. revert unique_results.
  induction all_results as [|r later IH]; intros acc; [by apply Exists_nil in H|].
  simpl. apply Exists_cons in H as [H|H].
  - unfold upper_symbol. by rewrite H.
  - unfold upper_symbol. destruct (found_symbol r); simpl; [apply IH, H|done|].
    destruct (_ && _); apply IH, H.
Qed.

Lemma unique_by_symbol_spec (all_results : list found) (acc : list (string * found)) :
  Forall (fun r => found_symbol r ≠ NoneValue) all_results →
  NoDup (map fst acc) →
  ∃ u,
    unique_by_symbol all_results acc = Ret (acc ++ u)%list
    ∧ NoDup (map fst (acc ++ u))
    ∧ Forall (fun p => fst p = symbol_key (snd p) ∧ fst p ≠ ""%string
                       ∧ first_with_key all_results (snd p)) u
    ∧ ∀ r, r ∈ all_results → symbol_key r ≠ ""%string →
        symbol_key r ∈ map fst (acc ++ u).
Proof.
  intros Hall. revert acc.
  induction Hall as [|r later Hr Hlater IH]; intros acc Hnd.
  - exists []. rewrite app_nil_r. split; [done|]. split; [done|]. split; [done|].
    intros r Hr. by apply elem_of_nil in Hr.
  - simpl. rewrite (upper_symbol_key r Hr). simpl.
    destruct (String.eqb_spec (symbol_key r) "") as [Hk|Hk]; simpl.
    + destruct (IH acc Hnd) as (u & Hrun & Hnd' & Hu & Hcov).
      exists u. split; [exact Hrun|]. split; [exact Hnd'|]. split.
      * eapply Forall_impl; [exact Hu|]. intros [k x] (H1 & H2 & b & a & -> & Hb).
        simpl in *. split; [done|]. split; [done|].
        exists (r :: b), a. split; [done|]. constructor; [congruence|done].
      * intros x [->|Hx]%elem_of_cons Hkx; [done|by apply Hcov].
    + case_bool_decide as Hin; simpl.
      * destruct (IH acc Hnd) as (u & Hrun & Hnd' & Hu & Hcov).
        exists u. split; [exact Hrun|]. split; [exact Hnd'|]. split.
        -- apply Forall_forall. intros [k x] Hx.
           rewrite Forall_forall in Hu. destruct (Hu _ Hx) as (H1 & H2 & b & a & -> & Hb).
           simpl in *. split; [done|]. split; [done|].
           exists (r :: b), a. split; [done|]. constructor; [|done].
           intros Heq. rewrite map_app in Hnd'. apply NoDup_app in Hnd' as (_ & Hdis & _).
           apply (Hdis _ Hin). rewrite Heq, <- H1.
           apply list_elem_of_fmap. by exists (k, x).
        -- intros x [->|Hx]%elem_of_cons Hkx; [|by apply Hcov].
           rewrite map_app, elem_of_app. by left.
      * assert (Hnd1 : NoDup (map fst (acc ++ [(symbol_key r, r)]))).
        { rewrite map_app. apply NoDup_app. split; [done|]. split.
          - intros x Hx ->%list_elem_of_singleton. done.
          - apply NoDup_singleton. }
        destruct (IH _ Hnd1) as (u & Hrun & Hnd' & Hu & Hcov).
        exists ((symbol_key r, r) :: u). rewrite <- app_assoc in Hrun, Hnd', Hcov.
        split; [exact Hrun|]. split; [exact Hnd'|]. split.
        -- constructor.
           ++ simpl. split; [done|]. split; [done|]. by exists [], later.
           ++ apply Forall_forall. intros [k x] Hx.
              rewrite Forall_forall in Hu.
              destruct (Hu _ Hx) as (H1 & H2 & b & a & -> & Hb).
              simpl in *. split; [done|]. split; [done|].
              exists (r :: b), a. split; [done|]. constructor; [|done].
              intros Heq. rewrite map_app in Hnd'.
              apply NoDup_app in Hnd' as (_ & _ & Hnd').
              simpl in Hnd'. apply NoDup_cons in Hnd' as [Hnot _]. apply Hnot.
              rewrite Heq, <- H1. apply list_elem_of_fmap. by exists (k, x).
        -- intros x [->|Hx]%elem_of_cons Hkx; [|by apply Hcov].
           rewrite map_app, elem_of_app. right. simpl. left.
Qed.

Lemma insert_desc_found_perm (x : found) (l : list found) : insert_desc x l ≡ₚ x :: l.
Proof.
  induction l as [|y l IH]; simpl; [done|].
  destruct (PrimFloat.ltb _ _); [|done]. rewrite IH. apply Permutation_swap.
Qed.

Lemma sorted_by_score_found_perm (l : list found) : sorted_by_score l ≡ₚ l.
Proof.
  unfold sorted_by_score. induction l as [|x l IH]; simpl; [done|].
  by rewrite insert_desc_found_perm, IH.
Qed.

Lemma gather_tagged (sources : list (string * result (option (list found)))) :
  Forall (fun r => ∃ name, found_source r = Some name ∧ name ∈ map fst sources)
         (gather sources).
Proof.
  induction sources as [|[name call] later IH]; simpl; [done|].
  assert (Hlater : Forall (fun r => ∃ name0, found_source r = Some name0
                                     ∧ name0 ∈ name :: map fst later) (gather later)).
  { eapply Forall_impl; [exact IH|]. intros r (n & ? & ?). exists n. set_solver. }
  destruct call as [[results|]|e]; [|done|done].
  apply Forall_app. split; [|done].
  apply Forall_forall. intros r (r0 & -> & _)%list_elem_of_fmap.
  exists name. split; [done|]. left.
Qed.

(** X14: [search_company] returns [None] when no collector gave a result (each
    raised, or returned nothing).  It raises [AttributeError] when a result
    carries the symbol [None].  Otherwise it returns a list in which every
    result has a non-empty symbol, no two results have the same symbol up to
    letter case, each is the first of the gathered results with its symbol
    (Alpha Vantage before Yahoo Finance before Financial Modeling Prep) and
    names the collector it came from, and every symbol that was found is
    there. *)
Theorem search_company_unique_symbols (s : searchers) (query : string) :
  let all_results := gathered_results s query in
  (all_results = [] → search_company s query = Ret None)
  ∧ (Exists (fun r => found_symbol r = NoneValue) all_results →
     search_company s query = Raise AttributeError)
  ∧ (all_results ≠ [] → Forall (fun r => found_symbol r ≠ NoneValue) all_results →
     ∃ sorted_results,
       search_company s query = Ret (Some sorted_results)
       ∧ NoDup (map symbol_key sorted_results)
       ∧ Forall (fun r => symbol_key r ≠ ""%string
                          ∧ first_with_key all_results r
                          ∧ ∃ name, found_source r = Some name
                                    ∧ name ∈ ["alpha_vantage"; "yahoo_finance";
                                              "financial_modeling_prep"]%string)
                sorted_results
       ∧ ∀ r, r ∈ all_results → symbol_key r ≠ ""%string →
           symbol_key r ∈ map symbol_key sorted_results).
Proof.
  cbv zeta. unfold search_company.
  pose proof (gather_tagged
    [("alpha_vantage"%string, av_search_symbol s query);
     ("yahoo_finance"%string, yf_search_symbol s query);
     ("financial_modeling_prep"%string, fmp_search_symbol s query)]) as Htag.
  fold (gathered_results s query) in Htag. cbn [map fst] in Htag.
  destruct (gathered_results s query) as [|r0 later] eqn:Eall.
  - split; [done|]. split; [by intros H%Exists_nil|done].
  - split; [done|]. split.
    + intros H. by rewrite unique_by_symbol_raises.
    + intros _ Hall.
      destruct (unique_by_symbol_spec (r0 :: later) [] Hall (NoDup_nil_2 (A:=string)))
        as (u & Hrun & Hnd & Hu & Hcov).
      rewrite app_nil_l in Hrun, Hnd, Hcov. rewrite Hrun. cbn [rbind].
      assert (Hkeys : map fst u = map symbol_key (map snd u)).
      { clear -Hu. induction Hu as [|[k x] u (H1 & _) _ IH]; simpl; [done|].
        simpl in H1. by rewrite H1, IH. }
      eexists. split; [reflexivity|].
      split; [by rewrite sorted_by_score_found_perm, <- Hkeys|].
      split.
      * rewrite sorted_by_score_found_perm. apply Forall_forall.
        intros r ([k x] & -> & Hx)%list_elem_of_fmap.
        rewrite Forall_forall in Hu. destruct (Hu _ Hx) as (H1 & H2 & H3).
        simpl in *. split; [congruence|]. split; [exact H3|].
        rewrite Forall_forall in Htag. apply Htag.
        destruct H3 as (b & a & -> & _). set_solver.
      * intros r Hr Hk. rewrite sorted_by_score_found_perm, <- Hkeys. by apply Hcov.
Qed.

(** Alpha Vantage knows Apple under two spellings, Yahoo Finance raises and
    Financial Modeling Prep knows Apple and Microsoft. *)
Definition three_searchers : searchers :=
  Searchers
    (fun _ => Ret (Some [Found (Text "aapl") (Some "Apple") (Some 0.5%float) None;
                         Found (Text "AAPL") (Some "Apple Inc") (Some 1%float) None]))
    (fun _ => Raise (RuntimeError "timeout"))
    (fun _ => Ret (Some [Found (Text "AAPL") (Some "Apple Inc.") None None;
                         Found (Text "MSFT") (Some "Microsoft") None None])).

Example search_company_apple :
  search_company three_searchers "apple"
  = Ret (Some [Found (Text "aapl") (Some "Apple") (Some 0.5%float) (Some "alpha_vantage");
               Found (Text "MSFT") (Some "Microsoft") None
                     (Some "financial_modeling_prep")]).
Proof. vm_compute. reflexivity. Qed.

End CompanySearchResults.

(** ** The embedding manager *)

Section EmbeddingBatches.

Import Embeddings.
Local Open Scope nat_scope.

(** An endpoint that answers every request with one embedding per input. *)
Definition answers (p : provider) : Prop :=
  ∀ sent input, ∃ embeddings,
    create p sent input = Ret embeddings ∧ length embeddings = length input.

(** A body that returns is run once by the wrapper. *)
Lemma retry_on_failure_returns {A} (n : nat) (delay : float) (func : M A)
    (a : A) (w w' : world) :
  func w = (Ret a, w') → retry_on_failure (S n) delay func w = (Ret a, w').
Proof.
  intros H. unfold retry_on_failure. cbn [seq attempts]. unfold try_except. by rewrite H.
Qed.

Lemma get_embeddings_body_returns (p : provider) (texts : list string) (batch_size : nat)
    (w : world) :
  ∃ answer w', get_embeddings_body p texts batch_size w = (Ret answer, w').
Proof.
  unfold get_embeddings_body. destruct (api_key_configured p); simpl; [|by eexists _, _].
  destruct texts as [|t texts]; [by eexists _, _|].
  unfold try_except.
  destruct (bind _ _ w) as [[a|e] w']; by eexists _, _.
Qed.

Lemma get_embeddings_undecorated (p : provider) (texts : list string) (batch_size : nat)
    (w : world) :
  get_embeddings p texts batch_size w = get_embeddings_body p texts batch_size w.
Proof.
  destruct (get_embeddings_body_returns p texts batch_size w) as (a & w' & H).
  unfold get_embeddings. by rewrite (retry_on_failure_returns _ _ _ _ _ _ H).
Qed.

Lemma batch_loop_run (p : provider) (texts : list string) (batch_size : nat) :
  1 ≤ batch_size → answers p →
  ∀ (fuel i : nat) (acc : list vector) (w : world),
    length texts - i ≤ fuel →
    ∃ (embeddings : list vector) (sent : list (list string)),
      batch_loop p texts batch_size (range_from fuel i (length texts) batch_size) acc w
      = (Ret (acc ++ embeddings)%list,
         World (requests w ++ sent) (sleeps w ++ replicate (length sent - 1) 0.1%float))
      ∧ length embeddings = length (drop i texts)
      ∧ concat sent = map _clean_text (drop i texts)
      ∧ Forall (fun input => 1 ≤ length input ≤ batch_size) sent.
Proof.
  intros Hb Hans fuel. induction fuel as [|fuel IH]; intros i acc w Hfuel.
  - exists [], []. simpl. rewrite !app_nil_r. rewrite drop_ge by lia.
    split; [by destruct w|]. done.
  - simpl. destruct (Nat.ltb_spec i (length texts)) as [Hi|Hi].
    2:{ exists [], []. simpl. rewrite !app_nil_r. rewrite drop_ge by lia.
        split; [by destruct w|]. done. }
    cbn [batch_loop]. unfold bind at 1, create_embeddings.
    set (batch := take batch_size (drop i texts)).
    destruct (Hans (requests w) (map _clean_text batch)) as (vs & Hvs & Hlen).
    rewrite Hvs.
    assert (Hbatch : 1 ≤ length batch ≤ batch_size).
    { unfold batch. rewrite length_take, length_drop. lia. }
    assert (Hsplit : drop i texts = (batch ++ drop (i + batch_size) texts)%list).
    { unfold batch. rewrite <- drop_drop. symmetry. apply take_drop. }
    destruct (Nat.ltb_spec (i + batch_size) (length texts)) as [Hmore|Hlast].
    + unfold bind at 1, sleep. cbn [requests sleeps].
      destruct (IH (i + batch_size) (acc ++ vs)%list
                  (World (requests w ++ [map _clean_text batch]) (sleeps w ++ [0.1%float])))
        as (vs' & sent' & Hrun & Hlen' & Hcat & Hall); [lia|].
      cbn [requests sleeps] in Hrun.
      assert (Hsent : sent' ≠ []).
      { intros ->. simpl in Hcat. symmetry in Hcat. apply fmap_nil_inv in Hcat.
        apply (f_equal (@length _)) in Hcat. rewrite length_drop in Hcat. simpl in Hcat.
        lia. }
      exists (vs ++ vs')%list, (map _clean_text batch :: sent').
      rewrite Hrun. split.
      * rewrite <- !app_assoc. do 2 f_equal. simpl.
        destruct sent' as [|r sent']; [done|]. simpl. by rewrite Nat.sub_0_r.
      * split; [rewrite Hsplit, !length_app, Hlen, Hlen', length_map; done|].
        split; [simpl; by rewrite Hcat, Hsplit, map_app|].
        constructor; [by rewrite length_map|exact Hall].
    + unfold bind at 1, ret.
      destruct (IH (i + batch_size) (acc ++ vs)%list
                  (World (requests w ++ [map _clean_text batch]) (sleeps w)))
        as (vs' & sent' & Hrun & Hlen' & Hcat & Hall); [lia|].
      cbn [requests sleeps] in Hrun.
      rewrite (drop_ge texts (i + batch_size)) in Hlen', Hcat, Hsplit by lia.
      simpl in Hcat.
      assert (sent' = []) as ->.
      { destruct sent' as [|r sent']; [done|]. apply Forall_cons in Hall as [Hr _].
        simpl in Hcat. destruct r; [simpl in Hr; lia|done]. }
      destruct vs' as [|v vs']; [|done].
      exists vs, [map _clean_text batch]. rewrite Hrun.
      split; [simpl; by rewrite !app_nil_r|].
      rewrite Hsplit, app_nil_r.
      split; [by rewrite Hlen, length_map|]. split; [simpl; by rewrite app_nil_r|].
      constructor; [by rewrite length_map|done].
Qed.

(** X15: With a key configured, a positive batch size and an endpoint that
    answers every request with one embedding per input, [get_embeddings]
    returns one embedding per text.  It sends the cleaned texts, each once
    and in order, in requests of at least one and at most [batch_size]
    inputs, and pauses for a tenth of a second between two requests. *)
Theorem get_embeddings_sends_every_text_once (p : provider) (texts : list string)
    (batch_size : nat) (w : world) :
  api_key_configured p = true → 1 ≤ batch_size → answers p →
  ∃ (embeddings : list vector) (sent : list (list string)),
    get_embeddings p texts batch_size w
    = (Ret (Some embeddings),
       World (requests w ++ sent) (sleeps w ++ replicate (length sent - 1) 0.1%float))
    ∧ length embeddings = length texts
    ∧ concat sent = map _clean_text texts
    ∧ Forall (fun input => 1 ≤ length input ≤ batch_size) sent.
Proof.
  intros Hkey Hb Hans. rewrite get_embeddings_undecorated.
  unfold get_embeddings_body. rewrite Hkey. cbn [negb].
  destruct texts as [|t texts].
  - exists [], []. simpl. rewrite !app_nil_r. split; [by destruct w|done].
  - unfold try_except, bind at 1, lift, range.
    destruct (Nat.eqb_spec batch_size 0) as [->|_]; [lia|].
    destruct (batch_loop_run p (t :: texts) batch_size Hb Hans
                (length (t :: texts)) 0 [] w) as (vs & sent & Hrun & Hlen & Hcat & Hall);
      [lia|].
    unfold bind. rewrite Hrun. exists vs, sent. done.
Qed.

(** An endpoint that embeds every text as the same vector. *)
Definition constant_endpoint : provider :=
  Provider true (fun _ input => Ret (map (fun _ => [1; 0]%float) input)).

Lemma constant_endpoint_answers : answers constant_endpoint.
Proof. intros sent input. eexists. split; [reflexivity|]. by rewrite length_map. Qed.

Lemma get_embeddings_sends_every_text_once_witness :
  ∃ (embeddings : list vector) (sent : list (list string)),
    get_embeddings constant_endpoint ["a  b"; "c"; "d"]%string 2 (World [] [])
    = (Ret (Some embeddings),
       World ([] ++ sent) ([] ++ replicate (length sent - 1) 0.1%float))
    ∧ length embeddings = 3
    ∧ concat sent = map _clean_text ["a  b"; "c"; "d"]%string
    ∧ Forall (fun input => 1 ≤ length input ≤ 2) sent.
Proof.
  apply (get_embeddings_sends_every_text_once constant_endpoint
           ["a  b"; "c"; "d"]%string 2 (World [] [])).
  - reflexivity.
  - lia.
  - exact constant_endpoint_answers.
Defined.

(** X16: [get_embeddings] never raises, and the retry of its decorator never
    happens: it answers [None] without a request when no key is configured
    or the batch size is zero, and the empty list without a request for no
    text; when the endpoint refuses the first request it answers [None]
    after that one request, with no pause and no second attempt. *)
Theorem get_embeddings_failure_is_not_retried (p : provider) (texts : list string)
    (batch_size : nat) (w : world) :
  (∃ answer w', get_embeddings p texts batch_size w = (Ret answer, w'))
  ∧ (api_key_configured p = false → get_embeddings p texts batch_size w = (Ret None, w))
  ∧ (api_key_configured p = true → texts = [] →
     get_embeddings p texts batch_size w = (Ret (Some []), w))
  ∧ (api_key_configured p = true → texts ≠ [] → batch_size = 0 →
     get_embeddings p texts batch_size w = (Ret None, w))
  ∧ (∀ e,
       api_key_configured p = true → texts ≠ [] → 1 ≤ batch_size →
       create p (requests w) (map _clean_text (take batch_size texts)) = Raise e →
       get_embeddings p texts batch_size w
       = (Ret None,
          World (requests w ++ [map _clean_text (take batch_size texts)]) (sleeps w))).
Proof.
  rewrite get_embeddings_undecorated.
  split; [apply get_embeddings_body_returns|].
  unfold get_embeddings_body.
  split; [by intros ->|]. split; [by intros -> ->|]. split.
  - intros -> Ht ->. destruct texts; done.
  - intros e -> Ht Hb He. cbn [negb]. destruct texts as [|t texts]; [done|].
    unfold try_except, bind at 1, lift, range.
    destruct (Nat.eqb_spec batch_size 0) as [->|_]; [lia|].
    cbn [length range_from Nat.ltb Nat.leb batch_loop drop].
    unfold bind, create_embeddings. by rewrite He.
Qed.

End EmbeddingBatches.

(** ** The retriever's search of the vector store *)

Section RetrieverChunks.

Import VectorDB RetrieverSearch.
Local Open Scope nat_scope.

(** The store proper: what a search must not touch. *)
Definition same_store (s s' : state) : Prop :=
  index s' = index s ∧ documents s' = documents s ∧ metadata s' = metadata s
  ∧ company_index s' = company_index s.

(** What one [search] does, in one statement. *)
Lemma search_outcome (e : env) (query : string) (k : nat)
    (symbol_filter : option string) (s : state) :
  ∃ (hits : list hit) (s' : state),
    search e query k symbol_filter s = (Ret hits, s')
    ∧ (s' = s ∨ s' = called [query] s)
    ∧ (index s = [] → hits = [] ∧ s' = s)
    ∧ Forall (fun h =>
                shows_stored s h
                ∧ ∀ sym, truthy_str symbol_filter = Some sym →
                    hit_index h ∈ default [] (company_index s !! PyStr.upper sym))
             hits.
Proof.
  unfold search, try_except, bind, get.
  destruct (Nat.eqb_spec (length (index s)) 0) as [Hlen|Hlen];
    [exists [], s; split; [done|]; split; [by left|]; split; [done|constructor]|].
  assert (Hne : index s = [] → ∀ (hits : list hit) (s' : state), hits = [] ∧ s' = s).
  { intros H. by rewrite H in Hlen. }
  unfold call_embeddings. fold (called [query] s).
  destruct (get_embeddings e (embedding_calls s) [query]) as [[|v vs]|];
    [exists [], (called [query] s); split; [done|]; split; [by right|]; split; [auto|constructor]
    |
    |exists [], (called [query] s); split; [done|]; split; [by right|]; split; [auto|constructor]].
  unfold lift. destruct (normalized_array e (v :: vs)) as [a|x];
    [|exists [], (called [query] s); split; [done|]; split; [by right|]; split; [auto|constructor]].
  destruct (truthy_str symbol_filter) as [sym|].
  - destruct (default [] (company_index s !! PyStr.upper sym)) as [|c cs] eqn:Ecand;
      [exists [], (called [query] s); split; [done|]; split; [by right|]; split;
         [auto|constructor]|].
    destruct (collect (reconstruct (index s)) (c :: cs));
      [|exists [], (called [query] s); split; [done|]; split; [by right|]; split;
          [auto|constructor]].
    destruct (knn e (rows a) a0 (Nat.min k (length (c :: cs))));
      [|exists [], (called [query] s); split; [done|]; split; [by right|]; split;
          [auto|constructor]].
    destruct (filtered_results s (c :: cs) a1) as [hits|] eqn:Ehits;
      [|exists [], (called [query] s); split; [done|]; split; [by right|]; split;
          [auto|constructor]].
    exists hits, (called [query] s). split; [done|]. split; [by right|]. split; [auto|].
    apply filtered_results_stored in Ehits.
    eapply Forall_impl; [exact Ehits|]. intros h [Hs Hin]. split; [exact Hs|].
    intros sym' [= <-]. by rewrite Ecand.
  - destruct (index_search e (index s) (rows a) k);
      [|exists [], (called [query] s); split; [done|]; split; [by right|]; split;
          [auto|constructor]].
    destruct (full_results s a0) as [hits|] eqn:Ehits;
      [|exists [], (called [query] s); split; [done|]; split; [by right|]; split;
          [auto|constructor]].
    exists hits, (called [query] s). split; [done|]. split; [by right|]. split; [auto|].
    apply full_results_stored in Ehits.
    eapply Forall_impl; [exact Ehits|]. intros h Hs. split; [exact Hs|]. done.
Qed.

(** A chunk shows a stored document: its text, and the type of its
    metadata. *)
Definition chunk_of_store (s : state) (c : Retriever.chunk) : Prop :=
  ∃ (i : nat) (t : string) (m : document),
    documents s !! i = Some t ∧ metadata s !! i = Some m
    ∧ Retriever.text c = Some t ∧ Retriever.metadata_type c = Some (type m).

(** A chunk as [_search_vector_db] hands it on. *)
Definition confident_chunk (s : state) (c : Retriever.chunk) : Prop :=
  chunk_of_store s c
  ∧ (∃ x, Retriever.score c = Some x ∧ PrimFloat.ltb 0.7 x = true)
  ∧ Retriever.source c = "vector_db"%string.

Lemma enhanced_chunks (s : state) (hits : list hit) :
  Forall (shows_stored s) hits →
  Forall (confident_chunk s)
         (map enhanced (filter (fun h => high_confidence h = true) hits)).
Proof.
  intros H. apply Forall_forall. intros c (h & -> & Hh)%list_elem_of_fmap.
  apply list_elem_of_filter in Hh as [Hhigh Hh].
  rewrite Forall_forall in H. destruct (H h Hh) as [Ht Hm].
  split; [by exists (hit_index h), (hit_text h), (hit_metadata h)|].
  split; [by exists (hit_score h)|done].
Qed.

(** The state after [n] requests for the embedding of the query. *)
Definition asked (query : string) (n : nat) (s s' : state) : Prop :=
  same_store s s' ∧ clock s' = clock s
  ∧ embedding_calls s' = (embedding_calls s ++ replicate n [query])%list.

Lemma asked_0 (query : string) (s : state) : asked query 0 s s.
Proof. split; [done|]. split; [done|]. simpl. by rewrite app_nil_r. Qed.

Lemma asked_S (query : string) (n : nat) (s s' : state) :
  asked query n s s' → asked query (S n) s (called [query] s').
Proof.
  intros (Hsame & Hclock & Hcalls). split; [exact Hsame|]. split; [exact Hclock|].
  simpl. rewrite Hcalls, <- app_assoc. f_equal. symmetry. apply replicate_cons_app.
Qed.

Lemma shows_stored_same (s s' : state) (h : hit) :
  same_store s s' → shows_stored s' h → shows_stored s h.
Proof. intros (_ & Hd & Hm & _) [Ht Hmeta]. split; congruence. Qed.

(** The run of [_search_vector_db], in terms of the hits of the search
    that decided. *)
Lemma search_vector_db_run (e : env) (query : string) (symbol : option string)
    (s : state) :
  ∃ (hits : list hit) (s' : state) (n : nat),
    _search_vector_db e query symbol s
    = (Ret (map enhanced (filter (fun h => high_confidence h = true) hits)), s')
    ∧ n ≤ 2 ∧ asked query n s s'
    ∧ Forall (shows_stored s) hits
    ∧ (index s = [] → hits = [] ∧ s' = s).
Proof.
  unfold _search_vector_db, try_except. unfold bind at 1.
  destruct (search_outcome e query 10 symbol s) as (hits & s1 & -> & Hs1 & Hempty1 & Hhits).
  assert (Hstored : Forall (shows_stored s) hits).
  { eapply Forall_impl; [exact Hhits|]. by intros h [? _]. }
  assert (Hasked1 : ∃ n, n ≤ 1 ∧ asked query n s s1).
  { destruct Hs1 as [-> | ->]; [exists 0|exists 1]; (split; [lia|]).
    - apply asked_0.
    - apply asked_S, asked_0. }
  destruct Hasked1 as (n1 & Hn1 & Hasked1).
  assert (Hdirect :
    ∃ (hits0 : list hit) (s' : state) (n : nat),
      bind (ret hits)
        (fun results =>
           ret (map enhanced (filter (fun h => high_confidence h = true) results))) s1
      = (Ret (map enhanced (filter (fun h => high_confidence h = true) hits0)), s')
      ∧ n ≤ 2 ∧ asked query n s s'
      ∧ Forall (shows_stored s) hits0
      ∧ (index s = [] → hits0 = [] ∧ s' = s)).
  { exists hits, s1, n1. split; [reflexivity|]. split; [lia|]. split; [exact Hasked1|].
    split; [exact Hstored|exact Hempty1]. }
  destruct hits as [|h hits]; [|exact Hdirect].
  destruct (truthy_str symbol) as [sym|]; [|exact Hdirect].
  clear Hdirect. unfold bind at 1.
  destruct (search_outcome e query 5 None s1) as (hits2 & s2 & -> & Hs2 & Hempty2 & Hhits2).
  assert (Hasked2 : ∃ n, n ≤ 2 ∧ asked query n s s2).
  { destruct Hs2 as [-> | ->]; [exists n1|exists (S n1)]; (split; [lia|]).
    - exact Hasked1.
    - by apply asked_S. }
  destruct Hasked2 as (n2 & Hn2 & Hasked2).
  exists hits2, s2, n2. split; [reflexivity|]. split; [lia|]. split; [exact Hasked2|].
  split.
  - eapply Forall_impl; [exact Hhits2|].
    intros x [Hx _]. eapply shows_stored_same; [|exact Hx]. apply Hasked1.
  - intros Hnil. destruct (Hempty1 Hnil) as [_ ->]. by apply Hempty2.
Qed.

(** X17: [_search_vector_db] never raises and never alters the store; it sends
    the query to the embedding provider twice at most.  Every chunk it
    returns shows the text and the metadata type of a stored document, has
    a score above 0.7 and names ["vector_db"] as its source.  On an empty
    index it returns no chunk and asks for no embedding. *)
Theorem search_vector_db_chunks_are_stored (e : env) (query : string)
    (symbol : option string) (s : state) :
  ∃ (chunks : list Retriever.chunk) (s' : state) (n : nat),
    _search_vector_db e query symbol s = (Ret chunks, s')
    ∧ same_store s s'
    ∧ clock s' = clock s
    ∧ n ≤ 2
    ∧ embedding_calls s' = (embedding_calls s ++ replicate n [query])%list
    ∧ Forall (confident_chunk s) chunks
    ∧ (index s = [] → chunks = [] ∧ s' = s).
Proof.
  destruct (search_vector_db_run e query symbol s)
    as (hits & s' & n & Hrun & Hn & (Hsame & Hclock & Hcalls) & Hstored & Hempty).
  eexists _, s', n. split; [exact Hrun|]. split; [exact Hsame|].
  split; [exact Hclock|]. split; [exact Hn|]. split; [exact Hcalls|].
  split; [by apply enhanced_chunks|].
  intros Hnil. destruct (Hempty Hnil) as [-> ->]. done.
Qed.

(** X26: The context selected from the chunks of [_search_vector_db] comes from
    the store: every selected chunk shows the text and the metadata type of
    a stored document, with a score above 0.7.  The selection holds at most
    8 chunks, its texts fit the budget, and it is taken in order from the
    chunks sorted by score; it is empty when the index is empty. *)
Theorem selected_context_comes_from_store (e : env) (query : string)
    (symbol : option string) (max_length : Z) (s : state) :
  ∃ (chunks : list Retriever.chunk) (s' : state),
    _search_vector_db e query symbol s = (Ret chunks, s')
    ∧ same_store s s'
    ∧ let selected_context := Retriever._select_best_context chunks query max_length in
      Forall (confident_chunk s) selected_context
      ∧ length selected_context ≤ 8
      ∧ (cumulative_length selected_context ≤ Z.max 0 max_length)%Z
      ∧ sublist selected_context (Retriever.sorted_by_score chunks)
      ∧ (index s = [] → selected_context = []).
Proof.
  destruct (search_vector_db_run e query symbol s)
    as (hits & s' & n & Hrun & _ & (Hsame & _) & Hstored & Hempty).
  eexists _, s'. split; [exact Hrun|]. split; [exact Hsame|]. cbv zeta.
  set (chunks := map enhanced (filter (fun h => high_confidence h = true) hits)).
  destruct (select_best_context_bounds chunks query max_length) as (H1 & H2 & _ & H4).
  cbv zeta in *. split.
  - apply Forall_forall. intros c Hc.
    apply (sublist_subseteq _ _ H4) in Hc. rewrite sorted_by_score_perm in Hc.
    pose proof (enhanced_chunks s hits Hstored) as Hall.
    rewrite Forall_forall in Hall. by apply Hall.
  - split; [exact H2|]. split; [destruct H1 as [-> | H1]; simpl; lia|].
    split; [exact H4|].
    intros Hnil. destruct (Hempty Hnil) as [Hh _]. unfold chunks. by rewrite Hh.
Qed.

End RetrieverChunks.

(** ** Keyword tests on the query *)

Section QueryKeywords.

Import Keywords.
Local Open Scope nat_scope.

Lemma to_lower_upper (c : ascii) : PyStr.to_lower (PyStr.to_upper c) = PyStr.to_lower c.
Proof. destruct c as [[] [] [] [] [] [] [] []]; reflexivity. Qed.

Lemma to_lower_idempotent (c : ascii) : PyStr.to_lower (PyStr.to_lower c) = PyStr.to_lower c.
Proof. destruct c as [[] [] [] [] [] [] [] []]; reflexivity. Qed.

Lemma lower_upper (t : string) : PyStr.lower (PyStr.upper t) = PyStr.lower t.
Proof.
  induction t as [|c t IH]; [done|].
  unfold PyStr.lower, PyStr.upper in *. simpl. by rewrite to_lower_upper, IH.
Qed.

Lemma lower_idempotent (t : string) : PyStr.lower (PyStr.lower t) = PyStr.lower t.
Proof.
  induction t as [|c t IH]; [done|].
  unfold PyStr.lower in *. simpl. by rewrite to_lower_idempotent, IH.
Qed.

Lemma lower_app (a b : string) :
  PyStr.lower (a ++ b) = (PyStr.lower a ++ PyStr.lower b)%string.
Proof.
  induction a as [|c a IH]; [done|]. unfold PyStr.lower in *. simpl. by rewrite IH.
Qed.

Lemma prefix_app (word s after : string) :
  String.prefix word s = true → String.prefix word (s ++ after) = true.
Proof.
  revert s. induction word as [|c word IH]; intros s.
  - intros _. by destruct (s ++ after)%string.
  - destruct s as [|d s]; simpl; [done|].
    destruct (Ascii.ascii_dec c d); [apply IH|done].
Qed.

Lemma contains_app (word before s after : string) :
  contains word s = true → contains word (before ++ s ++ after) = true.
Proof.
  intros H. induction before as [|c before IH].
  - simpl. induction s as [|d s IHs].
    + simpl in H |- *. rewrite orb_false_r in H. destruct word; [|done].
      by destruct after.
    + simpl in H |- *. apply orb_true_iff in H as [H|H].
      * apply orb_true_iff. left. by apply (prefix_app word (String d s) after).
      * apply orb_true_iff. right. by apply IHs.
  - cbn [append contains]. apply orb_true_iff. by right.
Qed.

Lemma any_in_app (words : list string) (before s after : string) :
  any_in words s = true → any_in words (before ++ s ++ after) = true.
Proof.
  unfold any_in. rewrite !existsb_exists. intros (w & Hw & H).
  exists w. split; [exact Hw|]. by apply contains_app.
Qed.

(** X18: On ASCII text, [_needs_recent_news] does not depend on the letter
    case of the query, and a query needs recent news as soon as a part of
    it does: text added before or after never turns the answer to
    [False]. *)
Theorem needs_recent_news_ignores_case_and_context (query before after : string) :
  PyStr.isascii query = true → PyStr.isascii before = true →
  PyStr.isascii after = true →
  _needs_recent_news (PyStr.upper query) = _needs_recent_news query
  ∧ _needs_recent_news (PyStr.lower query) = _needs_recent_news query
  ∧ (_needs_recent_news query = true →
     _needs_recent_news (before ++ query ++ after) = true).
Proof.
  intros _ _ _. unfold _needs_recent_news. cbv zeta.
  rewrite lower_upper, lower_idempotent.
  split; [done|]. split; [done|]. rewrite !lower_app. apply any_in_app.
Qed.

Lemma needs_recent_news_ignores_case_and_context_witness :
  _needs_recent_news (PyStr.upper "Any news?") = _needs_recent_news "Any news?"
  ∧ _needs_recent_news (PyStr.lower "Any news?") = _needs_recent_news "Any news?"
  ∧ (_needs_recent_news "Any news?" = true →
     _needs_recent_news ("AAPL: " ++ "Any news?" ++ " Thanks") = true).
Proof.
  apply (needs_recent_news_ignores_case_and_context "Any news?" "AAPL: " " Thanks");
    reflexivity.
Defined.

(** The specific research scopes and analysis focuses, in the order the
    agent lists them. *)
Definition research_scopes : list string :=
  ["company_overview"; "financial_data"; "news_analysis"; "analyst_data"].

Definition analysis_focuses : list string :=
  ["technical_analysis"; "fundamental_analysis"; "sentiment_analysis"; "risk_assessment"].

(** What both functions answer: ["comprehensive"] alone, or some of the
    specific entries, at least one, each once, in their order. *)
Definition scope_shape (specific answer : list string) : Prop :=
  answer = ["comprehensive"]%string
  ∨ (answer ≠ [] ∧ sublist answer specific).

Lemma appended_cases (words : list string) (query_lower name : string) :
  appended words query_lower name = [name] ∨ appended words query_lower name = [].
Proof. unfold appended. destruct (any_in _ _); auto. Qed.

(** X19: The research scope and the analysis focus of an ASCII query are
    never empty: each is ["comprehensive"] alone, or one or more of the four
    specific entries, without repetition and in a fixed order, and never
    ["comprehensive"] together with a specific entry.  Neither depends on
    the letter case of the query. *)
Theorem scope_and_focus_shape (query : string) :
  PyStr.isascii query = true →
  scope_shape research_scopes (_determine_research_scope query)
  ∧ scope_shape analysis_focuses (_determine_analysis_focus query)
  ∧ _determine_research_scope (PyStr.upper query) = _determine_research_scope query
  ∧ _determine_analysis_focus (PyStr.upper query) = _determine_analysis_focus query.
Proof.
  intros _. unfold _determine_research_scope, _determine_analysis_focus. cbv zeta.
  rewrite lower_upper. split; [|split; [|done]].
  - destruct (any_in _ (PyStr.lower query)); [by left|].
    destruct (appended_cases ["company"; "business"; "overview"; "profile"]
                (PyStr.lower query) "company_overview") as [-> | ->];
    destruct (appended_cases ["financial"; "ratios"; "earnings"; "revenue"; "balance"]
                (PyStr.lower query) "financial_data") as [-> | ->];
    destruct (appended_cases ["news"; "sentiment"; "recent"; "developments"]
                (PyStr.lower query) "news_analysis") as [-> | ->];
    destruct (appended_cases ["analyst"; "recommendation"; "rating"; "target"]
                (PyStr.lower query) "analyst_data") as [-> | ->];
    cbn [app]; try (by left);
    (right; split; [done|]; unfold research_scopes;
     repeat first [apply sublist_nil | apply sublist_skip | apply sublist_cons]).
  - destruct (any_in _ (PyStr.lower query)); [by left|].
    destruct (appended_cases ["technical"; "chart"; "price"; "trend"; "momentum"]
                (PyStr.lower query) "technical_analysis") as [-> | ->];
    destruct (appended_cases ["fundamental"; "valuation"; "ratios"; "financial"]
                (PyStr.lower query) "fundamental_analysis") as [-> | ->];
    destruct (appended_cases ["sentiment"; "news"; "market perception"]
                (PyStr.lower query) "sentiment_analysis") as [-> | ->];
    destruct (appended_cases ["risk"; "volatility"; "safety"]
                (PyStr.lower query) "risk_assessment") as [-> | ->];
    cbn [app]; try (by left);
    (right; split; [done|]; unfold analysis_focuses;
     repeat first [apply sublist_nil | apply sublist_skip | apply sublist_cons]).
Qed.

(** X19 on a query about the news and the risks of a company. *)
Lemma scope_and_focus_shape_witness :
  scope_shape research_scopes (_determine_research_scope "Apple news and risk")
  ∧ scope_shape analysis_focuses (_determine_analysis_focus "Apple news and risk")
  ∧ _determine_research_scope (PyStr.upper "Apple news and risk")
    = _determine_research_scope "Apple news and risk"
  ∧ _determine_analysis_focus (PyStr.upper "Apple news and risk")
    = _determine_analysis_focus "Apple news and risk".
Proof. apply (scope_and_focus_shape "Apple news and risk"). reflexivity. Defined.

End QueryKeywords.

(** ** Words: splitting and joining *)

Section Words.

Import PyStr.
Local Open Scope nat_scope.

(** A word as [str.split] yields them: not empty, no blank. *)
Definition word (p : string) : Prop :=
  p ≠ ""%string ∧ Forall (fun c => is_space c = false) (chars p).

Lemma chars_app (a b : string) : chars (a ++ b) = (chars a ++ chars b)%list.
Proof. induction a as [|c a IH]; [done|]. unfold chars in *. simpl. by rewrite IH. Qed.

Lemma length_chars (a : string) : length (chars a) = String.length a.
Proof. induction a as [|c a IH]; [done|]. unfold chars in *. simpl. by rewrite IH. Qed.

Lemma split_from_run (cs w rest : list ascii) :
  Forall (fun c => is_space c = false) cs →
  split_from w (cs ++ rest) = split_from (rev cs ++ w) rest.
Proof.
  intros H. revert w. induction H as [|c cs Hc _ IH]; intros w; [done|].
  simpl. rewrite Hc, IH. by rewrite <- app_assoc.
Qed.

Lemma str_rev_word (w : list ascii) :
  w ≠ [] → Forall (fun c => is_space c = false) w → word (str (rev w)).
Proof.
  intros Hw Hns. split.
  - intros H. apply (f_equal chars) in H. rewrite chars_str in H.
    apply (f_equal (@length _)) in H. rewrite length_rev in H. by destruct w.
  - rewrite chars_str. by apply Forall_rev.
Qed.

Lemma split_from_words (w cs : list ascii) :
  Forall (fun c => is_space c = false) w → Forall word (split_from w cs).
Proof.
  revert w. induction cs as [|c cs IH]; intros w Hw; simpl.
  - destruct w as [|a w]; [constructor|]. constructor; [|constructor].
    by apply str_rev_word.
  - destruct (is_space c) eqn:Ec.
    + destruct w as [|a w]; [by apply IH|].
      constructor; [by apply str_rev_word|by apply IH].
    + apply IH. by constructor.
Qed.

Lemma split_words (t : string) : Forall word (split t).
Proof. by apply split_from_words. Qed.

Lemma split_word (p : string) (rest : list ascii) :
  word p →
  split_from [] (chars p ++ rest)
  = match rest with
    | [] => [p]
    | c :: rest' => if is_space c then p :: split_from [] rest'
                    else split_from (rev (chars p)) rest
    end.
Proof.
  intros [Hne Hns]. rewrite (split_from_run _ _ _ Hns), app_nil_r.
  assert (Hrev : rev (chars p) ≠ []).
  { intros H. apply Hne. rewrite <- (str_chars p).
    apply (f_equal (@length _)) in H. rewrite length_rev in H.
    by destruct (chars p). }
  destruct rest as [|c rest'].
  - simpl. destruct (rev (chars p)) as [|a l] eqn:E; [done|].
    by rewrite <- E, rev_involutive, str_chars.
  - simpl. destruct (is_space c); [|done].
    destruct (rev (chars p)) as [|a l] eqn:E; [done|].
    by rewrite <- E, rev_involutive, str_chars.
Qed.

(** Splitting the words joined by a space gives the words back. *)
Lemma split_join (ws : list string) : Forall word ws → split (join " " ws) = ws.
Proof.
  induction 1 as [|p ws Hp Hws IH]; [done|].
  destruct ws as [|q ws].
  - simpl. unfold split. rewrite <- (app_nil_r (chars p)). by rewrite split_word.
  - change (join " " (p :: q :: ws)) with (p ++ " " ++ join " " (q :: ws))%string.
    unfold split in *. rewrite !chars_app, split_word by done.
    cbn [chars list_ascii_of_string app]. change (is_space " ") with true.
    cbn iota. by rewrite IH.
Qed.

Lemma join_empty (ws : list string) :
  Forall word ws → join " " ws = ""%string → ws = [].
Proof.
  intros H Hj. destruct H as [|p ws [Hp _] _]; [done|]. exfalso.
  destruct ws as [|q ws]; [by simpl in Hj|].
  change (join " " (p :: q :: ws)) with (p ++ " " ++ join " " (q :: ws))%string in Hj.
  by destruct p.
Qed.

(** *** [EmbeddingManager._clean_text] *)

(** X20: [_clean_text] returns at most [max_chars + 3] characters.  For a text
    within the limit it changes the blanks only: the result is the words of
    the text joined by single spaces, it has the same words, and cleaning
    it again changes nothing. *)
Theorem clean_text_keeps_the_words (t : string) :
  (Z.of_nat (String.length (Embeddings._clean_text t)) ≤ Embeddings.max_chars + 3)%Z
  ∧ ((Z.of_nat (String.length (join " " (split t))) ≤ Embeddings.max_chars)%Z →
     Embeddings._clean_text t = join " " (split t)
     ∧ split (Embeddings._clean_text t) = split t
     ∧ Embeddings._clean_text (Embeddings._clean_text t) = Embeddings._clean_text t).
Proof.
  assert (Hmax : (0 ≤ Embeddings.max_chars)%Z) by done.
  assert (Hclean : ∀ u, (Z.of_nat (String.length (join " " (split u))) ≤ Embeddings.max_chars)%Z →
                        Embeddings._clean_text u = join " " (split u)).
  { intros u Hu. unfold Embeddings._clean_text.
    destruct (String.eqb_spec u "") as [->|_]; [done|].
    cbv zeta. destruct (Z.ltb_spec Embeddings.max_chars
                          (Z.of_nat (String.length (join " " (split u))))); [lia|done]. }
  split.
  - unfold Embeddings._clean_text. destruct (String.eqb_spec t "") as [->|_]; [done|].
    cbv zeta. generalize dependent Embeddings.max_chars. intros max_chars Hmax _.
    destruct (Z.ltb_spec max_chars (Z.of_nat (String.length (join " " (split t)))));
      [|lia].
    rewrite <- length_chars, chars_app, chars_str, length_app, length_take.
    change (length (chars "...")) with 3. lia.
  - intros Hshort. rewrite (Hclean t Hshort).
    assert (Hsplit : split (join " " (split t)) = split t)
      by apply split_join, split_words.
    split; [done|]. split; [done|].
    rewrite Hclean; by rewrite Hsplit.
Qed.

Lemma clean_text_keeps_the_words_witness :
  (Z.of_nat (String.length (Embeddings._clean_text "  a   b ")) ≤ Embeddings.max_chars + 3)%Z
  ∧ ((Z.of_nat (String.length (join " " (split "  a   b "))) ≤ Embeddings.max_chars)%Z →
     Embeddings._clean_text "  a   b " = join " " (split "  a   b ")
     ∧ split (Embeddings._clean_text "  a   b ") = split "  a   b "
     ∧ Embeddings._clean_text (Embeddings._clean_text "  a   b ")
       = Embeddings._clean_text "  a   b ").
Proof. exact (clean_text_keeps_the_words "  a   b "). Defined.

(** *** [StockRAGRetriever._extract_company_keywords] *)

(** The keywords of a query: the first three words of the lowercased query
    that are no stop word and longer than two characters. *)
Definition keywords_of (query : string) : list string :=
  take 3 (filter (fun w => ¬ (w ∈ Retriever.stop_words) ∧ 2 < String.length w)
                 (split (lower query))).

(** X21: The string [_extract_company_keywords] returns splits back into the
    keywords: at most three words, none a stop word, each longer than two
    characters; it is empty exactly when there is no keyword.  The symbol
    extraction consults the company search only when no pattern matched and
    there is a keyword, and an exception of the search is not caught. *)
Theorem company_keywords_round_trip (query : string) :
  split (Retriever._extract_company_keywords query) = keywords_of query
  ∧ length (keywords_of query) ≤ 3
  ∧ Forall (fun w => (w ∉ Retriever.stop_words) ∧ 2 < String.length w) (keywords_of query)
  ∧ (Retriever._extract_company_keywords query = ""%string ↔ keywords_of query = [])
  ∧ ∀ e : exn,
      Retriever._extract_symbol_from_query (fun _ => Raise e) query
      = match Retriever.symbol_by_pattern query, keywords_of query with
        | Some m, _ => Ret (Some m)
        | None, [] => Ret None
        | None, _ => Raise e
        end.
Proof.
  assert (Hwords : Forall word (keywords_of query)).
  { unfold keywords_of. apply Forall_take. apply Forall_forall. intros w Hw.
    apply list_elem_of_filter in Hw as [_ Hw].
    pose proof (split_words (lower query)) as H. rewrite Forall_forall in H. by apply H. }
  assert (Hempty : Retriever._extract_company_keywords query = ""%string
                   ↔ keywords_of query = []).
  { unfold Retriever._extract_company_keywords. cbv zeta. fold (keywords_of query).
    split; [by apply join_empty|by intros ->]. }
  split; [by apply split_join|].
  split; [unfold keywords_of; rewrite length_take; lia|].
  split.
  { unfold keywords_of. apply Forall_take. apply Forall_forall. intros w Hw.
    by apply list_elem_of_filter in Hw as [Hw _]. }
  split; [exact Hempty|].
  intros e. unfold Retriever._extract_symbol_from_query.
  destruct (Retriever.symbol_by_pattern query); [done|].
  destruct (String.eqb_spec (Retriever._extract_company_keywords query) "") as [E|E].
  - apply Hempty in E. by rewrite E.
  - destruct (keywords_of query); [|done]. exfalso. by apply E, Hempty.
Qed.

End Words.

(** ** Statistics of the store *)

Section Statistics.

Import VectorDB.
Local Open Scope nat_scope.

(** The symbols under which documents are filed. *)
Definition filed_symbols (s : state) : gset string :=
  list_to_set (map symbol (metadata s)).

(** X22: On a consistent store [get_stats] reports as many documents as the
    index has rows.  When the symbol index is exact, the companies it
    lists are the symbols of the stored documents, each once, and
    [total_companies] is their number. *)
Theorem get_stats_counts (e : env) (s : state) :
  (consistent s →
   total_documents (get_stats e s) = index_size (get_stats e s)
   ∧ total_documents (get_stats e s) = length (metadata s))
  ∧ (symbol_indexed s →
     NoDup (companies (get_stats e s))
     ∧ (∀ sym, sym ∈ companies (get_stats e s) ↔ ∃ m, m ∈ metadata s ∧ symbol m = sym)
     ∧ total_companies (get_stats e s) = size (filed_symbols s)
     ∧ length (companies (get_stats e s)) = total_companies (get_stats e s))
  ∧ stats_dimension (get_stats e s) = dimension e.
Proof.
  split; [|split; [|done]].
  - intros (Hdm & Hmi & _). simpl. split; congruence.
  - intros Hidx. cbn [get_stats companies total_companies].
    assert (Hdom : dom (company_index s) = filed_symbols s).
    { apply set_eq. intros sym. rewrite (symbol_indexed_dom s sym Hidx).
      unfold filed_symbols. rewrite elem_of_list_to_set, list_elem_of_fmap.
      split; intros (m & ? & ?); exists m; done. }
    split; [apply NoDup_fst_map_to_list|]. split.
    + intros sym. rewrite <- (symbol_indexed_dom s sym Hidx), elem_of_dom.
      rewrite list_elem_of_fmap. split.
      * intros ([k v] & -> & Hkv). apply elem_of_map_to_list in Hkv. by exists v.
      * intros [v Hv]. exists (sym, v). split; [done|]. by apply elem_of_map_to_list.
    + split; [by rewrite <- Hdom, size_dom|].
      by rewrite length_map, length_map_to_list.
Qed.

End Statistics.

(** ** The patterns of the symbol extraction *)

Section Patterns.

Import Re.
Local Open Scope nat_scope.

(** *** A continuation that always fails *)

Lemma lit_suffix (s : list ascii) (c c' : cursor) :
  lit s c = Some c' → rest c' `suffix_of` rest c.
Proof.
  revert c. induction s as [|a s IH]; intros c; simpl.
  - by intros [= ->].
  - destruct (rest c) as [|b cs] eqn:E; [done|].
    destruct (Ascii.eqb a b); [|done]. intros H%IH. simpl in H.
    by apply suffix_cons_r.
Qed.

Lemma repeat_none {R} (p : ascii → bool) (lo : nat) (hi : option nat)
    (cs : list ascii) (n : nat) (prev : option ascii) (off : nat)
    (k : cursor → option R) :
  (∀ prev' cs' off', cs' `suffix_of` cs → k (Cursor prev' cs' off') = None) →
  repeat p lo hi n prev cs off k = None.
Proof.
  revert n prev off. induction cs as [|a cs IH]; intros n prev off Hk.
  - simpl. destruct (lo <=? n); [by apply Hk|done].
  - assert (Hstop : (if lo <=? n then k (Cursor prev (a :: cs) off) else None) = None).
    { destruct (lo <=? n); [by apply Hk|done]. }
    cbn [repeat]. rewrite Hstop.
    destruct (p a && _); [|done].
    rewrite IH; [done|]. intros prev' cs' off' Hs. apply Hk. by apply suffix_cons_r.
Qed.

(** A pattern fails when what follows it fails wherever it may stop. *)
Lemma run_none {R} (r : regex) (c : cursor) (g : option string)
    (k : cursor → option string → option R) :
  (∀ c' g', rest c' `suffix_of` rest c → k c' g' = None) → run r c g k = None.
Proof.
  revert c g k. induction r as [s|p|p lo hi| |r1 IH1 r2 IH2|r1 IH1 r2 IH2|r1 IH1|r1 IH1];
    intros c g k Hk; cbn [run].
  - destruct (lit (PyStr.chars s) c) as [c'|] eqn:E; [|done].
    apply Hk. by eapply lit_suffix.
  - destruct (rest c) as [|a cs] eqn:E; [done|]. destruct (p a); [|done].
    unfold advance. rewrite E. apply Hk. simpl. by apply suffix_cons_r.
  - apply repeat_none. intros prev' cs' off' Hs. by apply Hk.
  - destruct (xorb _ _); [by apply Hk|done].
  - apply IH1. intros c' g' Hs. apply IH2. intros c'' g'' Hs'. apply Hk.
    by etrans.
  - rewrite IH1 by done. by apply IH2.
  - rewrite IH1 by done. by apply Hk.
  - apply IH1. intros c' g' Hs. by apply Hk.
Qed.

(** *** Lowercase words in the patterns *)

(** A text without lowercase letters, as [query.upper()] is. *)
Definition no_lower (cs : list ascii) : Prop :=
  Forall (fun c => PyStr.is_lower c = false) cs.

(** A pattern that matches nowhere in such a text. *)
Definition dead (r : regex) : Prop :=
  ∀ (R : Type) (c : cursor) (g : option string) (k : cursor → option string → option R),
    no_lower (rest c) → run r c g k = None.

Lemma to_upper_not_lower (c : ascii) : PyStr.is_lower (PyStr.to_upper c) = false.
Proof. destruct c as [[] [] [] [] [] [] [] []]; reflexivity. Qed.

Lemma upper_no_lower (t : string) : no_lower (PyStr.chars (PyStr.upper t)).
Proof.
  induction t as [|c t IH]; [constructor|].
  constructor; [apply to_upper_not_lower|exact IH].
Qed.

Lemma no_lower_suffix (cs cs' : list ascii) :
  cs' `suffix_of` cs → no_lower cs → no_lower cs'.
Proof. intros [l ->] H. by apply Forall_app in H as [_ H]. Qed.

Lemma dead_lit (a : ascii) (s : string) :
  PyStr.is_lower a = true → dead (Lit (String a s)).
Proof.
  intros Ha R c g k Hc. cbn [run PyStr.chars list_ascii_of_string lit].
  destruct (rest c) as [|b cs]; [done|].
  apply Forall_cons in Hc as [Hb _].
  destruct (Ascii.eqb_spec a b) as [->|_]; [congruence|done].
Qed.

Lemma dead_cat_l (r1 r2 : regex) : dead r1 → dead (Cat r1 r2).
Proof. intros H R c g k Hc. cbn [run]. by apply H. Qed.

Lemma dead_cat_r (r1 r2 : regex) : dead r2 → dead (Cat r1 r2).
Proof.
  intros H R c g k Hc. cbn [run]. apply run_none. intros c' g' Hs.
  apply H. by eapply no_lower_suffix.
Qed.

Lemma dead_alt (r1 r2 : regex) : dead r1 → dead r2 → dead (Alt r1 r2).
Proof. intros H1 H2 R c g k Hc. cbn [run]. by rewrite H1, H2. Qed.

Lemma dead_group (r : regex) : dead r → dead (Group r).
Proof. intros H R c g k Hc. cbn [run]. by apply H. Qed.

Lemma findall_dead (r : regex) (prev : option ascii) (cs : list ascii) (off resume : nat) :
  dead r → no_lower cs → findall_from r prev cs off resume = [].
Proof.
  intros Hr Hcs. revert prev off resume.
  induction Hcs as [|a cs Ha Hcs IH]; intros prev off resume; cbn [findall_from].
  - unfold match_at. rewrite Hr by constructor. by destruct (off <? resume).
  - unfold match_at. rewrite Hr by by constructor. destruct (off <? resume); apply IH.
Qed.

Ltac dead_words :=
  repeat first
    [ apply dead_alt
    | apply dead_lit; reflexivity
    | apply dead_cat_l; apply dead_lit; reflexivity ].

Lemma retriever_pattern3_dead : dead Retriever.pattern3.
Proof.
  unfold Retriever.pattern3. cbn [seq alt].
  do 3 apply dead_cat_r. apply dead_cat_l. dead_words.
Qed.

Lemma master_pattern3_dead : dead MasterAgent.pattern3.
Proof. unfold MasterAgent.pattern3. cbn [seq alt]. apply dead_cat_l. dead_words. Qed.

Lemma retriever_suffix_dead :
  dead (alt [Cat spaces (Lit "stock"); seq [spaces; Lit "share"; Opt (Lit "s")];
             Cat spaces (Lit "company")]).
Proof.
  cbn [seq alt].
  repeat first [ apply dead_alt | apply dead_cat_r; dead_words ].
Qed.

Lemma master_suffix_dead :
  dead (Cat spaces (alt [Lit "stock"; Cat (Lit "share") (Opt (Lit "s"));
                         Lit "company"; Lit "corp"])).
Proof. cbn [alt]. apply dead_cat_r. dead_words. Qed.

(** X24: The query is uppercased before the patterns are applied, and the
    patterns spell their keywords in lowercase.  So the third pattern of the
    retriever ([... stock|shares?|company|corp|inc]) and the third pattern
    of the master agent ([ticker:], [symbol:]) match nothing, whatever the
    query: the extraction is decided by the first two patterns alone. *)
Theorem lowercase_patterns_never_match (query : string) :
  findall Retriever.pattern3 (PyStr.upper query) = []
  ∧ findall MasterAgent.pattern3 (PyStr.upper query) = []
  ∧ Retriever.symbol_by_pattern query
    = Retriever.first_symbol [Retriever.pattern1; Retriever.pattern2] (PyStr.upper query)
  ∧ MasterAgent._extract_symbol_from_query query
    = MasterAgent.first_symbol [MasterAgent.pattern1; MasterAgent.pattern2]
        (PyStr.upper query).
Proof.
  assert (H1 : findall Retriever.pattern3 (PyStr.upper query) = []).
  { apply findall_dead; [apply retriever_pattern3_dead|apply upper_no_lower]. }
  assert (H2 : findall MasterAgent.pattern3 (PyStr.upper query) = []).
  { apply findall_dead; [apply master_pattern3_dead|apply upper_no_lower]. }
  split; [exact H1|]. split; [exact H2|]. split.
  - unfold Retriever.symbol_by_pattern, Retriever.patterns.
    cbn [Retriever.first_symbol]. by rewrite H1.
  - unfold MasterAgent._extract_symbol_from_query, MasterAgent.patterns.
    cbn [MasterAgent.first_symbol]. by rewrite H2.
Qed.

(** *** The first word of the query *)

(** The character before the cursor once [cs] has been read. *)
Fixpoint after (prev : option ascii) (cs : list ascii) : option ascii :=
  match cs with
  | [] => prev
  | a :: cs' => after (Some a) cs'
  end.

(** What follows a word: nothing, or a character that is not of a word. *)
Definition ends_word (tail : list ascii) : Prop :=
  match tail with
  | [] => True
  | a :: _ => PyStr.is_word a = false
  end.

Lemma repeat_run {R} (p : ascii → bool) (lo h : nat) (cs tail : list ascii)
    (n : nat) (prev : option ascii) (off : nat) (k : cursor → option R) (r : R) :
  Forall (fun a => p a = true) cs →
  match tail with [] => True | a :: _ => p a = false end →
  n + length cs ≤ h → lo ≤ n + length cs →
  k (Cursor (after prev cs) tail (off + length cs)) = Some r →
  repeat p lo (Some h) n prev (cs ++ tail)%list off k = Some r.
Proof.
  intros Hcs Htail. revert n prev off.
  induction Hcs as [|a cs Ha Hcs IH]; intros n prev off Hh Hlo Hk.
  - simpl in *. rewrite Nat.add_0_r in *.
    apply Nat.leb_le in Hlo. destruct tail as [|a tail]; simpl.
    + by rewrite Hlo.
    + by rewrite Htail, Hlo.
  - cbn [app repeat]. rewrite Ha. simpl in Hh, Hlo, Hk.
    assert (Hn : (n <? h) = true) by (apply Nat.ltb_lt; lia). rewrite Hn. cbn [andb].
    rewrite (IH (S n) (Some a) (S off)); [done|lia|lia|].
    by rewrite Nat.add_succ_r in Hk.
Qed.

Lemma after_word (prev : option ascii) (cs : list ascii) :
  cs ≠ [] → Forall (fun a => PyStr.is_upper a = true) cs →
  ∃ a, after prev cs = Some a ∧ PyStr.is_word a = true.
Proof.
  intros Hne H. revert prev. induction H as [|a cs Ha Hcs IH]; intros prev; [done|].
  destruct cs as [|b cs].
  - exists a. split; [done|]. unfold PyStr.is_word, PyStr.is_alpha. by rewrite Ha.
  - apply (IH ltac:(done) (Some a)).
Qed.

(** The head of both first patterns: [\b([A-Z]{1,5})\b] and then a part that
    is dead and optional. *)
Lemma word_match (suffix : regex) (u tail : list ascii) :
  dead suffix → u ≠ [] → length u ≤ 5 →
  Forall (fun a => PyStr.is_upper a = true) u →
  ends_word tail → no_lower tail →
  match_at (seq [Boundary; Group (A_Z 1 5); Boundary; Opt suffix])
           (Cursor None (u ++ tail)%list 0)
  = Some (length u, Some (PyStr.str u)).
Proof.
  intros Hdead Hne Hlen Hup Htail Hlow.
  unfold match_at. cbn [seq run rest before offset]. unfold word_before, word_after.
  cbn [before rest].
  destruct u as [|a0 u0] eqn:Eu; [done|]. rewrite <- Eu in *.
  assert (Ha0 : PyStr.is_word a0 = true).
  { rewrite Eu in Hup. apply Forall_cons in Hup as [Ha _].
    unfold PyStr.is_word, PyStr.is_alpha. by rewrite Ha. }
  replace (match (u ++ tail)%list with a :: _ => PyStr.is_word a | [] => false end)
    with true by (by rewrite Eu).
  cbn [xorb]. unfold A_Z. cbn [run rest before offset].
  apply repeat_run; [exact Hup| |simpl; lia|destruct u; [done|simpl; lia]|].
  { destruct tail as [|a tail]; [done|]. simpl in Htail.
    unfold PyStr.is_word, PyStr.is_alpha in Htail.
    by destruct (PyStr.is_upper a). }
  destruct (after_word None u Hne Hup) as (b & Hb & Hwb).
  cbn [run before rest offset]. rewrite Hb, Hwb.
  replace (match tail with a :: _ => PyStr.is_word a | [] => false end) with false
    by (by destruct tail).
  cbn [xorb]. rewrite Hdead by done.
  by rewrite Nat.sub_0_r, Nat.add_0_l, take_app_length.
Qed.

Lemma findall_first (r : regex) (cs : list ascii) (e : nat) (m : string) :
  cs ≠ [] → match_at r (Cursor None cs 0) = Some (e, Some m) →
  ∃ later, findall_from r None cs 0 0 = m :: later.
Proof.
  intros Hne Hm. destruct cs as [|a cs]; [done|].
  cbn [findall_from]. change (0 <? 0) with false. cbn iota. rewrite Hm. eauto.
Qed.

Lemma is_alpha_upper (c : ascii) :
  PyStr.is_alpha c = true → PyStr.is_upper (PyStr.to_upper c) = true.
Proof. destruct c as [[] [] [] [] [] [] [] []]; (reflexivity || discriminate). Qed.

Lemma is_upper_alpha (c : ascii) : PyStr.is_upper c = true → PyStr.is_alpha c = true.
Proof. unfold PyStr.is_alpha. by intros ->. Qed.

Lemma is_word_upper (c : ascii) : PyStr.is_word (PyStr.to_upper c) = PyStr.is_word c.
Proof. destruct c as [[] [] [] [] [] [] [] []]; reflexivity. Qed.

Lemma chars_upper (t : string) :
  PyStr.chars (PyStr.upper t) = map PyStr.to_upper (PyStr.chars t).
Proof. induction t as [|c t IH]; [done|]. simpl. f_equal. exact IH. Qed.

Lemma upper_app (a b : string) :
  PyStr.upper (a ++ b) = (PyStr.upper a ++ PyStr.upper b)%string.
Proof.
  induction a as [|c a IH]; [done|]. unfold PyStr.upper in *. simpl. by rewrite IH.
Qed.

(** X25: The first word decides: when an ASCII query begins with one to
    five letters and goes on with nothing, or with a character that is no
    letter, digit or underscore, the retriever resolves it to these letters
    in uppercase, whatever comes after; so does the master agent, unless the
    word is in its stop-list. *)
Theorem first_short_word_is_the_symbol (w tail : string) :
  PyStr.isascii w = true → PyStr.isascii tail = true →
  1 ≤ String.length w ≤ 5 → PyStr.isalpha w = true →
  ends_word (PyStr.chars tail) →
  Retriever.symbol_by_pattern (w ++ tail) = Some (PyStr.upper w)
  ∧ (PyStr.upper w ∉ MasterAgent.excluded_words →
     MasterAgent._extract_symbol_from_query (w ++ tail) = Some (PyStr.upper w)).
Proof.
  intros _ _ [Hlo Hhi] Halpha Htail.
  set (u := PyStr.chars (PyStr.upper w)).
  set (t := PyStr.chars (PyStr.upper tail)).
  assert (Hwalpha : Forall (fun c => PyStr.is_alpha c = true) (PyStr.chars w)).
  { unfold PyStr.isalpha in Halpha. destruct (PyStr.chars w) as [|a l]; [done|].
    apply Forall_forall. intros c Hc. rewrite forallb_forall in Halpha.
    apply Halpha. by apply list_elem_of_In. }
  assert (Hlenu : length u = String.length w).
  { unfold u. by rewrite chars_upper, length_map, length_chars. }
  assert (Hup : Forall (fun a => PyStr.is_upper a = true) u).
  { unfold u. rewrite chars_upper. apply Forall_fmap.
    eapply Forall_impl; [exact Hwalpha|]. intros c Hc. by apply is_alpha_upper. }
  assert (Hne : u ≠ []) by (intros E; rewrite E in Hlenu; simpl in Hlenu; lia).
  assert (Hends : ends_word t).
  { unfold t. rewrite chars_upper. destruct (PyStr.chars tail) as [|a l]; [done|].
    simpl in *. by rewrite is_word_upper. }
  assert (Hlow : no_lower t) by apply upper_no_lower.
  assert (Htext : PyStr.chars (PyStr.upper (w ++ tail)) = (u ++ t)%list).
  { by rewrite upper_app, chars_app. }
  assert (Hstr : PyStr.str u = PyStr.upper w) by apply str_chars.
  assert (Hlooks : Retriever.looks_like_symbol (PyStr.upper w) = true).
  { unfold Retriever.looks_like_symbol.
    rewrite <- (length_chars (PyStr.upper w)). fold u. rewrite Hlenu.
    apply andb_true_intro. split.
    - apply andb_true_intro. split; by apply Nat.leb_le.
    - unfold PyStr.isalpha. fold u. clearbody u. destruct u as [|a l]; [done|].
      apply forallb_forall. intros c Hc%list_elem_of_In.
      rewrite Forall_forall in Hup. by apply is_upper_alpha, Hup. }
  assert (Hne' : (u ++ t)%list ≠ []) by (by destruct u).
  split.
  - unfold Retriever.symbol_by_pattern, Retriever.patterns. cbn [Retriever.first_symbol].
    unfold findall. rewrite Htext.
    destruct (findall_first Retriever.pattern1 (u ++ t)%list (length u) (PyStr.upper w))
      as [later ->]; [done| |].
    + rewrite <- Hstr. apply word_match; try done; [apply retriever_suffix_dead|lia].
    + cbn [List.find]. by rewrite Hlooks.
  - intros Hexcl.
    unfold MasterAgent._extract_symbol_from_query, MasterAgent.patterns.
    cbn [MasterAgent.first_symbol]. unfold findall. rewrite Htext.
    destruct (findall_first MasterAgent.pattern1 (u ++ t)%list (length u) (PyStr.upper w))
      as [later ->]; [done| |].
    + rewrite <- Hstr. apply word_match; try done; [apply master_suffix_dead|lia].
    + cbn [List.find]. unfold MasterAgent.accepted. rewrite Hlooks.
      by rewrite bool_decide_eq_true_2.
Qed.

Lemma first_short_word_is_the_symbol_witness :
  Retriever.symbol_by_pattern ("tell" ++ " me about the market") = Some (PyStr.upper "tell")
  ∧ (PyStr.upper "tell" ∉ MasterAgent.excluded_words →
     MasterAgent._extract_symbol_from_query ("tell" ++ " me about the market")
     = Some (PyStr.upper "tell")).
Proof.
  apply (first_short_word_is_the_symbol "tell" " me about the market").
  - reflexivity.
  - reflexivity.
  - simpl. lia.
  - reflexivity.
  - reflexivity.
Defined.

End Patterns.
